(** * The vhost-user-fs transport: virtiofsd's virtio glue and the device-side
      DAX cache controller

    A shallow embedding of [contrib/virtiofsd/fuse_virtio.c] (the daemon) and
    of the slave-channel handlers of the vhost-user-fs device (the four
    [vhost_user_fs_slave_*] functions), with the properties the transport
    specification states about them.

    Conventions.  C integers are [Z]; every operation that can wrap in the C
    code is written with its reduction modulo the type's width.  Pointers are
    [Z] addresses.  A [uint64_t] result that carries a negative [int] is its
    two's complement, as the C cast produces it. *)

From stdpp Require Import base numbers list.
From Stdlib Require Import ZArith Lia.
From Stdlib Require Strings.Byte.

Local Open Scope Z_scope.

(** ** Machine integers *)

Definition UINT64_MOD : Z := 2 ^ 64.
Definition UINT32_MOD : Z := 2 ^ 32.

(** [~(uint64_t)0] *)
Definition UINT64_ALL_ONES : Z := UINT64_MOD - 1.

(** The cast [(uint64_t)x] and unsigned 64-bit wrap-around. *)
Definition to_uint64 (x : Z) : Z := x mod UINT64_MOD.

(** The cast to [unsigned int] and unsigned 32-bit wrap-around. *)
Definition to_uint32 (x : Z) : Z := x mod UINT32_MOD.

(** The conversion of an [unsigned int] to [int]. *)
Definition to_int32 (x : Z) : Z :=
  if to_uint32 x <? 2 ^ 31 then to_uint32 x else to_uint32 x - UINT32_MOD.

(** A [uint64_t] read back as [int64_t]: the callers "must sign-extend to
    detect failure". *)
Definition to_int64 (x : Z) : Z :=
  if x <? 2 ^ 63 then x else x - UINT64_MOD.

(** A [uint64_t] result is a failure when it is negative as [int64_t]. *)
Definition is_failure (ret : Z) : bool := to_int64 ret <? 0.

(** Linux errno numbers used by the two programs (asm-generic/errno*.h). *)
Definition EIO : Z := 5.
Definition E2BIG : Z := 7.
Definition EFAULT : Z := 14.
Definition ENODEV : Z := 19.
Definition ENOSPC : Z := 28.
Definition EOPNOTSUPP : Z := 95.

(** ** The device side: the slave-channel handlers of vhost-user-fs *)

(** Modelled from the spec: the flag bits of a slave message entry, declared
    in hw/virtio/vhost-user-fs.h, which is not part of the sources at hand;
    "Flags: bit 0 = readable mapping, bit 1 = writable mapping". *)
Definition VHOST_USER_FS_FLAG_MAP_R : Z := 1.
Definition VHOST_USER_FS_FLAG_MAP_W : Z := 2.

(** [PROT_*] of sys/mman.h. *)
Definition PROT_NONE : Z := 0.
Definition PROT_READ : Z := 1.
Definition PROT_WRITE : Z := 2.

(** [VhostUserFSSlaveMsg]: four parallel arrays of [uint64_t], each of
    [VHOST_USER_FS_SLAVE_ENTRIES] elements. *)
Record VhostUserFSSlaveMsg := {
  sm_flags : list Z;
  sm_fd_offset : list Z;
  sm_c_offset : list Z;
  sm_len : list Z
}.

(** The fields of [VHostUserFS] the handlers read: [conf.cache_size] and the
    host address of the cache region, [memory_region_get_ram_ptr(&fs->cache)]. *)
Record VHostUserFS := {
  cache_size : Z;
  cache_host : Z
}.

(** The system calls the handlers issue, with their arguments.  The two
    [mmap] shapes are told apart: a shared mapping of a file, and the
    anonymous [PROT_NONE] mapping that restores a range. *)
Inductive syscall :=
| SysMmapFile (addr len prot fd fd_off : Z)
| SysMmapAnon (addr len : Z)
| SysMsync (addr len : Z)
| SysPread (fd hostptr size off : Z)
| SysPwrite (fd hostptr size off : Z)
| SysClose (fd : Z).

(** What [memory_region_find] and [qemu_map_ram_ptr] give for a guest
    physical range: the size of the section found (zero when there is none),
    whether its region is read-only, and the host address of its start. *)
Record MemoryRegionSection := {
  mrs_size : Z;
  mrs_readonly : bool;
  mrs_hostptr : Z
}.

(** Outcome of [vhost_user_fs_slave_io]: it returns, or its [assert] fails,
    or the model's loop budget is used up. *)
Inductive io_outcome :=
| IoRet (ret : Z) (h : list syscall)
| IoAssert (h : list syscall)
| IoFuel.

Section DeviceModel.

(** Modelled from the spec: the number of entries of a slave message,
    [VHOST_USER_FS_SLAVE_ENTRIES] of hw/virtio/vhost-user-fs.h (not part of
    the sources at hand); "a fixed array of up to N entries". *)
Variable VHOST_USER_FS_SLAVE_ENTRIES : nat.

(** The host kernel: given the calls made so far and a call, the value the
    call returns and the [errno] it leaves. *)
Variable host_call : list syscall -> syscall -> Z * Z.

(** The guest's physical memory map. *)
Variable memory_region_find : Z -> Z -> MemoryRegionSection.

(** The bounds test shared by MAP, UNMAP and SYNC:
    [(c_offset + len) < len || (c_offset + len) > cache_size]. *)
Definition bad_offset_len (c l csize : Z) : bool :=
  (to_uint64 (c + l) <? l) || (csize <? to_uint64 (c + l)).

Definition map_prot (flags : Z) : Z :=
  Z.lor (if Z.land flags VHOST_USER_FS_FLAG_MAP_R =? 0 then 0 else PROT_READ)
        (if Z.land flags VHOST_USER_FS_FLAG_MAP_W =? 0 then 0 else PROT_WRITE).

(** The [mmap] call of MAP for entry [i]. *)
Definition map_call (fs : VHostUserFS) (sm : VhostUserFSSlaveMsg) (fd : Z)
    (i : nat) : syscall :=
  SysMmapFile (cache_host fs + sm_c_offset sm !!! i) (sm_len sm !!! i)
              (map_prot (sm_flags sm !!! i)) fd (sm_fd_offset sm !!! i).

(** The loop of [vhost_user_fs_slave_map], from entry [i] with [n] entries
    to go; returns [res]. *)
Fixpoint slave_map_loop (fs : VHostUserFS) (sm : VhostUserFSSlaveMsg)
    (fd : Z) (n i : nat) (h : list syscall) : Z * list syscall :=
  match n with
  | O => (0, h)
  | S n' =>
    if sm_len sm !!! i =? 0 then slave_map_loop fs sm fd n' (S i) h
    else if bad_offset_len (sm_c_offset sm !!! i) (sm_len sm !!! i)
                           (cache_size fs)
    then (-1, h)
    else
      let c := map_call fs sm fd i in
      let '(ret, errno) := host_call h c in
      if ret =? cache_host fs + sm_c_offset sm !!! i
      then slave_map_loop fs sm fd n' (S i) (h ++ [c])
      else (- errno, h ++ [c])
  end.

(** One turn of the loop of [vhost_user_fs_slave_unmap]. *)
Definition slave_unmap_step (fs : VHostUserFS)
    (st : VhostUserFSSlaveMsg * Z * list syscall) (i : nat)
    : VhostUserFSSlaveMsg * Z * list syscall :=
  let '(sm, res, h) := st in
  if sm_len sm !!! i =? 0 then (sm, res, h)
  else
    let sm1 :=
      if sm_len sm !!! i =? UINT64_ALL_ONES
      then {| sm_flags := sm_flags sm; sm_fd_offset := sm_fd_offset sm;
              sm_c_offset := sm_c_offset sm;
              sm_len := <[i := cache_size fs]> (sm_len sm) |}
      else sm in
    if bad_offset_len (sm_c_offset sm1 !!! i) (sm_len sm1 !!! i)
                      (cache_size fs)
    then (sm1, -1, h)
    else
      let c := SysMmapAnon (cache_host fs + sm_c_offset sm1 !!! i)
                           (sm_len sm1 !!! i) in
      let '(ptr, errno) := host_call h c in
      if ptr =? cache_host fs + sm_c_offset sm1 !!! i
      then (sm1, res, h ++ [c])
      else (sm1, - errno, h ++ [c]).

(** [vhost_user_fs_slave_unmap]: the result, and the caller's message and
    the call history as the function leaves them.  [fs] is [None] for the
    null pointer the function guards against. *)
Definition vhost_user_fs_slave_unmap (fs : option VHostUserFS)
    (sm : VhostUserFSSlaveMsg) (h : list syscall)
    : Z * VhostUserFSSlaveMsg * list syscall :=
  match fs with
  | None => (to_uint64 (-1), sm, h)
  | Some fs =>
    if cache_size fs =? 0 then
      if sm_len sm !!! 0%nat =? UINT64_ALL_ONES then (0, sm, h)
      else (to_uint64 (-1), sm, h)
    else
      let '(sm', res, h') :=
        foldl (slave_unmap_step fs) (sm, 0, h)
              (seq 0 VHOST_USER_FS_SLAVE_ENTRIES) in
      (to_uint64 res, sm', h')
  end.

(** [vhost_user_fs_slave_map]. *)
Definition vhost_user_fs_slave_map (fs : option VHostUserFS)
    (sm : VhostUserFSSlaveMsg) (fd : Z) (h : list syscall)
    : Z * VhostUserFSSlaveMsg * list syscall :=
  match fs with
  | None => (to_uint64 (-1), sm, h)
  | Some fs =>
    if cache_size fs =? 0 then (to_uint64 (-1), sm, h)
    else if fd <? 0 then (to_uint64 (-1), sm, h)
    else
      let '(res, h1) :=
        slave_map_loop fs sm fd VHOST_USER_FS_SLAVE_ENTRIES 0 h in
      if res =? 0 then (to_uint64 res, sm, h1)
      else
        (* Something went wrong, unmap them all *)
        let '(_, sm', h2) := vhost_user_fs_slave_unmap (Some fs) sm h1 in
        (to_uint64 res, sm', h2)
  end.

(** One turn of the loop of [vhost_user_fs_slave_sync]. *)
Definition slave_sync_step (fs : VHostUserFS) (sm : VhostUserFSSlaveMsg)
    (st : Z * list syscall) (i : nat) : Z * list syscall :=
  let '(res, h) := st in
  if sm_len sm !!! i =? 0 then (res, h)
  else if bad_offset_len (sm_c_offset sm !!! i) (sm_len sm !!! i)
                         (cache_size fs)
  then (-1, h)
  else
    let c := SysMsync (cache_host fs + sm_c_offset sm !!! i)
                      (sm_len sm !!! i) in
    let '(r, errno) := host_call h c in
    if r =? 0 then (res, h ++ [c]) else (- errno, h ++ [c]).

(** [vhost_user_fs_slave_sync]; it dereferences [fs] without a test. *)
Definition vhost_user_fs_slave_sync (fs : VHostUserFS)
    (sm : VhostUserFSSlaveMsg) (h : list syscall) : Z * list syscall :=
  if cache_size fs =? 0 then (to_uint64 (-1), h)
  else
    let '(res, h') :=
      foldl (slave_sync_step fs sm) (0, h)
            (seq 0 VHOST_USER_FS_SLAVE_ENTRIES) in
    (to_uint64 res, h').

(** The inner [while (len && !res)] loop of [vhost_user_fs_slave_io] for
    one entry.  [gpa] and the file offset are those of the entry on every
    turn: the loop body updates [done] and [len] only.  The result is
    [inl (res, done, h)] when the loop ends and [inr h] when the [assert]
    on the write flag fails. *)
Fixpoint slave_io_while (fuel : nat) (flags gpa fd_off : Z) (fd : Z)
    (len res done : Z) (h : list syscall)
    : option (Z * Z * list syscall + list syscall) :=
  if (len =? 0) || negb (res =? 0) then Some (inl (res, done, h))
  else
    match fuel with
    | O => None
    | S fuel' =>
      let mrs := memory_region_find gpa len in
      if mrs_size mrs =? 0 then Some (inl (- EFAULT, done, h))
      else if negb (Z.land flags VHOST_USER_FS_FLAG_MAP_R =? 0) then
        (* Read from file into RAM *)
        if mrs_readonly mrs then Some (inl (- EFAULT, done, h))
        else
          let c := SysPread fd (mrs_hostptr mrs) (mrs_size mrs) fd_off in
          let '(transferred, errno) := host_call h c in
          if transferred <? 0 then Some (inl (- errno, done, h ++ [c]))
          else if transferred =? 0 then Some (inl (res, done, h ++ [c]))
          else slave_io_while fuel' flags gpa fd_off fd
                 (to_uint64 (len - transferred)) res
                 (to_uint64 (done + transferred)) (h ++ [c])
      else
        (* Write into file from RAM *)
        if Z.land flags VHOST_USER_FS_FLAG_MAP_W =? 0 then Some (inr h)
        else
          let c := SysPwrite fd (mrs_hostptr mrs) (mrs_size mrs) fd_off in
          let '(transferred, errno) := host_call h c in
          if transferred <? 0 then Some (inl (- errno, done, h ++ [c]))
          else if transferred =? 0 then Some (inl (res, done, h ++ [c]))
          else slave_io_while fuel' flags gpa fd_off fd
                 (to_uint64 (len - transferred)) res
                 (to_uint64 (done + transferred)) (h ++ [c])
    end.

(** The outer [for] loop of [vhost_user_fs_slave_io], from entry [i] with
    [n] entries to go. *)
Fixpoint slave_io_loop (fuel : nat) (sm : VhostUserFSSlaveMsg) (fd : Z)
    (n i : nat) (res done : Z) (h : list syscall)
    : option (Z * Z * list syscall + list syscall) :=
  match n with
  | O => Some (inl (res, done, h))
  | S n' =>
    if negb (res =? 0) then Some (inl (res, done, h))
    else if sm_len sm !!! i =? 0
    then slave_io_loop fuel sm fd n' (S i) res done h
    else
      match slave_io_while fuel (sm_flags sm !!! i) (sm_c_offset sm !!! i)
              (sm_fd_offset sm !!! i) fd (sm_len sm !!! i) res done h with
      | Some (inl (res', done', h')) =>
          slave_io_loop fuel sm fd n' (S i) res' done' h'
      | other => other
      end
  end.

(** [vhost_user_fs_slave_io].  [fuel] bounds the turns of each inner
    loop. *)
Definition vhost_user_fs_slave_io (fuel : nat) (fs : option VHostUserFS)
    (sm : VhostUserFSSlaveMsg) (fd : Z) (h : list syscall) : io_outcome :=
  match fs with
  | None => IoRet (to_uint64 (-1)) h
  | Some _ =>
    if fd <? 0 then IoRet (to_uint64 (-1)) h
    else
      match slave_io_loop fuel sm fd VHOST_USER_FS_SLAVE_ENTRIES 0 0 0 h with
      | None => IoFuel
      | Some (inr h') => IoAssert h'
      | Some (inl (res, done, h')) =>
          let h'' := h' ++ [SysClose fd] in
          if res <? 0 then IoRet (to_uint64 res) h''
          else IoRet (to_uint64 done) h''
      end
  end.

End DeviceModel.

(** *** Vocabulary of the device-side statements *)

(** What UNMAP does to a length: all-ones stands for the whole cache. *)
Definition whole_cache_len (fs : VHostUserFS) (l : Z) : Z :=
  if l =? UINT64_ALL_ONES then cache_size fs else l.

(** A message with the lengths as UNMAP leaves them. *)
Definition rewritten_msg (fs : VHostUserFS) (sm : VhostUserFSSlaveMsg)
    : VhostUserFSSlaveMsg :=
  {| sm_flags := sm_flags sm; sm_fd_offset := sm_fd_offset sm;
     sm_c_offset := sm_c_offset sm;
     sm_len := whole_cache_len fs <$> sm_len sm |}.

(** The anonymous mapping UNMAP installs for entry [i] of a message: none for
    an empty entry or one that reaches outside the cache. *)
Definition unmap_call (fs : VHostUserFS) (sm : VhostUserFSSlaveMsg)
    (i : nat) : list syscall :=
  if sm_len sm !!! i =? 0 then []
  else if bad_offset_len (sm_c_offset sm !!! i) (sm_len sm !!! i)
                         (cache_size fs) then []
  else [SysMmapAnon (cache_host fs + sm_c_offset sm !!! i) (sm_len sm !!! i)].

(** The file mappings MAP has asked for once it reaches entry [k] without a
    failure: one for each non-empty entry before [k]. *)
Definition map_calls (fs : VHostUserFS) (sm : VhostUserFSSlaveMsg) (fd : Z)
    (k : nat) : list syscall :=
  flat_map (fun j => if sm_len sm !!! j =? 0 then []
                     else [map_call fs sm fd j]) (seq 0 k).

(** A slave message as the wire format has it: [n] entries in each array. *)
Definition msg_wf (n : nat) (sm : VhostUserFSSlaveMsg) : Prop :=
  length (sm_flags sm) = n /\ length (sm_fd_offset sm) = n /\
  length (sm_c_offset sm) = n /\ length (sm_len sm) = n.

(** The address a [MAP_FIXED] mapping asks for. *)
Definition fixed_mmap_addr (c : syscall) : option Z :=
  match c with
  | SysMmapFile addr _ _ _ _ => Some addr
  | SysMmapAnon addr _ => Some addr
  | _ => None
  end.

(** An [mmap] that does not return the address asked for has failed, and
    leaves a positive [errno], as POSIX has it. *)
Definition mmap_sets_errno (host_call : list syscall -> syscall -> Z * Z)
    : Prop :=
  forall h c addr, fixed_mmap_addr c = Some addr ->
    (host_call h c).1 <> addr -> 0 < (host_call h c).2 < 2 ^ 31.


(** The message the daemon builds for a single range:
    [VhostUserFSSlaveMsg msg = { 0 }] with entry 0 filled in. *)
Definition single_entry_msg (n : nat) (flags fd_off c_off len : Z)
    : VhostUserFSSlaveMsg :=
  {| sm_flags := flags :: replicate (n - 1) 0;
     sm_fd_offset := fd_off :: replicate (n - 1) 0;
     sm_c_offset := c_off :: replicate (n - 1) 0;
     sm_len := len :: replicate (n - 1) 0 |}.

(** A host on which every [mmap] and [msync] succeeds and every [pread] and
    [pwrite] moves all the bytes asked for. *)
Definition obliging_host (h : list syscall) (c : syscall) : Z * Z :=
  match c with
  | SysMmapFile addr _ _ _ _ => (addr, 0)
  | SysMmapAnon addr _ => (addr, 0)
  | SysMsync _ _ => (0, 0)
  | SysPread _ _ size _ => (size, 0)
  | SysPwrite _ _ size _ => (size, 0)
  | SysClose _ => (0, 0)
  end.

(** A host on which every call fails with [ENOMEM]. *)
Definition failing_host (h : list syscall) (c : syscall) : Z * Z := (-1, 12).

(** Guest memory that is one writable region, mapped at host address
    [base]: every range resolves whole. *)
Definition flat_ram (base : Z) (gpa len : Z) : MemoryRegionSection :=
  {| mrs_size := len; mrs_readonly := false; mrs_hostptr := base + gpa |}.

(** A host that refuses to map a file at an offset that is not a multiple of
    the page size ([EINVAL]) and obliges otherwise. *)
Definition page_aligned_host (h : list syscall) (c : syscall) : Z * Z :=
  match c with
  | SysMmapFile addr _ _ _ fd_off =>
      if fd_off mod 4096 =? 0 then (addr, 0) else (-1, 22)
  | _ => obliging_host h c
  end.

(** A host whose file holds [file_size] bytes: a [pread] at [off] moves what
    the file has from there, up to the size asked for. *)
Definition file_host (file_size : Z) (h : list syscall) (c : syscall) : Z * Z :=
  match c with
  | SysPread _ _ size off => (Z.max 0 (Z.min size (file_size - off)), 0)
  | _ => obliging_host h c
  end.

(** Guest memory made of two writable regions that meet at [boundary]: a
    range that crosses the boundary resolves to its part below it. *)
Definition split_ram (boundary : Z) (gpa len : Z) : MemoryRegionSection :=
  {| mrs_size := if gpa <? boundary then Z.min len (boundary - gpa) else len;
     mrs_readonly := false;
     mrs_hostptr := gpa |}.

(** ** The daemon side: virtiofsd's virtio glue *)

(** *** Memory and scatter/gather vectors *)

(** Memory, the guest's and the daemon's own, by address. *)
Definition mem : Type := Z -> Byte.byte.

(** [struct iovec]. *)
Record iovec := { iov_base : Z; iov_len : Z }.

(** One byte stored. *)
Definition store (m : mem) (a : Z) (b : Byte.byte) : mem :=
  fun x => if x =? a then b else m x.

(** Bytes stored one after the other at the addresses listed. *)
Fixpoint store_bytes (m : mem) (addrs : list Z) (vals : list Byte.byte) : mem :=
  match addrs, vals with
  | a :: addrs', v :: vals' => store_bytes (store m a v) addrs' vals'
  | _, _ => m
  end.

(** Reading a vector past the end of its array is undefined in C; the model
    reads an empty vector at address 0 there. *)
#[global] Instance iovec_inhabited : Inhabited iovec :=
  populate {| iov_base := 0; iov_len := 0 |}.

(** [memcpy(dst, src, n)].  The source bytes are read before any is
    written, so overlapping ranges, undefined in C, behave as [memmove]. *)
Definition memcpy (m : mem) (dst src n : Z) : mem :=
  store_bytes m (seqZ dst n) (m <$> seqZ src n).

(** Modelled from the spec: [iov_size] of util/iov.c, which is not part of
    the sources at hand, the "total length" of an iovec array; the sum is a
    [size_t]. *)
Definition iov_size (iov : list iovec) : Z :=
  foldl (fun acc v => to_uint64 (acc + iov_len v)) 0 iov.

(** Why a run stops short of returning. *)
Inductive check :=
| ChkBufsize          (* assert(se->bufsize > sizeof(struct fuse_in_header)) *)
| ChkInHeader         (* "elem %d too short for in_header", assert(0) *)
| ChkTooLarge         (* "elem %d too large for buffer", assert(0) *)
| ChkCount            (* assert(count >= 1) *)
| ChkIov0             (* assert(iov[0].iov_len >= sizeof(struct fuse_out_header)) *)
| ChkNotifyUnique     (* assert(!out->unique) *)
| ChkChannel          (* assert(ch) *)
| ChkUnique           (* assert(out->unique) *)
| ChkReplySent        (* assert(!req->reply_sent) *)
| ChkSrcCount         (* assert(src_count) *)
| ChkDstCount         (* assert(dst_count) *)
| ChkDstOffset.       (* assert(dst_offset <= dst_iov[0].iov_len) *)

Inductive stop :=
| AssertFailed (c : check)   (* abort() *)
| Exited                     (* fv_panic: exit(EXIT_FAILURE) *)
| NullDeref                  (* a null pointer is dereferenced *)
| Deadlock                   (* blocked on a mutex that is never released *)
| OutOfFuel.                 (* the model's loop budget is used up *)

(** Result of a computation on memory alone. *)
Inductive copied :=
| Copied (m : mem)
| CopyStop (why : stop).

(** [copy_from_iov]: gather the vectors into a buffer at [dest].  The
    [out_num] vectors the C function is given are the list. *)
Fixpoint copy_from_iov (m : mem) (dest : Z) (out_sg : list iovec) : mem :=
  match out_sg with
  | [] => m
  | v :: out_sg' =>
      copy_from_iov (memcpy m dest (iov_base v) (iov_len v))
                    (dest + iov_len v) out_sg'
  end.

(** The inner loop of [copy_iov], which copies what is left of one source
    vector into the destination vectors.  [dst_iov] is the destination array
    from the current vector on.  None of the [size_t] operations can wrap:
    [dst_len <= src_len <= to_copy] and [dst_offset + dst_len] is at most
    the vector's length.  Returns the memory, [to_copy], the destination
    array and [dst_offset] as the loop leaves them. *)
Fixpoint copy_iov_inner (fuel : nat) (m : mem) (src_base src_offset src_len : Z)
    (to_copy : Z) (dst_iov : list iovec) (dst_offset : Z)
    : stop + (mem * Z * list iovec * Z) :=
  if src_len =? 0 then inr (m, to_copy, dst_iov, dst_offset)
  else
    match fuel with
    | O => inl OutOfFuel
    | S fuel' =>
      match dst_iov with
      | [] => inl (AssertFailed ChkDstCount)
      | d :: dst_iov' =>
        let dst_len := iov_len d - dst_offset in
        let dst_len := if dst_len >? src_len then src_len else dst_len in
        let m' := memcpy m (iov_base d + dst_offset)
                         (src_base + src_offset) dst_len in
        let src_len' := src_len - dst_len in
        let to_copy' := to_copy - dst_len in
        let src_offset' := src_offset + dst_len in
        let dst_offset' := dst_offset + dst_len in
        if iov_len d <? dst_offset' then inl (AssertFailed ChkDstOffset)
        else if dst_offset' =? iov_len d
        then copy_iov_inner fuel' m' src_base src_offset' src_len' to_copy'
                            dst_iov' 0
        else copy_iov_inner fuel' m' src_base src_offset' src_len' to_copy'
                            dst_iov dst_offset'
      end
    end.

(** The outer loop of [copy_iov], one turn for each source vector.  Each
    turn of the inner loop but the last moves on to the next destination
    vector, so one turn more than there are destination vectors is budget
    enough for it. *)
Fixpoint copy_iov_outer (m : mem) (src_iov dst_iov : list iovec)
    (dst_offset to_copy : Z) : copied :=
  if to_copy =? 0 then Copied m
  else
    match src_iov with
    | [] => CopyStop (AssertFailed ChkSrcCount)
    | s :: src_iov' =>
      let src_len := iov_len s in
      let src_len := if src_len >? to_copy then to_copy else src_len in
      match copy_iov_inner (S (length dst_iov)) m (iov_base s) 0 src_len
                           to_copy dst_iov dst_offset with
      | inl why => CopyStop why
      | inr (m', to_copy', dst_iov', dst_offset') =>
          copy_iov_outer m' src_iov' dst_iov' dst_offset' to_copy'
      end
    end.

(** [copy_iov(src_iov, src_count, dst_iov, dst_count, to_copy)]. *)
Definition copy_iov (m : mem) (src_iov dst_iov : list iovec) (to_copy : Z)
    : copied :=
  copy_iov_outer m src_iov dst_iov 0 to_copy.

(** *** Vocabulary of the copy statements *)

(** The addresses of the bytes a vector array describes, in order. *)
Definition iov_addrs (iov : list iovec) : list Z :=
  flat_map (fun v => seqZ (iov_base v) (iov_len v)) iov.

(** The first [n] bytes an array describes, as memory holds them. *)
Definition iov_bytes (m : mem) (iov : list iovec) (n : Z) : list Byte.byte :=
  m <$> take (Z.to_nat n) (iov_addrs iov).

(** The number of bytes an array describes. *)
Definition iov_total (iov : list iovec) : Z :=
  foldr (fun v acc => iov_len v + acc) 0 iov.

(** Every vector has a length that is a [size_t]. *)
Definition iov_wf (iov : list iovec) : Prop :=
  Forall (fun v => 0 <= iov_len v < UINT64_MOD) iov.

(** The destination addresses still to be written when [copy_iov] stands at
    offset [dst_offset] of the first vector of [dst_iov]. *)
Definition dst_rest (dst_iov : list iovec) (dst_offset : Z) : list Z :=
  match dst_iov with
  | [] => []
  | d :: dst_iov' =>
      seqZ (iov_base d + dst_offset) (iov_len d - dst_offset)
        ++ iov_addrs dst_iov'
  end.

(** The positions [copy_iov] can stand at: inside the first vector, or at
    the start of an empty one, or past the end of the array. *)
Definition dst_ok (dst_iov : list iovec) (dst_offset : Z) : Prop :=
  match dst_iov with
  | [] => dst_offset = 0
  | d :: _ => 0 <= dst_offset /\ (dst_offset < iov_len d \/ dst_offset = 0)
  end.

(** No address of the one list is an address of the other. *)
Definition disjoint_addrs (xs ys : list Z) : Prop :=
  forall a, a ∈ xs -> a ∉ ys.

(** A memory for the examples: the byte at an address is the address
    modulo 256. *)
Definition byte_of_Z (z : Z) : Byte.byte :=
  default Byte.x00 (Byte.of_N (Z.to_N (z mod 256))).

Definition Z_of_byte (b : Byte.byte) : Z := Z.of_N (Byte.to_N b).

Definition pattern_mem : mem := byte_of_Z.

(** *** The FUSE kernel interface *)

(** Modelled from the spec: fuse_kernel.h and fuse_common.h, which declare
    the FUSE message headers, the opcodes and the buffer flags, are not part
    of the sources at hand.  What the glue code uses of them is taken as an
    interface: the sizes of four structures, two opcodes, one buffer flag,
    and the three header fields it reads or writes through a pointer (the
    opcode of a [fuse_in_header], the [unique] of a [fuse_out_header], the
    [len] of a [fuse_out_header]). *)
Class FuseAbi := {
  sizeof_fuse_in_header : Z;
  sizeof_fuse_out_header : Z;
  sizeof_fuse_write_in : Z;
  sizeof_fuse_read_in : Z;
  FUSE_READ : Z;
  FUSE_WRITE : Z;
  FUSE_BUF_PHYS_ADDR : Z;
  in_header_opcode : mem -> Z -> Z;
  out_header_unique : mem -> Z -> Z;
  out_header_set_len : mem -> Z -> Z -> mem
}.

(** What the daemon's reply path with a file payload asks of its host, taken
    as an interface as well: [preadv], which for a file descriptor, an array
    of vectors and a file position gives the value it returns, the [errno]
    it leaves and the bytes it reads (stored at the first addresses of the
    vectors); the IO request of the slave channel, [fuse_virtio_io], which
    hands the message and the file descriptor to the device and gives the
    device's answer as an [int64_t]; and the number of entries of a slave
    message.  [read_turns] is the budget of the model for the turns of the
    read loop. *)
Class DaemonHost := {
  slave_entries : nat;
  host_preadv : Z -> list iovec -> Z -> Z * Z * list Byte.byte;
  host_io_request : VhostUserFSSlaveMsg -> Z -> Z;
  read_turns : nat
}.

(** Little-endian reads and writes of memory. *)
Fixpoint load_le (m : mem) (a : Z) (n : nat) : Z :=
  match n with
  | O => 0
  | S n' => Z_of_byte (m a) + 256 * load_le m (a + 1) n'
  end.

Fixpoint store_le (m : mem) (a : Z) (n : nat) (v : Z) : mem :=
  match n with
  | O => m
  | S n' => store_le (store m a (byte_of_Z v)) (a + 1) n' (v / 256)
  end.

(** The interface as Linux on a little-endian host has it: a 40-byte
    [fuse_in_header] with the opcode in bytes 4 to 7, a 16-byte
    [fuse_out_header] with [len] in bytes 0 to 3 and [unique] in bytes 8 to
    15. *)
Definition linux_fuse_abi : FuseAbi := {|
  sizeof_fuse_in_header := 40;
  sizeof_fuse_out_header := 16;
  sizeof_fuse_write_in := 40;
  sizeof_fuse_read_in := 40;
  FUSE_READ := 15;
  FUSE_WRITE := 16;
  FUSE_BUF_PHYS_ADDR := 16;
  in_header_opcode := fun m p => load_le m (p + 4) 4;
  out_header_unique := fun m p => load_le m (p + 8) 8;
  out_header_set_len := fun m p v => store_le m p 4 (to_uint32 v)
|}.

(** *** Virtqueues, requests and the session *)

(** [VuVirtqElement]: [out_num] and [in_num] are the lengths of the two
    arrays. *)
Record VuVirtqElement := {
  elem_index : Z;
  out_sg : list iovec;
  in_sg : list iovec
}.

(** [FVRequest].  Of the channel [ch] the queue it is bound to is kept, as
    the index of its [fv_QueueInfo]. *)
Record FVRequest := {
  elem : VuVirtqElement;
  ch_qi : nat;
  bad_in_num : Z;
  bad_out_num : Z;
  reply_sent : bool
}.

(** [struct fuse_buf], without the [fd] field, which the glue code never
    sets, and [struct fuse_bufvec]. *)
Record fuse_buf := {
  buf_size : Z;
  buf_flags : Z;
  buf_mem : Z;
  buf_pos : Z
}.

Record fuse_bufvec := {
  bv_count : Z;
  bv_idx : Z;
  bv_off : Z;
  bv_buf : list fuse_buf
}.

(** The fields of [struct fuse_session] and of the [fv_VuDev] behind it that
    the glue code reads: [se_qi i] is the queue index held by
    [virtio_dev->qi[i]], or [None] for a null slot. *)
Record fuse_session := {
  se_bufsize : Z;
  se_notify_enabled : bool;
  se_qi : nat -> option nat
}.

(** What a thread does to the queues and the locks. *)
Inductive event :=
| EvRdLock                              (* pthread_rwlock_rdlock(&vu_dispatch_rwlock) *)
| EvRwUnlock                            (* pthread_rwlock_unlock(&vu_dispatch_rwlock) *)
| EvLock (q : nat)                      (* pthread_mutex_lock(&qi->vq_lock) *)
| EvUnlock (q : nat)                    (* pthread_mutex_unlock(&qi->vq_lock) *)
| EvPop (q : nat) (idx : Z)             (* vu_queue_pop gave element idx *)
| EvPush (q : nat) (idx : Z) (len : Z)  (* vu_queue_push(dev, q, elem, len) *)
| EvNotify (q : nat)                    (* vu_queue_notify(dev, q) *)
| EvFree (idx : Z).                     (* free(req) *)

(** The state a worker thread runs in: memory, the elements the guest has
    made available on each queue (with the counts of unmappable vectors
    [vu_queue_pop] reports for them), the queue mutexes that are held,
    what it has done so far, and the next address [malloc] gives. *)
Record world := {
  w_mem : mem;
  w_avail : nat -> list (VuVirtqElement * Z * Z);
  w_held : list nat;
  w_trace : list event;
  w_heap : Z
}.

Definition set_mem (m : mem) (w : world) : world :=
  {| w_mem := m; w_avail := w_avail w; w_held := w_held w;
     w_trace := w_trace w; w_heap := w_heap w |}.

Definition set_avail (av : nat -> list (VuVirtqElement * Z * Z)) (w : world)
    : world :=
  {| w_mem := w_mem w; w_avail := av; w_held := w_held w;
     w_trace := w_trace w; w_heap := w_heap w |}.

Definition set_held (held : list nat) (w : world) : world :=
  {| w_mem := w_mem w; w_avail := w_avail w; w_held := held;
     w_trace := w_trace w; w_heap := w_heap w |}.

Definition add_event (e : event) (w : world) : world :=
  {| w_mem := w_mem w; w_avail := w_avail w; w_held := w_held w;
     w_trace := w_trace w ++ [e]; w_heap := w_heap w |}.

Definition set_heap (p : Z) (w : world) : world :=
  {| w_mem := w_mem w; w_avail := w_avail w; w_held := w_held w;
     w_trace := w_trace w; w_heap := p |}.

(** *** A monad of state and stops *)

Inductive result (A : Type) :=
| Ok (a : A) (w : world)
| Stop (why : stop) (w : world).
Arguments Ok {A} a w.
Arguments Stop {A} why w.

Definition M (A : Type) : Type := world -> result A.

Definition ret {A} (a : A) : M A := fun w => Ok a w.

Definition bind {A B} (m : M A) (k : A -> M B) : M B :=
  fun w => match m w with
           | Ok a w' => k a w'
           | Stop why w' => Stop why w'
           end.

Notation "'do' x <- m ; k" := (bind m (fun x => k))
  (at level 10, x name, m at level 100, k at level 200).
Notation "'do' ' p <- m ; k" := (bind m (fun p => k))
  (at level 10, p pattern, m at level 100, k at level 200).
Notation "'run' m ; k" := (bind m (fun _ => k))
  (at level 10, m at level 100, k at level 200).

Definition stop_with {A} (why : stop) : M A := fun w => Stop why w.

Definition assert_that (b : bool) (c : check) : M unit :=
  if b then ret tt else stop_with (AssertFailed c).

Definition get_mem : M mem := fun w => Ok (w_mem w) w.
Definition put_mem (m : mem) : M unit := fun w => Ok tt (set_mem m w).
Definition log_event (e : event) : M unit := fun w => Ok tt (add_event e w).

(** [malloc]: the allocator hands out fresh addresses in increasing order
    and does not fail. *)
Definition malloc (size : Z) : M Z :=
  fun w => Ok (w_heap w) (set_heap (w_heap w + size) w).

(** The read side of [vu_dispatch_rwlock]; no writer is part of a worker's
    run, so taking it never blocks. *)
Definition pthread_rwlock_rdlock : M unit := log_event EvRdLock.
Definition pthread_rwlock_unlock : M unit := log_event EvRwUnlock.

(** A queue's [vq_lock], a default mutex.  The only code that takes it in a
    run is the code modelled here, so a mutex that is held when it is asked
    for is one that an earlier call has returned without releasing: the
    caller blocks for ever. *)
Definition pthread_mutex_lock (q : nat) : M unit :=
  fun w => if existsb (Nat.eqb q) (w_held w) then Stop Deadlock w
           else Ok tt (add_event (EvLock q) (set_held (q :: w_held w) w)).

Definition pthread_mutex_unlock (q : nat) : M unit :=
  fun w => Ok tt (add_event (EvUnlock q)
                    (set_held (filter (fun x => x <> q) (w_held w)) w)).

(** Modelled from the spec: [vu_queue_pop], [vu_queue_push] and
    [vu_queue_notify] of contrib/libvhost-user, which is not part of the
    sources at hand, "a provider of dispatch, pop, push, notify": pop takes
    the next available element of the queue, or gives a null pointer when
    there is none; push hands an element back with the length used. *)
Definition vu_queue_pop (q : nat) : M (option (VuVirtqElement * Z * Z)) :=
  fun w => match w_avail w q with
           | [] => Ok None w
           | e :: rest =>
               Ok (Some e)
                  (add_event (EvPop q (elem_index e.1.1))
                     (set_avail (fun q' => if Nat.eqb q' q then rest
                                           else w_avail w q') w))
           end.

Definition vu_queue_push (q : nat) (e : VuVirtqElement) (len : Z) : M unit :=
  log_event (EvPush q (elem_index e) len).

Definition vu_queue_notify (q : nat) : M unit := log_event (EvNotify q).

(** [copy_iov] on the memory of the state. *)
Definition copy_iov_st (src_iov dst_iov : list iovec) (to_copy : Z) : M unit :=
  fun w => match copy_iov (w_mem w) src_iov dst_iov to_copy with
           | Copied m' => Ok tt (set_mem m' w)
           | CopyStop why => Stop why w
           end.

Section DaemonModel.

Context {abi : FuseAbi} {host : DaemonHost}.

(** [virtio_send_notify_msg].  On the path that finds the queue empty the
    function returns with the read lock and the queue mutex taken; on the
    paths that find the element too small it frees the request it popped. *)
Definition virtio_send_notify_msg (se : fuse_session) (iov : list iovec)
    : M Z :=
  let out := iov_base (iov !!! 0%nat) in
  let tosend_len := iov_size iov in
  do m <- get_mem;
  (* Notifications have unique == 0 *)
  run assert_that (out_header_unique m out =? 0) ChkNotifyUnique;
  if negb (se_notify_enabled se) then ret (- EOPNOTSUPP)
  else
    (* If notifications are enabled, queue index 1 is notification queue *)
    match se_qi se 1 with
    | None => stop_with NullDeref
    | Some q =>
      run pthread_rwlock_rdlock;
      run pthread_mutex_lock q;
      (* Pop an element from queue *)
      do req <- vu_queue_pop q;
      match req with
      | None => ret (- ENOSPC)
      | Some (e, _, _) =>
        run pthread_mutex_unlock q;
        run pthread_rwlock_unlock;
        run put_mem (out_header_set_len m out tosend_len);
        let in_len := iov_size (in_sg e) in
        if in_len <? sizeof_fuse_out_header then
          run log_event (EvFree (elem_index e)); ret (- E2BIG)
        else if in_len <? tosend_len then
          run log_event (EvFree (elem_index e)); ret (- E2BIG)
        else
          (* First copy the header data from iov->in_sg *)
          run copy_iov_st iov (in_sg e) tosend_len;
          run pthread_rwlock_rdlock;
          run pthread_mutex_lock q;
          run vu_queue_push q e tosend_len;
          run vu_queue_notify q;
          run pthread_mutex_unlock q;
          run pthread_rwlock_unlock;
          run log_event (EvFree (elem_index e));
          ret 0
      end
    end.

(** [virtio_send_msg].  [ch] is the request that holds the channel, [None]
    for a null channel; the request is handed back as the call leaves it. *)
Definition virtio_send_msg (se : fuse_session) (ch : option FVRequest)
    (iov : list iovec) : M (Z * option FVRequest) :=
  run assert_that (1 <=? Z.of_nat (length iov)) ChkCount;
  run assert_that (sizeof_fuse_out_header <=? iov_len (iov !!! 0%nat)) ChkIov0;
  let out := iov_base (iov !!! 0%nat) in
  let tosend_len := iov_size iov in
  do m <- get_mem;
  (* unique == 0 is notification *)
  if out_header_unique m out =? 0 then
    do r <- virtio_send_notify_msg se iov; ret (r, ch)
  else
    match ch with
    | None => stop_with (AssertFailed ChkChannel)
    | Some req =>
      let e := elem req in
      let q := ch_qi req in
      run assert_that (negb (reply_sent req)) ChkReplySent;
      (* The 'in' part of the elem is to qemu *)
      let in_len := iov_size (in_sg e) in
      if in_len <? sizeof_fuse_out_header then ret (- E2BIG, Some req)
      else if in_len <? tosend_len then ret (- E2BIG, Some req)
      else
        run copy_iov_st iov (in_sg e) tosend_len;
        run pthread_rwlock_rdlock;
        run pthread_mutex_lock q;
        run vu_queue_push q e tosend_len;
        run vu_queue_notify q;
        run pthread_mutex_unlock q;
        run pthread_rwlock_unlock;
        ret (0, Some {| elem := e; ch_qi := q; bad_in_num := bad_in_num req;
                        bad_out_num := bad_out_num req; reply_sent := true |})
    end.

(** The loop of [virtio_send_data_iov] that skips [skip_size] bytes of the
    copy of the in vectors: whole vectors are dropped, and a vector that is
    longer than what is left to skip is cut at its start, in which case
    [skip_size] keeps its value.  Returns [skip_size], the array and the
    count of writable vectors as the loop leaves them. *)
Fixpoint skip_in_sg (skip_size : Z) (in_sg_ptr : list iovec)
    (in_sg_cpy_count : Z) : Z * list iovec * Z :=
  if (skip_size =? 0) || (in_sg_cpy_count =? 0)
  then (skip_size, in_sg_ptr, in_sg_cpy_count)
  else
    match in_sg_ptr with
    | [] => (skip_size, in_sg_ptr, in_sg_cpy_count)
    | v :: rest =>
        if iov_len v <=? skip_size
        then skip_in_sg (skip_size - iov_len v) rest (in_sg_cpy_count - 1)
        else (skip_size,
              {| iov_base := iov_base v + skip_size;
                 iov_len := iov_len v - skip_size |} :: rest,
              in_sg_cpy_count)
    end.

(** The [do ... while (in_sg_left)] loop of [virtio_send_data_iov], which
    reads the file into the writable in vectors.  [ret] is an [int]: it
    holds what [preadv] returns cut to 32 bits, and is converted to [size_t]
    where it meets one.  The result is [inl ret] for the paths that leave
    for the label [err] with [ret], and [inr] of the array, the file
    position and [len] when the loop ends. *)
Fixpoint data_iov_read (fuel : nat) (fd : Z) (skip_size : Z)
    (in_sg_ptr : list iovec) (in_sg_cpy_count : Z) (pos len : Z)
    : M (Z + list iovec * Z * Z) :=
  match fuel with
  | O => stop_with OutOfFuel
  | S fuel' =>
    let '(skip_size1, ptr1, count1) :=
      skip_in_sg skip_size in_sg_ptr in_sg_cpy_count in
    let writable := take (Z.to_nat count1) ptr1 in
    let in_sg_left := iov_size writable in
    let '(nread, errno, data) := host_preadv fd writable pos in
    let r := to_int32 nread in
    do m <- get_mem;
    run put_mem (store_bytes m (take (Z.to_nat nread) (iov_addrs writable))
                             data);
    if r =? -1 then ret (inl errno)
    else if (to_uint64 r <? len) && negb (r =? 0) then
      (* Skip over this much next time around; lets do another read *)
      if in_sg_left =? 0
      then ret (inr (ptr1, pos + r, to_uint64 (len - r)))
      else data_iov_read fuel' fd (to_uint64 r) ptr1 count1 (pos + r)
                         (to_uint64 (len - r))
    else if r =? 0 then
      (* EOF case? *)
      ret (inr (ptr1, pos, len))
    else if negb (to_uint64 r =? len) then ret (inl EIO)
    else
      if to_uint64 (in_sg_left - r) =? 0
      then ret (inr (ptr1, pos, to_uint64 (len - r)))
      else data_iov_read fuel' fd skip_size1 ptr1 count1 pos
                         (to_uint64 (len - r))
  end.

(** The [while (len && bad_in_num)] loop of [virtio_send_data_iov], which
    asks the device to read the file into the unmappable in vectors, one
    request for each.  The result is [inl ret] for the path that leaves for
    the label [err], [ret] being the [int64_t] answer cut to an [int], and
    [inr len] when the loop ends. *)
Fixpoint data_iov_unmappable (bad_in_num : nat) (fd : Z)
    (in_sg_ptr : list iovec) (pos len : Z) : Z + Z :=
  if len =? 0 then inr len
  else
    match bad_in_num with
    | O => inr len
    | S bad' =>
      let v := in_sg_ptr !!! 0%nat in
      let msg_len := if len <? iov_len v then len else iov_len v in
      let msg := single_entry_msg slave_entries VHOST_USER_FS_FLAG_MAP_R
                                  pos (iov_base v) msg_len in
      let req_res := host_io_request msg fd in
      if 0 <? req_res then
        data_iov_unmappable bad' fd (drop 1 in_sg_ptr) (pos + msg_len)
                            (to_uint64 (len - msg_len))
      else if req_res =? 0 then inr len
      else inl (to_int32 req_res)
    end.

(** [virtio_send_data_iov]: the reply whose payload is read from a file,
    [buf->buf[0]] being the file descriptor [fd] at position [pos].  [req]
    is the request that holds the channel; it is handed back as the call
    leaves it.  At the label [err] the request counts as replied to when
    [ret] is 0. *)
Definition virtio_send_data_iov (se : fuse_session) (req : FVRequest)
    (iov : list iovec) (fd pos len : Z) : M (Z * FVRequest) :=
  let e := elem req in
  let q := ch_qi req in
  let at_err (r : Z) : M (Z * FVRequest) :=
    ret (r, if r =? 0
            then {| elem := e; ch_qi := q; bad_in_num := bad_in_num req;
                    bad_out_num := bad_out_num req; reply_sent := true |}
            else req) in
  run assert_that (1 <=? Z.of_nat (length iov)) ChkCount;
  run assert_that (sizeof_fuse_out_header <=? iov_len (iov !!! 0%nat)) ChkIov0;
  let out := iov_base (iov !!! 0%nat) in
  let iov_len_total := iov_size iov in
  let tosend_len := to_uint64 (iov_len_total + len) in
  do m <- get_mem;
  run put_mem (out_header_set_len m out tosend_len);
  (* unique == 0 is notification which we don't support *)
  do m <- get_mem;
  run assert_that (negb (out_header_unique m out =? 0)) ChkUnique;
  run assert_that (negb (reply_sent req)) ChkReplySent;
  (* The 'in' part of the elem is to qemu *)
  let in_num := Z.of_nat (length (in_sg e)) in
  let in_len := iov_size (in_sg e) in
  let in_len_writeable :=
    iov_size (take (Z.to_nat (to_uint32 (in_num - bad_in_num req))) (in_sg e)) in
  if in_len_writeable <? sizeof_fuse_out_header then at_err (- E2BIG)
  else if in_len <? tosend_len then at_err (- E2BIG)
  else
    (* First copy the header data from iov->in_sg *)
    run copy_iov_st iov (in_sg e) iov_len_total;
    (* skip over parts of in_sg that contained the header iov *)
    do r <- data_iov_read read_turns fd iov_len_total (in_sg e)
                          (to_int32 (in_num - bad_in_num req)) pos len;
    match r with
    | inl err => at_err err
    | inr (in_sg_ptr, pos', len') =>
      match data_iov_unmappable (Z.to_nat (bad_in_num req)) fd in_sg_ptr
                                pos' len' with
      | inl err => at_err err
      | inr len'' =>
        (* Need to fix out->len on EOF *)
        let tosend_len' :=
          if len'' =? 0 then tosend_len else to_uint64 (tosend_len - len'') in
        run (if len'' =? 0 then ret tt
             else
               do m <- get_mem;
               put_mem (out_header_set_len m (iov_base (in_sg e !!! 0%nat))
                                           tosend_len'));
        run pthread_rwlock_rdlock;
        run pthread_mutex_lock q;
        run vu_queue_push q e tosend_len';
        run vu_queue_notify q;
        run pthread_mutex_unlock q;
        run pthread_rwlock_unlock;
        at_err 0
      end
    end.

(** Modelled from the spec: [fuse_session_process_buf_int], the FUSE session
    proper, which is not part of the sources at hand, "an opaque
    [session.process(buffer, channel)] call" that "will have called into the
    reply paths".  What a session does with a request is a tree: it stores
    to and loads from memory, it sends messages with [virtio_send_msg], on
    the request's channel or with a null channel, and replies with a file
    payload with [virtio_send_data_iov], going on according to what the
    calls return. *)
Inductive session :=
| SessDone
| SessStore (addr : Z) (b : Byte.byte) (k : session)
| SessLoad (addr : Z) (k : Byte.byte -> session)
| SessSend (with_ch : bool) (iov : list iovec) (k : Z -> session)
| SessSendData (iov : list iovec) (fd pos len : Z) (k : Z -> session).

Fixpoint run_session (se : fuse_session) (s : session) (req : FVRequest)
    : M FVRequest :=
  match s with
  | SessDone => ret req
  | SessStore addr b k =>
      do m <- get_mem;
      run put_mem (store m addr b);
      run_session se k req
  | SessLoad addr k =>
      do m <- get_mem;
      run_session se (k (m addr)) req
  | SessSend with_ch iov k =>
      do '(r, ch) <- virtio_send_msg se (if with_ch then Some req else None) iov;
      run_session se (k r) (default req ch)
  | SessSendData iov fd pos len k =>
      do '(r, req') <- virtio_send_data_iov se req iov fd pos len;
      run_session se (k r) req'
  end.

(** The buffers that expose the vectors after the two headers in place:
    [flags_of] gives the flags by index in the out array. *)
Definition guest_bufs (flags_of : Z -> Z) (osg : list iovec) : list fuse_buf :=
  imap (fun k v => {| buf_size := iov_len v;
                      buf_flags := flags_of (Z.of_nat k + 2);
                      buf_mem := iov_base v;
                      buf_pos := -1 |}) (drop 2 osg).

(** The buffer vector of the two write paths: the bounce buffer with the two
    headers, then the other vectors in place. *)
Definition zero_copy_bufv (fbuf_mem : Z) (flags_of : Z -> Z)
    (osg : list iovec) : fuse_bufvec :=
  {| bv_count := 1 + Z.of_nat (length (drop 2 osg));
     bv_idx := 0; bv_off := 0;
     bv_buf := {| buf_size := to_uint64 (iov_len (osg !!! 0%nat)
                                         + iov_len (osg !!! 1%nat));
                  buf_flags := 0; buf_mem := fbuf_mem; buf_pos := 0 |}
               :: guest_bufs flags_of osg |}.

(** The buffer vector of the generic path: the bounce buffer alone. *)
Definition bounce_bufv (fbuf_mem : Z) (size : Z) : fuse_bufvec :=
  {| bv_count := 1; bv_idx := 0; bv_off := 0;
     bv_buf := [ {| buf_size := size; buf_flags := 0; buf_mem := fbuf_mem;
                    buf_pos := 0 |} ] |}.

(** [copy_from_iov] on the memory of the state. *)
Definition copy_from_iov_st (dest : Z) (sg : list iovec) : M unit :=
  do m <- get_mem; put_mem (copy_from_iov m dest sg).

(** [fv_queue_worker] up to its call of the session: the checks on the
    element and the building of the buffer vector the session is given.
    Returns the buffer vector, the request with its channel bound to the
    queue, and the address of the bounce buffer. *)
Definition fv_queue_worker_setup (se : fuse_session) (qi : nat)
    (req0 : FVRequest) : M (fuse_bufvec * FVRequest * Z) :=
  run assert_that (sizeof_fuse_in_header <? se_bufsize se) ChkBufsize;
  do fbuf_mem <- malloc (se_bufsize se);
  let req := {| elem := elem req0; ch_qi := qi;
                bad_in_num := bad_in_num req0;
                bad_out_num := bad_out_num req0;
                reply_sent := reply_sent req0 |} in
  (* The 'out' part of the elem is from qemu *)
  let osg := out_sg (elem req) in
  let out_num := Z.of_nat (length osg) in
  let out_num_readable := to_uint32 (out_num - bad_out_num req) in
  let out_len := iov_size osg in
  let out_len_readable := iov_size (take (Z.to_nat out_num_readable) osg) in
  if out_len_readable <? sizeof_fuse_in_header
  then stop_with (AssertFailed ChkInHeader)
  else if se_bufsize se <? out_len
  then stop_with (AssertFailed ChkTooLarge)
  else
    (* Copy just the first element and look at it *)
    run copy_from_iov_st fbuf_mem (take 1 osg);
    let len0 := iov_len (osg !!! 0%nat) in
    let len1 := iov_len (osg !!! 1%nat) in
    do pbufv1 <-
      (if negb (bad_in_num req =? 0) || negb (bad_out_num req =? 0) then
         do m <- get_mem;
         let opcode := in_header_opcode m fbuf_mem in
         let write_case :=
           (2 <? out_num) && (2 <=? out_num_readable)
           && (bad_in_num req =? 0) && (len0 =? sizeof_fuse_in_header)
           && (opcode =? FUSE_WRITE) && (len1 =? sizeof_fuse_write_in) in
         let read_case :=
           (out_num =? 2) && (out_num_readable =? 2)
           && negb (bad_in_num req =? 0) && (len0 =? sizeof_fuse_in_header)
           && (opcode =? FUSE_READ) && (len1 =? sizeof_fuse_read_in) in
         do pbufv <-
           (if write_case then
              (* copy the fuse_write_in header after the fuse_in_header *)
              run copy_from_iov_st (fbuf_mem + len0) (take 1 (drop 1 osg));
              ret (Some (zero_copy_bufv fbuf_mem
                           (fun i => if i <? out_num_readable then 0
                                     else FUSE_BUF_PHYS_ADDR) osg))
            else ret None);
         if write_case || read_case then ret pbufv
         else stop_with Exited
       else ret None);
    do pbufv2 <-
      (if bad_out_num req =? 0 then
         do m <- get_mem;
         let opcode := in_header_opcode m fbuf_mem in
         if (2 <? out_num) && (len0 =? sizeof_fuse_in_header)
            && (opcode =? FUSE_WRITE) && (len1 =? sizeof_fuse_write_in)
         then
           (* copy the fuse_write_in header after the fuse_in_header *)
           run copy_from_iov_st (fbuf_mem + len0) (take 1 (drop 1 osg));
           ret (Some (zero_copy_bufv fbuf_mem (fun _ => 0) osg))
         else
           (* Normal (non fast write) path: copy the rest of the buffer *)
           run copy_from_iov_st (fbuf_mem + len0) (drop 1 osg);
           ret (Some (bounce_bufv fbuf_mem out_len))
       else ret pbufv1);
    match pbufv2 with
    | None => stop_with NullDeref
    | Some pbufv => ret (pbufv, req, fbuf_mem)
    end.

(** [fv_queue_worker] after the session has returned: "If the request has
    no reply, still recycle the virtqueue element". *)
Definition fv_queue_worker_finish (req : FVRequest) : M unit :=
  run (if reply_sent req then ret tt
       else
         let q := ch_qi req in
         run pthread_rwlock_rdlock;
         run pthread_mutex_lock q;
         run vu_queue_push q (elem req) 0;
         run vu_queue_notify q;
         run pthread_mutex_unlock q;
         pthread_rwlock_unlock);
  log_event (EvFree (elem_index (elem req))).

(** [fv_queue_worker]: process one request.  [process] is what the session
    does with the buffer vector it is given. *)
Definition fv_queue_worker (se : fuse_session)
    (process : fuse_bufvec -> session) (qi : nat) (req : FVRequest) : M unit :=
  do '(pbufv, req1, _) <- fv_queue_worker_setup se qi req;
  do req2 <- run_session se (process pbufv) req1;
  fv_queue_worker_finish req2.

End DaemonModel.


(** *** Vocabulary and examples of the daemon-side statements *)

(** What a run leaves behind: its trace, and why it stopped if it did. *)
Definition result_trace {A} (r : result A) : list event :=
  match r with Ok _ w | Stop _ w => w_trace w end.

Definition result_stop {A} (r : result A) : option stop :=
  match r with Ok _ _ => None | Stop why _ => Some why end.

(** The request as [virtio_send_msg] leaves it after a reply. *)
Definition replied (req : FVRequest) : FVRequest :=
  {| elem := elem req; ch_qi := ch_qi req; bad_in_num := bad_in_num req;
     bad_out_num := bad_out_num req; reply_sent := true |}.

(** The request as [fv_queue_worker] binds it to its queue. *)
Definition bound_to (qi : nat) (req : FVRequest) : FVRequest :=
  {| elem := elem req; ch_qi := qi; bad_in_num := bad_in_num req;
     bad_out_num := bad_out_num req; reply_sent := reply_sent req |}.

(** Push and notify as the reply paths do them: under the queue's mutex,
    inside a read lock on the dispatch rwlock. *)
Definition locked_push (q : nat) (idx len : Z) : list event :=
  [EvRdLock; EvLock q; EvPush q idx len; EvNotify q; EvUnlock q; EvRwUnlock].

(** A memory for the examples: zeroes below address 4096, and above it the
    address modulo 256. *)
Definition example_mem : mem :=
  fun a => if a <? 4096 then Byte.x00 else byte_of_Z a.

Definition example_world (avail : nat -> list (VuVirtqElement * Z * Z))
    : world :=
  {| w_mem := example_mem; w_avail := avail; w_held := []; w_trace := [];
     w_heap := 1048576 |}.

(** A session with the three queues started: high priority, notification,
    request. *)
Definition example_session (notify : bool) : fuse_session :=
  {| se_bufsize := 4096; se_notify_enabled := notify;
     se_qi := fun i => Some i |}.

(** A request with one 40-byte out vector and one 96-byte in vector. *)
Definition example_request : FVRequest :=
  {| elem := {| elem_index := 0;
                out_sg := [ {| iov_base := 65536; iov_len := 40 |} ];
                in_sg := [ {| iov_base := 131072; iov_len := 96 |} ] |};
     ch_qi := 2; bad_in_num := 0; bad_out_num := 0; reply_sent := false |}.

(** Stops that are not one of the two element checks of the worker. *)
Definition not_element_check (why : stop) : Prop :=
  why <> AssertFailed ChkInHeader /\ why <> AssertFailed ChkTooLarge.

(** A computation that stops only for reasons in [P]. *)
Definition stops_within {A} (P : stop -> Prop) (m : M A) : Prop :=
  forall w why w', m w = Stop why w' -> P why.

(** A request with a 40-byte and a 40-byte readable out vector followed by
    an unmappable one of 100000 bytes. *)
Definition unmappable_write_request : FVRequest :=
  {| elem := {| elem_index := 3;
                out_sg := [ {| iov_base := 65536; iov_len := 40 |};
                            {| iov_base := 69632; iov_len := 40 |};
                            {| iov_base := 4294967296; iov_len := 100000 |} ];
                in_sg := [ {| iov_base := 131072; iov_len := 24 |} ] |};
     ch_qi := 2; bad_in_num := 0; bad_out_num := 1; reply_sent := false |}.

(** A request whose two out vectors are a [fuse_in_header] with opcode
    [FUSE_WRITE] and a [fuse_write_in], in a memory that holds that opcode. *)
Definition two_vector_write_request : FVRequest :=
  {| elem := {| elem_index := 4;
                out_sg := [ {| iov_base := 65536; iov_len := 40 |};
                            {| iov_base := 69632; iov_len := 40 |} ];
                in_sg := [ {| iov_base := 131072; iov_len := 24 |} ] |};
     ch_qi := 2; bad_in_num := 0; bad_out_num := 0; reply_sent := false |}.


Definition write_world : world :=
  {| w_mem := store_le example_mem (65536 + 4) 4 16;
     w_avail := fun _ => []; w_held := []; w_trace := [];
     w_heap := 1048576 |}.

(** A session that sends nothing. *)
Definition silent_session (_ : fuse_bufvec) : session := SessDone.

(** A session that sends one notification of 24 bytes, a message whose
    [unique] is zero, and nothing else. *)
Definition notifying_session (_ : fuse_bufvec) : session :=
  SessSend false [ {| iov_base := 512; iov_len := 24 |} ] (fun _ => SessDone).

(** The notification queue holds one element, whose in vector is 8 bytes
    long. *)
Definition short_notify_buffer (q : nat) : list (VuVirtqElement * Z * Z) :=
  if Nat.eqb q 1
  then [ ({| elem_index := 7; out_sg := [];
             in_sg := [ {| iov_base := 196608; iov_len := 8 |} ] |}, 0, 0) ]
  else [].

(** A second request, like the first. *)
Definition example_request' : FVRequest :=
  {| elem := {| elem_index := 1;
                out_sg := [ {| iov_base := 73728; iov_len := 40 |} ];
                in_sg := [ {| iov_base := 135168; iov_len := 96 |} ] |};
     ch_qi := 2; bad_in_num := 0; bad_out_num := 0; reply_sent := false |}.

(** A host for the examples: the file is at its end ([preadv] reads nothing)
    and the device moves every byte asked for. *)
Definition example_host : DaemonHost :=
  {| slave_entries := 8;
     host_preadv := fun _ _ _ => (0, 0, []);
     host_io_request := fun sm _ => sm_len sm !!! 0%nat;
     read_turns := 16 |}.

(** The pushes on queue [q] that a trace holds, in order: element index and
    length. *)
Definition pushes_on (q : nat) (t : list event) : list (Z * Z) :=
  omap (fun e => match e with
                 | EvPush q' idx len =>
                     if Nat.eqb q' q then Some (idx, len) else None
                 | _ => None
                 end) t.

(** What holds of the value and the state a computation returns with, when
    it returns. *)
Definition wp {A} (m : M A) (Q : A -> world -> Prop) (w : world) : Prop :=
  match m w with
  | Ok a w' => Q a w'
  | Stop _ _ => True
  end.

(** The pushes on queue [q] so far are those of [base], followed by one push
    of element [idx] if the request has been replied to. *)
Definition pushed_if_replied (q : nat) (base : list (Z * Z)) (idx : Z)
    (req : FVRequest) (w : world) : Prop :=
  ch_qi req = q /\ elem_index (elem req) = idx /\
  if reply_sent req
  then exists len, pushes_on q (w_trace w) = base ++ [(idx, len)]
  else pushes_on q (w_trace w) = base.

(** [preadv] gives -1 and an [errno] that is not zero, or a count of bytes
    that an [int] holds. *)
Definition preadv_sets_errno (host : DaemonHost) : Prop :=
  forall fd iov pos,
    ((host_preadv fd iov pos).1.1 = -1 /\ (host_preadv fd iov pos).1.2 <> 0)
    \/ 0 <= (host_preadv fd iov pos).1.1 < 2 ^ 31.

(** The device's answer to an IO request, when it is a failure, is a negated
    [errno]: a negative [int]. *)
Definition io_request_errno (host : DaemonHost) : Prop :=
  forall sm fd, host_io_request sm fd < 0 -> - 2 ^ 31 <= host_io_request sm fd.
(** * More of the two programs *)

From stdpp Require Import strings.
From Stdlib Require Import Strings.Ascii.

Local Open Scope Z_scope.

(** *** Vocabulary of further device-side statements *)

(** The [msync] SYNC asks for entry [i] of a message: none for an empty
    entry or one that reaches outside the cache. *)
Definition sync_call (fs : VHostUserFS) (sm : VhostUserFSSlaveMsg)
    (i : nat) : list syscall :=
  if sm_len sm !!! i =? 0 then []
  else if bad_offset_len (sm_c_offset sm !!! i) (sm_len sm !!! i)
                         (cache_size fs) then []
  else [SysMsync (cache_host fs + sm_c_offset sm !!! i) (sm_len sm !!! i)].

(** An [msync] that does not return 0 has failed, and leaves a positive
    [errno], as POSIX has it. *)
Definition msync_sets_errno (host_call : list syscall -> syscall -> Z * Z)
    : Prop :=
  forall h addr len, (host_call h (SysMsync addr len)).1 <> 0 ->
    0 < (host_call h (SysMsync addr len)).2 < 2 ^ 31.

(** Entry [i] is the first entry of the message that is not empty. *)
Definition first_nonempty (sm : VhostUserFSSlaveMsg) (i : nat) : Prop :=
  (forall j, (j < i)%nat -> sm_len sm !!! j = 0) /\ sm_len sm !!! i <> 0.

(** A [pread] or a [pwrite] on the file descriptor [fd]. *)
Definition is_transfer (fd : Z) (c : syscall) : Prop :=
  match c with
  | SysPread f _ _ _ | SysPwrite f _ _ _ => f = fd
  | _ => False
  end.

(** A [pwrite] on the file descriptor [fd]. *)
Definition is_pwrite (fd : Z) (c : syscall) : Prop :=
  match c with
  | SysPwrite f _ _ _ => f = fd
  | _ => False
  end.

(** The one transfer IO asks for entry [i] of a message when every range
    resolves whole and every transfer moves all its bytes: none for an empty
    entry. *)
Definition io_call (memory_region_find : Z -> Z -> MemoryRegionSection)
    (sm : VhostUserFSSlaveMsg) (fd : Z) (i : nat) : list syscall :=
  if sm_len sm !!! i =? 0 then []
  else
    let mrs := memory_region_find (sm_c_offset sm !!! i) (sm_len sm !!! i) in
    if Z.land (sm_flags sm !!! i) VHOST_USER_FS_FLAG_MAP_R =? 0
    then [SysPwrite fd (mrs_hostptr mrs) (mrs_size mrs) (sm_fd_offset sm !!! i)]
    else [SysPread fd (mrs_hostptr mrs) (mrs_size mrs) (sm_fd_offset sm !!! i)].

(** The lengths of the first [k] entries added up as a [size_t]. *)
Definition io_total (sm : VhostUserFSSlaveMsg) (k : nat) : Z :=
  foldl (fun acc i => to_uint64 (acc + sm_len sm !!! i)) 0 (seq 0 k).

(** Every transfer moves all the bytes it is asked for. *)
Definition transfers_whole (host_call : list syscall -> syscall -> Z * Z)
    : Prop :=
  forall h fd p size off,
    (host_call h (SysPread fd p size off)).1 = size /\
    (host_call h (SysPwrite fd p size off)).1 = size.

(** Every range of guest memory resolves whole, to a writable region. *)
Definition resolves_whole (memory_region_find : Z -> Z -> MemoryRegionSection)
    : Prop :=
  forall gpa len, mrs_size (memory_region_find gpa len) = len /\
                  mrs_readonly (memory_region_find gpa len) = false.

(** What a run of IO's loops has added to the calls made: transfers on the
    file descriptor, and nothing else. *)
Definition adds_transfers (fd : Z) (h : list syscall)
    (r : option (Z * Z * list syscall + list syscall)) : Prop :=
  match r with
  | Some (inl (_, _, h')) | Some (inr h') =>
      exists ios, h' = h ++ ios /\ Forall (is_transfer fd) ios
  | None => True
  end.

(** Guest memory that is one read-only region: every range resolves whole,
    to memory the guest may not write. *)
Definition rom_only (gpa len : Z) : MemoryRegionSection :=
  {| mrs_size := len; mrs_readonly := true; mrs_hostptr := gpa |}.

(** A [pread] on the file descriptor [fd]. *)
Definition is_pread (fd : Z) (c : syscall) : Prop :=
  match c with
  | SysPread f _ _ _ => f = fd
  | _ => False
  end.

(** What a run of IO's loops has added to the calls made when it has not
    stopped on the assertion: calls that satisfy [P]. *)
Definition adds_only (P : syscall -> Prop) (h : list syscall)
    (r : option (Z * Z * list syscall + list syscall)) : Prop :=
  match r with
  | Some (inl (_, _, h')) => exists ios, h' = h ++ ios /\ Forall P ios
  | Some (inr _) => False
  | None => True
  end.

(** A transfer moves no more bytes than it is asked for, as POSIX has it. *)
Definition transfers_at_most (host_call : list syscall -> syscall -> Z * Z)
    : Prop :=
  forall h fd p size off,
    (host_call h (SysPread fd p size off)).1 <= size /\
    (host_call h (SysPwrite fd p size off)).1 <= size.

(** A range of guest memory resolves to a section no larger than the range,
    as [memory_region_find] has it. *)
Definition resolves_within (memory_region_find : Z -> Z -> MemoryRegionSection)
    : Prop :=
  forall gpa len, mrs_size (memory_region_find gpa len) <= len.

(** *** Vocabulary of further daemon-side statements *)

(** A host on which [preadv] finds the file at its end and the device
    answers every IO request with 0. *)
Definition quiet_host : DaemonHost :=
  {| slave_entries := 8;
     host_preadv := fun _ _ _ => (0, 0, []);
     host_io_request := fun _ _ => 0;
     read_turns := 16 |}.

(** *** Features and queue bookkeeping of the daemon's device *)

(** [VIRTIO_FS_F_NOTIFICATION] of standard-headers/linux/virtio_fs.h. *)
Definition VIRTIO_FS_F_NOTIFICATION : Z := 0.

(** Modelled from the spec: the two feature bits that other headers declare
    (standard-headers/linux/virtio_config.h and libvhost-user.h, not part of
    the sources at hand), "advertise [VERSION_1 | FS_NOTIFICATION |
    PROTOCOL_FEATURES]"; their numbers are taken as an interface. *)
Class VirtioAbi := {
  VIRTIO_F_VERSION_1 : Z;
  VHOST_USER_F_PROTOCOL_FEATURES : Z
}.

(** The numbers the two headers give them. *)
Definition linux_virtio_abi : VirtioAbi :=
  {| VIRTIO_F_VERSION_1 := 32; VHOST_USER_F_PROTOCOL_FEATURES := 30 |}.

(** [fv_get_features]: [1ull << n] is a [uint64_t]. *)
Definition fv_get_features {vabi : VirtioAbi} : Z :=
  to_uint64
    (Z.lor (Z.lor (to_uint64 (Z.shiftl 1 VIRTIO_F_VERSION_1))
                  (to_uint64 (Z.shiftl 1 VIRTIO_FS_F_NOTIFICATION)))
           (to_uint64 (Z.shiftl 1 VHOST_USER_F_PROTOCOL_FEATURES))).

(** Which function the thread of a queue runs. *)
Inductive thread_func := QueueThread | NotifyThread.

(** [struct fv_QueueInfo]: the fields [fv_queue_set_started] sets, and the
    function its thread runs. *)
Record fv_QueueInfo := {
  qi_qidx : Z;
  qi_kick_fd : Z;
  qi_kill_fd : Z;
  qi_thread : thread_func
}.

(** [struct fv_VuDev], with the [notify_enabled] of the session behind its
    [se] pointer: [vud_qi] is the array [qi], a null slot being [None]. *)
Record fv_VuDev := {
  vud_se_notify_enabled : bool;
  vud_nqueues : Z;
  vud_qi : list (option fv_QueueInfo);
  vud_notify_enabled : bool
}.

(** [fv_set_features]. *)
Definition fv_set_features (vud : fv_VuDev) (features : Z) : fv_VuDev :=
  if Z.land (Z.shiftl 1 VIRTIO_FS_F_NOTIFICATION) features =? 0 then vud
  else {| vud_se_notify_enabled := true; vud_nqueues := vud_nqueues vud;
          vud_qi := vud_qi vud; vud_notify_enabled := true |}.

(** What [fv_queue_set_started] does to the threads and the descriptors. *)
Inductive queue_event :=
| QEventfd (fd : Z)                        (* eventfd(0, ...) gave fd *)
| QSpawn (qidx : Z) (f : thread_func)      (* pthread_create *)
| QKill (kill_fd : Z)                      (* eventfd_write(kill_fd, 1) *)
| QJoin (qidx : Z)                         (* pthread_join *)
| QClose (fd : Z).                         (* close(kill_fd) *)

Inductive queue_check :=
| ChkQidx             (* assert(qidx >= 0) *)
| ChkNotStarted       (* assert(vud->qi[qidx]->kick_fd == -1) *)
| ChkKillFd           (* assert(ourqi->kill_fd != -1) *)
| ChkThread           (* pthread_create failed: assert(0) *)
| ChkNqueues.         (* assert(qidx < vud->nqueues) *)

Inductive started_result :=
| Started (vud : fv_VuDev) (t : list queue_event)
| StartedExit                       (* exit(EXIT_FAILURE) *)
| StartedAbort (c : queue_check)
| StartedNull.                      (* a null slot is dereferenced *)

Definition set_qi (vud : fv_VuDev) (n : Z) (qi : list (option fv_QueueInfo))
    : fv_VuDev :=
  {| vud_se_notify_enabled := vud_se_notify_enabled vud; vud_nqueues := n;
     vud_qi := qi; vud_notify_enabled := vud_notify_enabled vud |}.

(** [fv_queue_set_started].  [kick_fd] is [dev->vq[qidx].kick_fd];
    [new_kill_fd] is what [eventfd] returns and [create_res] what
    [pthread_create] returns.  The allocations do not fail. *)
Definition fv_queue_set_started (vud : fv_VuDev) (kick_fd new_kill_fd : Z)
    (create_res : Z) (qidx : Z) (started : bool) : started_result :=
  if qidx <? 0 then StartedAbort ChkQidx
  else
    (* One hiprio queue and one request queue *)
    let valid_queues := if vud_notify_enabled vud then 3 else 2 in
    if valid_queues <=? qidx then StartedExit
    else if started then
      (* Fire up a thread to watch this queue *)
      let '(nqueues, qi) :=
        if vud_nqueues vud <=? qidx
        then (qidx + 1,
              take (Z.to_nat (vud_nqueues vud)) (vud_qi vud)
                ++ replicate (Z.to_nat (qidx + 1 - vud_nqueues vud)) None)
        else (vud_nqueues vud, vud_qi vud) in
      match qi !! Z.to_nat qidx with
      | None => StartedNull
      | Some slot =>
        if match slot with
           | None => true
           | Some ourqi => qi_kick_fd ourqi =? -1  (* Shouldn't have been started *)
           end
        then
          if new_kill_fd =? -1 then StartedAbort ChkKillFd
          else
            (* First queue (idx = 0) is hiprio queue.  Second queue is
               notification queue (if enabled). *)
            let f := if vud_notify_enabled vud && (qidx =? 1)
                     then NotifyThread else QueueThread in
            if negb (create_res =? 0) then StartedAbort ChkThread
            else
              (* a fresh slot is given the index; a slot left in place keeps
                 the one it has *)
              let own_qidx := match slot with
                              | None => qidx
                              | Some ourqi => qi_qidx ourqi
                              end in
              Started (set_qi vud nqueues
                         (<[Z.to_nat qidx :=
                              Some {| qi_qidx := own_qidx;
                                      qi_kick_fd := kick_fd;
                                      qi_kill_fd := new_kill_fd;
                                      qi_thread := f |}]> qi))
                      [QEventfd new_kill_fd; QSpawn qidx f]
        else StartedAbort ChkNotStarted
      end
    else
      if vud_nqueues vud <=? qidx then StartedAbort ChkNqueues
      else
        match vud_qi vud !! Z.to_nat qidx with
        | Some (Some ourqi) =>
            (* Kill the thread *)
            Started (set_qi vud (vud_nqueues vud)
                       (<[Z.to_nat qidx := None]> (vud_qi vud)))
                    [QKill (qi_kill_fd ourqi); QJoin qidx;
                     QClose (qi_kill_fd ourqi)]
        | _ => StartedNull
        end.

(** The array has [nqueues] slots, each started queue sits at the slot of
    its index, and no slot beyond the third is in use. *)
Definition vud_wf (vud : fv_VuDev) : Prop :=
  Z.of_nat (length (vud_qi vud)) = vud_nqueues vud /\
  vud_nqueues vud <= 3 /\
  forall i ourqi, vud_qi vud !! i = Some (Some ourqi) ->
                  qi_qidx ourqi = Z.of_nat i.

(** The device as [virtio_session_mount] allocates it: zeroes. *)
Definition fresh_vud : fv_VuDev :=
  {| vud_se_notify_enabled := false; vud_nqueues := 0; vud_qi := [];
     vud_notify_enabled := false |}.

(** *** The queue threads *)

(** [poll.h] and [errno.h] of Linux. *)
Definition POLLIN : Z := 1.
Definition POLLERR : Z := 8.
Definition POLLHUP : Z := 16.
Definition POLLNVAL : Z := 32.
Definition EINTR : Z := 4.

(** What one [ppoll] on the kick and the kill descriptors gives: its return
    value, [errno], and the [revents] of the two. *)
Record poll_result := {
  pr_res : Z;
  pr_errno : Z;
  pr_kick_revents : Z;
  pr_kill_revents : Z
}.

(** Where the tests that follow [ppoll] in the loop of a queue thread lead:
    around the loop again, out of the loop, to a failed assertion, or on to
    the kick. *)
Inductive poll_verdict := PollAgain | PollBreak | PollAssert | PollKick.

Definition poll_errors : Z := Z.lor (Z.lor POLLERR POLLHUP) POLLNVAL.

(** The tests of the two queue threads between [ppoll] and [eventfd_read]. *)
Definition queue_poll_verdict (p : poll_result) : poll_verdict :=
  if pr_res p =? -1 then
    if pr_errno p =? EINTR then PollAgain else PollBreak
  else if negb (1 <=? pr_res p) then PollAssert
  else if negb (Z.land (pr_kick_revents p) poll_errors =? 0) then PollBreak
  else if negb (Z.land (pr_kill_revents p) poll_errors =? 0) then PollBreak
  else if negb (pr_kill_revents p =? 0) then PollBreak
  else if Z.land (pr_kick_revents p) POLLIN =? 0 then PollAssert
  else PollKick.

(** How a run of a queue thread ends: out of its loop, on a failed
    assertion, or still waiting in [ppoll] when the events listed have all
    been seen. *)
Inductive thread_end := ThreadQuit | ThreadAborted | ThreadWaiting.

(** The inner [while (1)] loop of [fv_queue_thread]: pop until the queue
    gives no element, and hand each request to the pool.  The requests
    handed over are returned, in order.  [ch0] stands for the channel of a
    request as [vu_queue_pop] allocates it, which this loop does not set. *)
Fixpoint queue_pop_all (fuel : nat) (ch0 : nat) (q : nat)
    : M (list FVRequest) :=
  match fuel with
  | O => stop_with OutOfFuel
  | S fuel' =>
    do r <- vu_queue_pop q;
    match r with
    | None => ret []
    | Some (e, bad_in, bad_out) =>
      let req := {| elem := e; ch_qi := ch0; bad_in_num := bad_in;
                    bad_out_num := bad_out; reply_sent := false |} in
      do rest <- queue_pop_all fuel' ch0 q;
      ret (req :: rest)
    end
  end.

(** What [fv_queue_thread] does on a kick, past [eventfd_read]: under the
    read lock and the queue's mutex, pop every element.  Each turn of the
    loop but the last takes an element off the queue, so one turn more than
    the queue holds is budget enough.  [vu_queue_get_avail_bytes], whose
    answer only goes to the log, is left out. *)
Definition fv_queue_thread_kick (ch0 : nat) (q : nat) : M (list FVRequest) :=
  (* Mutual exclusion with virtio_loop() *)
  run pthread_rwlock_rdlock;
  run pthread_mutex_lock q;
  do reqs <- (fun w => queue_pop_all (S (length (w_avail w q))) ch0 q w);
  run pthread_mutex_unlock q;
  run pthread_rwlock_unlock;
  ret reqs.

(** The loop of [fv_queue_thread] over the events listed, each the result
    of a [ppoll] with the value [eventfd_read] returns after it.  Gives the
    requests handed to the pool and how the run ends. *)
Fixpoint fv_queue_thread_loop (ch0 : nat) (q : nat)
    (events : list (poll_result * Z)) : M (list FVRequest * thread_end) :=
  match events with
  | [] => ret ([], ThreadWaiting)
  | (p, read_res) :: events' =>
    match queue_poll_verdict p with
    | PollAgain => fv_queue_thread_loop ch0 q events'
    | PollBreak => ret ([], ThreadQuit)
    | PollAssert => ret ([], ThreadAborted)
    | PollKick =>
      if negb (read_res =? 0) then ret ([], ThreadQuit)
      else
        do reqs <- fv_queue_thread_kick ch0 q;
        do '(more, how) <- fv_queue_thread_loop ch0 q events';
        ret (reqs ++ more, how)
    end
  end.

(** [fv_queue_thread]: without a pool the thread returns at once. *)
Definition fv_queue_thread (pool_made : bool) (ch0 : nat) (q : nat)
    (events : list (poll_result * Z)) : M (list FVRequest * thread_end) :=
  if pool_made then fv_queue_thread_loop ch0 q events
  else ret ([], ThreadQuit).

(** [fv_queue_notify_thread]: the same loop, which takes no lock and pops
    nothing. *)
Fixpoint fv_queue_notify_thread (events : list (poll_result * Z))
    : thread_end :=
  match events with
  | [] => ThreadWaiting
  | (p, read_res) :: events' =>
    match queue_poll_verdict p with
    | PollAgain => fv_queue_notify_thread events'
    | PollBreak => ThreadQuit
    | PollAssert => ThreadAborted
    | PollKick =>
      if negb (read_res =? 0) then ThreadQuit
      else fv_queue_notify_thread events'
    end
  end.

(** The workers of the requests handed to the pool, run one after the
    other. *)
Fixpoint run_workers {abi : FuseAbi} {host : DaemonHost} (se : fuse_session)
    (process : fuse_bufvec -> session) (qi : nat) (reqs : list FVRequest)
    : M unit :=
  match reqs with
  | [] => ret tt
  | req :: reqs' =>
      run fv_queue_worker se process qi req;
      run_workers se process qi reqs'
  end.

(** The elements a queue holds, as requests. *)
Definition requests_of (ch0 : nat) (avail : list (VuVirtqElement * Z * Z))
    : list FVRequest :=
  (fun '(e, bad_in, bad_out) =>
     {| elem := e; ch_qi := ch0; bad_in_num := bad_in;
        bad_out_num := bad_out; reply_sent := false |}) <$> avail.

(** *** Requests to the device *)

(** The message [fuse_virtio_write] builds, [VhostUserFSSlaveMsg msg = { 0 }]
    with entry 0 filled in: a write to the file at [fd_offset] of [len]
    bytes of guest memory at [src_mem + src_off]. *)
Definition fuse_virtio_write_msg (n : nat) (fd_offset src_mem src_off len : Z)
    : VhostUserFSSlaveMsg :=
  single_entry_msg n VHOST_USER_FS_FLAG_MAP_W fd_offset
                   (to_uint64 (src_mem + src_off)) len.

(** [fuse_virtio_write].  [fd_seek] is [FUSE_BUF_FD_SEEK] of fuse_common.h
    (not part of the sources at hand, taken as given); [dst_fd] is the
    descriptor of the destination buffer and [lseek_res] what
    [lseek(dst->fd, 0, SEEK_CUR)] returns, with the [errno] it leaves. *)
Definition fuse_virtio_write {host : DaemonHost} (fd_seek : Z)
    (dst : fuse_buf) (dst_fd : Z) (lseek_res : Z * Z) (dst_off : Z)
    (src : fuse_buf) (src_off len : Z) : Z :=
  let send fd_offset :=
    host_io_request (fuse_virtio_write_msg slave_entries fd_offset
                                           (buf_mem src) src_off len)
                    dst_fd in
  if negb (Z.land (buf_flags dst) fd_seek =? 0)
  then send (to_uint64 (buf_pos dst + dst_off))
  else if lseek_res.1 =? -1 then - lseek_res.2
  else send (to_uint64 lseek_res.1).

(** *** The listening socket and the descriptors of the session *)

(** [strreplace].  A C string is the characters before its NUL; the
    function goes over them and writes [new] over each [old]. *)
Fixpoint strreplace (s : string) (old new : ascii) : string :=
  match s with
  | EmptyString => EmptyString
  | String c s' =>
      String (if Ascii.eqb c old then new else c) (strreplace s' old new)
  end.

(** [sizeof(un.sun_path)] and [sizeof(un.sun_family)] of sys/un.h on
    Linux. *)
Definition sizeof_sun_path : Z := 108.
Definition sizeof_sun_family : Z := 2.

(** The fields of [struct fuse_session] that the socket code reads and
    writes.  [vu_socket_lock] is [None] for a null pointer; [se_virtio_dev]
    is the device behind [virtio_dev], [None] for a null pointer. *)
Record vu_session := {
  vu_socket_path : string;
  vu_listen_fd : Z;
  vu_socketfd : Z;
  vu_socket_lock : option string;
  se_fd : Z;
  se_virtio_dev : option fv_VuDev
}.

(** The calls the socket code makes. *)
Inductive sock_call :=
| CMkdir (dir : string)                      (* g_mkdir_with_parents *)
| CWritePidfile (path : string)              (* qemu_write_pidfile *)
| CUnlink (path : string)
| CSocket                                    (* socket(AF_UNIX, SOCK_STREAM, 0) *)
| CBind (fd : Z) (path : string) (addr_len : Z)
| CListen (fd : Z)
| CAccept (fd : Z)
| CClose (fd : Z)
| CVuInit (max_queues : Z) (fd : Z).         (* vu_init *)

(** The name of the lock file of a socket path: ["%s/%s.pid"] of the
    directory and the path with every ['/'] replaced by ['.']. *)
Definition socket_lock_path (dir path : string) : string :=
  dir +:+ "/" +:+ strreplace path "/" "." +:+ ".pid".

Section SocketModel.

(** The host: given the calls made so far and a call, the value the call
    returns ([qemu_write_pidfile] returns a [bool]). *)
Variable sock_host : list sock_call -> sock_call -> Z.

(** Modelled from the spec: the directory [qemu_get_local_state_pathname]
    gives for "run/virtiofsd", "the host's local-state directory"; the
    function is not part of the sources at hand. *)
Variable state_dir : string.

(** [fv_socket_lock]: the result, the session and the calls made. *)
Definition fv_socket_lock (se : vu_session) (h : list sock_call)
    : Z * vu_session * list sock_call :=
  let h1 := h ++ [CMkdir state_dir] in
  if sock_host h (CMkdir state_dir) <? -1 then (-1, se, h1)
  else
    let lock := socket_lock_path state_dir (vu_socket_path se) in
    let se1 := {| vu_socket_path := vu_socket_path se;
                  vu_listen_fd := vu_listen_fd se;
                  vu_socketfd := vu_socketfd se;
                  vu_socket_lock := Some lock;
                  se_fd := se_fd se;
                  se_virtio_dev := se_virtio_dev se |} in
    let ret := if sock_host h1 (CWritePidfile lock) =? 0 then -1 else 0 in
    (ret, se1, h1 ++ [CWritePidfile lock]).

Definition set_listen_fd (fd : Z) (se : vu_session) : vu_session :=
  {| vu_socket_path := vu_socket_path se; vu_listen_fd := fd;
     vu_socketfd := vu_socketfd se; vu_socket_lock := vu_socket_lock se;
     se_fd := se_fd se; se_virtio_dev := se_virtio_dev se |}.

(** [fv_create_listen_socket]. *)
Definition fv_create_listen_socket (se : vu_session) (h : list sock_call)
    : Z * vu_session * list sock_call :=
  let path := vu_socket_path se in
  let len := Z.of_nat (String.length path) in
  (* Nothing to do if fd is already initialized *)
  if 0 <=? vu_listen_fd se then (0, se, h)
  else if sizeof_sun_path <=? len then (-1, se, h)
  else if len =? 0 then (-1, se, h)
  else
    (* Check the vu_socket_path is already used *)
    let '(locked, se1, h1) := fv_socket_lock se h in
    if locked =? -1 then (-1, se1, h1)
    else
      let h2 := h1 ++ [CUnlink path] in
      let addr_len := sizeof_sun_family + len in
      let listen_sock := sock_host h2 CSocket in
      let h3 := h2 ++ [CSocket] in
      if listen_sock =? -1 then (-1, se1, h3)
      else
        let b := CBind listen_sock path addr_len in
        if sock_host h3 b =? -1 then (-1, se1, h3 ++ [b])
        else
          let l := CListen listen_sock in
          if sock_host (h3 ++ [b]) l =? -1 then (-1, se1, h3 ++ [b; l])
          else (0, set_listen_fd listen_sock se1, h3 ++ [b; l]).

(** [virtio_session_mount].  The allocation of the device does not fail. *)
Definition virtio_session_mount (se : vu_session) (h : list sock_call)
    : Z * vu_session * list sock_call :=
  let '(ret, se1, h1) := fv_create_listen_socket se h in
  if ret <? 0 then (ret, se1, h1)
  else
    (* Poison the fuse FD so we spot if we accidentally use it *)
    let se2 := {| vu_socket_path := vu_socket_path se1;
                  vu_listen_fd := vu_listen_fd se1;
                  vu_socketfd := vu_socketfd se1;
                  vu_socket_lock := vu_socket_lock se1;
                  se_fd := to_int32 3674148113;
                  se_virtio_dev := se_virtio_dev se1 |} in
    let a := CAccept (vu_listen_fd se2) in
    let data_sock := sock_host h1 a in
    let h2 := h1 ++ [a; CClose (vu_listen_fd se2)] in
    if data_sock =? -1 then (-1, se2, h2)
    else
      (0,
       {| vu_socket_path := vu_socket_path se2; vu_listen_fd := -1;
          vu_socketfd := data_sock; vu_socket_lock := vu_socket_lock se2;
          se_fd := se_fd se2; se_virtio_dev := Some fresh_vud |},
       h2 ++ [CVuInit 3 data_sock]).

(** [virtio_session_close]. *)
Definition virtio_session_close (se : vu_session) (h : list sock_call)
    : vu_session * list sock_call :=
  let h1 := h ++ [CClose (vu_socketfd se)] in
  match se_virtio_dev se with
  | None => (se, h1)
  | Some _ =>
      ({| vu_socket_path := vu_socket_path se;
          vu_listen_fd := vu_listen_fd se;
          vu_socketfd := vu_socketfd se;
          vu_socket_lock := vu_socket_lock se;
          se_fd := se_fd se; se_virtio_dev := None |},
       h1 ++ [CClose (vu_socketfd se)])
  end.

End SocketModel.

(** The calls that create something: the lock file, the socket. *)
Definition creates (c : sock_call) : bool :=
  match c with
  | CMkdir _ | CWritePidfile _ | CUnlink _ | CSocket | CBind _ _ _
  | CListen _ => true
  | _ => false
  end.

(** A session as the daemon's start leaves it before the mount: no
    descriptor yet. *)
Definition unmounted_session (path : string) : vu_session :=
  {| vu_socket_path := path; vu_listen_fd := -1; vu_socketfd := -1;
     vu_socket_lock := None; se_fd := -1; se_virtio_dev := None |}.

(** A host on which [mkdir] fails, the pid file is written, [socket] gives
    descriptor 5 and [accept] descriptor 6. *)
Definition socket_host (h : list sock_call) (c : sock_call) : Z :=
  match c with
  | CMkdir _ => -1
  | CWritePidfile _ => 1
  | CSocket => 5
  | CAccept _ => 6
  | _ => 0
  end.

(** The same host, on which [accept] fails. *)
Definition no_accept_host (h : list sock_call) (c : sock_call) : Z :=
  match c with
  | CAccept _ => -1
  | _ => socket_host h c
  end.

(** ** The device: configuration, start and stop *)

(** [sizeof_field(struct virtio_fs_config, tag)] and
    [sizeof(struct virtio_fs_config)] of virtio_fs.h: the structure is
    packed, [uint8_t tag[36]] and two [uint32_t]. *)
Definition sizeof_tag : nat := 36.
Definition sizeof_virtio_fs_config : nat := 44.

(** The NUL byte. *)
Definition NUL : ascii := Ascii.zero.

(** [vuf_get_config]: the configuration space, byte by byte.  [fscfg]
    starts as zeroes; [memcpy] puts the first
    [MIN(strlen(tag) + 1, sizeof(fscfg.tag))] bytes of the tag and its
    terminator there.  [virtio_stl_p], which stores a 32-bit value in the
    byte order of the device, is given.  The tag is the text before the
    terminator, a string that holds no NUL. *)
Definition vuf_get_config (virtio_stl_p : Z -> list ascii) (tag : string)
    (num_request_queues : Z) : list ascii :=
  let n := Nat.min (String.length tag + 1) sizeof_tag in
  let fscfg_tag :=
    take n (String.list_ascii_of_string tag ++ [NUL]) ++
    replicate (sizeof_tag - n) NUL in
  let fscfg_num_request_queues := virtio_stl_p num_request_queues in
  let fscfg_notify_buf_size := replicate 4 NUL in
  fscfg_tag ++ fscfg_num_request_queues ++ fscfg_notify_buf_size.

(** The tag a driver reads in the configuration space: the bytes of the
    [tag] field up to the first NUL, all of them when there is none. *)
Fixpoint until_nul (l : list ascii) : list ascii :=
  match l with
  | [] => []
  | c :: l' => if Ascii.eqb c NUL then [] else c :: until_nul l'
  end.

Definition config_tag (config : list ascii) : list ascii :=
  until_nul (take sizeof_tag config).

(** The calls of [vuf_start] and [vuf_stop] into the vhost and virtio-bus
    layers, and the store to [vhost_dev.acked_features]. *)
Inductive vhost_call :=
| VhostDevEnableNotifiers
| VhostDevDisableNotifiers
| SetGuestNotifiers (nvqs : Z) (assign : bool)
| SetAckedFeatures (features : Z)
| VhostDevStart
| VhostDevStop
| VhostVirtqueueMask (idx : Z) (mask : bool)
| VhostDevCleanup
| VhostUserCleanup
| VirtioCleanup
| FreeVqs.

(** What a device looks like to [vuf_set_status]: whether its bus has
    [set_guest_notifiers], [vhost_dev.nvqs], [vdev->guest_features],
    [vdev->vm_running] and [vhost_dev.started]. *)
Record vuf_dev := {
  has_set_guest_notifiers : bool;
  nvqs : Z;
  guest_features : Z;
  vm_running : bool;
  started : bool
}.

Section DeviceLifeCycle.

(** The layers below: given the calls made so far and a call, the [int] it
    returns. *)
Variable vhost_host : list vhost_call -> vhost_call -> Z.

(** [VIRTIO_CONFIG_S_DRIVER_OK] of virtio_config.h, which is not part of
    the sources at hand. *)
Variable VIRTIO_CONFIG_S_DRIVER_OK : Z.

(** [vuf_start]: the calls made so far, with those it makes. *)
Definition vuf_start (d : vuf_dev) (h : list vhost_call) : list vhost_call :=
  if negb (has_set_guest_notifiers d) then h
  else
    let ret := vhost_host h VhostDevEnableNotifiers in
    let h := h ++ [VhostDevEnableNotifiers] in
    if ret <? 0 then h
    else
      let ret := vhost_host h (SetGuestNotifiers (nvqs d) true) in
      let h := h ++ [SetGuestNotifiers (nvqs d) true] in
      if ret <? 0 then
        (* err_host_notifiers *)
        h ++ [VhostDevDisableNotifiers]
      else
        let h := h ++ [SetAckedFeatures (guest_features d)] in
        let ret := vhost_host h VhostDevStart in
        let h := h ++ [VhostDevStart] in
        if ret <? 0 then
          (* err_guest_notifiers *)
          h ++ [SetGuestNotifiers (nvqs d) false; VhostDevDisableNotifiers]
        else
          h ++ ((fun i => VhostVirtqueueMask i false) <$> seqZ 0 (nvqs d)).

(** [vuf_stop]. *)
Definition vuf_stop (d : vuf_dev) (h : list vhost_call) : list vhost_call :=
  if negb (has_set_guest_notifiers d) then h
  else
    let h := h ++ [VhostDevStop] in
    let ret := vhost_host h (SetGuestNotifiers (nvqs d) false) in
    let h := h ++ [SetGuestNotifiers (nvqs d) false] in
    if ret <? 0 then h
    else h ++ [VhostDevDisableNotifiers].

(** [vuf_set_status]; [status] is a [uint8_t]. *)
Definition vuf_set_status (d : vuf_dev) (status : Z) (h : list vhost_call)
    : list vhost_call :=
  let should_start := negb (Z.land status VIRTIO_CONFIG_S_DRIVER_OK =? 0) in
  let should_start := if negb (vm_running d) then false else should_start in
  if Bool.eqb (started d) should_start then h
  else if should_start then vuf_start d h
  else vuf_stop d h.

(** [vuf_device_unrealize]. *)
Definition vuf_device_unrealize (d : vuf_dev) (h : list vhost_call)
    : list vhost_call :=
  (* This will stop vhost backend if appropriate. *)
  let h := vuf_set_status d 0 h in
  h ++ [VhostDevCleanup; VhostUserCleanup; VirtioCleanup; FreeVqs].

End DeviceLifeCycle.

(** What a run of calls leaves behind: how many times the host notifiers
    are enabled, the guest notifiers bound and vhost started, counting a
    call that can fail only when it succeeds.  [h] is the calls made before
    the run. *)
Record vhost_state := {
  host_notifiers : Z;
  guest_notifiers : Z;
  vhost_started : Z
}.

Definition vhost_effect (ok : bool) (c : vhost_call) (s : vhost_state)
    : vhost_state :=
  match c with
  | VhostDevEnableNotifiers =>
      if ok then {| host_notifiers := host_notifiers s + 1;
                    guest_notifiers := guest_notifiers s;
                    vhost_started := vhost_started s |} else s
  | VhostDevDisableNotifiers =>
      {| host_notifiers := host_notifiers s - 1;
         guest_notifiers := guest_notifiers s;
         vhost_started := vhost_started s |}
  | SetGuestNotifiers _ assign =>
      if ok then {| host_notifiers := host_notifiers s;
                    guest_notifiers :=
                      guest_notifiers s + (if assign then 1 else -1);
                    vhost_started := vhost_started s |} else s
  | VhostDevStart =>
      if ok then {| host_notifiers := host_notifiers s;
                    guest_notifiers := guest_notifiers s;
                    vhost_started := vhost_started s + 1 |} else s
  | VhostDevStop =>
      {| host_notifiers := host_notifiers s;
         guest_notifiers := guest_notifiers s;
         vhost_started := vhost_started s - 1 |}
  | _ => s
  end.

Fixpoint vhost_replay (vhost_host : list vhost_call -> vhost_call -> Z)
    (h t : list vhost_call) (s : vhost_state) : vhost_state :=
  match t with
  | [] => s
  | c :: t' =>
      vhost_replay vhost_host (h ++ [c]) t'
                   (vhost_effect (negb (vhost_host h c <? 0)) c s)
  end.

(** The state [s] with one more of each: started. *)
Definition vhost_up (s : vhost_state) : vhost_state :=
  {| host_notifiers := host_notifiers s + 1;
     guest_notifiers := guest_notifiers s + 1;
     vhost_started := vhost_started s + 1 |}.

(** The state [s] with one less of each: stopped. *)
Definition vhost_down (s : vhost_state) : vhost_state :=
  {| host_notifiers := host_notifiers s - 1;
     guest_notifiers := guest_notifiers s - 1;
     vhost_started := vhost_started s - 1 |}.

(** A call that unmasks a queue, and one that is no unmasking. *)
Definition unmasks (c : vhost_call) : option Z :=
  match c with
  | VhostVirtqueueMask idx false => Some idx
  | _ => None
  end.

(** *** Realizing the device *)

(** The properties of the device, [fs->conf]: whether a chardev is set, the
    tag, [num-request-queues] and [queue-size] ([uint16_t]), [cache-size]
    ([uint64_t]) and the path of the version table. *)
Record VHostUserFSConf := {
  conf_chardev : bool;
  conf_tag : option string;
  conf_num_request_queues : Z;
  conf_queue_size : Z;
  conf_cache_size : Z;
  conf_mdvtpath : option string
}.

(** The errors [vuf_device_realize] sets. *)
Inductive realize_error :=
| ErrMissingChardev
| ErrMissingTag
| ErrEmptyTag
| ErrTagTooLong
| ErrNoRequestQueues
| ErrQueueSizePower
| ErrQueueSizeMax
| ErrCacheSize
| ErrOpenTable
| ErrStatTable
| ErrMmapCache
| ErrVhostUserInit
| ErrVhostDevInit.

(** The calls [vuf_device_realize] makes. *)
Inductive realize_call :=
| ROpen (path : string)
| RFstat (fd : Z)
| RClose (fd : Z)
| RMmapBlank (len : Z)
| RInitRamPtr (size ptr : Z)
| RInitRamFromFd (size fd : Z)
| RSetReadonly
| RVhostUserInit
| RVirtioInit (config_size : Z)
| RAddQueue (queue_size : Z)
| RVhostDevInit (nvqs : Z)
| RVhostUserCleanup
| RVirtioCleanup
| RFreeVqs.

Section DeviceRealize.

(** What a call returns, given the calls made so far: its value and, for
    [fstat], the [st_size] it stores. *)
Variable realize_host : list realize_call -> realize_call -> Z * Z.

(** [is_power_of_2], [VIRTQUEUE_MAX_SIZE] and the page size
    [sysconf(_SC_PAGESIZE)]: not part of the sources at hand. *)
Variable is_power_of_2 : Z -> bool.
Variable VIRTQUEUE_MAX_SIZE : Z.
Variable page_size : Z.

(** [fs->mdvt_size] as the device object starts with it. *)
Variable mdvt_size0 : Z.

(** The end of [vuf_device_realize], from the test of [mdvtfd] on. *)
Definition realize_regions (conf : VHostUserFSConf) (mdvtfd mdvt_size : Z)
    (h : list realize_call) : option realize_error * list realize_call :=
  let h :=
    if negb (mdvtfd =? 0)
    then h ++ [RInitRamFromFd mdvt_size mdvtfd;
               (* The version table is read-only by the guest *)
               RSetReadonly]
    else h in
  let ok := (realize_host h RVhostUserInit).1 in
  let h := h ++ [RVhostUserInit] in
  if ok =? 0 then (Some ErrVhostUserInit, h)
  else
    let h := h ++ [RVirtioInit (Z.of_nat sizeof_virtio_fs_config)] in
    (* Hiprio queue *)
    let h := h ++ [RAddQueue (conf_queue_size conf)] in
    (* Request queues *)
    let h := h ++ replicate (Z.to_nat (conf_num_request_queues conf))
                            (RAddQueue (conf_queue_size conf)) in
    (* 1 high prio queue, plus the number configured *)
    let nvqs := 1 + conf_num_request_queues conf in
    let ret := (realize_host h (RVhostDevInit nvqs)).1 in
    let h := h ++ [RVhostDevInit nvqs] in
    if ret <? 0 then
      (* err_virtio *)
      (Some ErrVhostDevInit, h ++ [RVhostUserCleanup; RVirtioCleanup; RFreeVqs])
    else (None, h).

(** The middle of [vuf_device_realize]: the blank cache. *)
Definition realize_cache (conf : VHostUserFSConf) (mdvtfd mdvt_size : Z)
    (h : list realize_call) : option realize_error * list realize_call :=
  if negb (conf_cache_size conf =? 0) then
    (* Anonymous, private memory is not counted as overcommit *)
    let cache_ptr := (realize_host h (RMmapBlank (conf_cache_size conf))).1 in
    let h := h ++ [RMmapBlank (conf_cache_size conf)] in
    if cache_ptr =? UINT64_ALL_ONES then (Some ErrMmapCache, h)
    else
      realize_regions conf mdvtfd mdvt_size
        (h ++ [RInitRamPtr (conf_cache_size conf) cache_ptr])
  else realize_regions conf mdvtfd mdvt_size h.

(** [vuf_device_realize]: the error it sets, if any, and the calls made.
    The size of the version table is the [st_size] of [fstat], which
    reaches [memory_region_init_ram_from_fd] as a [uint64_t]. *)
Definition vuf_device_realize (conf : VHostUserFSConf)
    (h : list realize_call) : option realize_error * list realize_call :=
  let mdvtfd := -1 in
  if negb (conf_chardev conf) then (Some ErrMissingChardev, h)
  else
    match conf_tag conf with
    | None => (Some ErrMissingTag, h)
    | Some tag =>
      let len := String.length tag in
      if (len =? 0)%nat then (Some ErrEmptyTag, h)
      else if (sizeof_tag <? len)%nat then (Some ErrTagTooLong, h)
      else if conf_num_request_queues conf =? 0
      then (Some ErrNoRequestQueues, h)
      else if negb (is_power_of_2 (conf_queue_size conf))
      then (Some ErrQueueSizePower, h)
      else if VIRTQUEUE_MAX_SIZE <? conf_queue_size conf
      then (Some ErrQueueSizeMax, h)
      else if negb (conf_cache_size conf =? 0) &&
              (negb (is_power_of_2 (conf_cache_size conf)) ||
               (conf_cache_size conf <? to_uint64 page_size))
      then (Some ErrCacheSize, h)
      else
        match conf_mdvtpath conf with
        | Some path =>
          let mdvtfd := (realize_host h (ROpen path)).1 in
          let h := h ++ [ROpen path] in
          if mdvtfd <? 0 then (Some ErrOpenTable, h)
          else
            let st := realize_host h (RFstat mdvtfd) in
            let h := h ++ [RFstat mdvtfd] in
            if st.1 =? -1 then (Some ErrStatTable, h ++ [RClose mdvtfd])
            else realize_cache conf mdvtfd (to_uint64 st.2) h
        | None => realize_cache conf mdvtfd mdvt_size0 h
        end
    end.

End DeviceRealize.

(** The configurations that pass the checks of [vuf_device_realize]. *)
Definition conf_accepted (is_power_of_2 : Z -> bool)
    (VIRTQUEUE_MAX_SIZE page_size : Z) (conf : VHostUserFSConf) : Prop :=
  conf_chardev conf = true /\
  (exists tag, conf_tag conf = Some tag /\
               (1 <= String.length tag <= sizeof_tag)%nat) /\
  conf_num_request_queues conf <> 0 /\
  is_power_of_2 (conf_queue_size conf) = true /\
  conf_queue_size conf <= VIRTQUEUE_MAX_SIZE /\
  (conf_cache_size conf = 0 \/
   (is_power_of_2 (conf_cache_size conf) = true /\
    to_uint64 page_size <= conf_cache_size conf)).

(** Hosts and devices to run the life cycle on: one where every call
    succeeds, one where starting vhost fails. *)
Definition willing_vhost (h : list vhost_call) (c : vhost_call) : Z := 0.

Definition unstartable_vhost (h : list vhost_call) (c : vhost_call) : Z :=
  match c with
  | VhostDevStart => -1
  | _ => 0
  end.

(** A host that refuses to unbind the guest notifiers. *)
Definition clinging_vhost (h : list vhost_call) (c : vhost_call) : Z :=
  match c with
  | SetGuestNotifiers _ false => -1
  | _ => 0
  end.

Definition example_vuf_dev (running is_started : bool) : vuf_dev :=
  {| has_set_guest_notifiers := true; nvqs := 2; guest_features := 0;
     vm_running := running; started := is_started |}.

(** [is_power_of_2] as QEMU's host-utils.h has it, for the examples. *)
Definition pow2 (value : Z) : bool :=
  if value =? 0 then false else Z.land value (value - 1) =? 0.

(** A host for realize: files open as descriptor [fd] and hold [size]
    bytes, the blank cache is mapped at [0x7f0000000000], every other call
    succeeds. *)
Definition realize_host_ok (fd size : Z) (h : list realize_call)
    (c : realize_call) : Z * Z :=
  match c with
  | ROpen _ => (fd, 0)
  | RFstat _ => (0, size)
  | RMmapBlank _ => (139637976727552, 0)
  | RVhostUserInit => (1, 0)
  | _ => (0, 0)
  end.

Definition example_conf (cache : Z) (table : option string)
    : VHostUserFSConf :=
  {| conf_chardev := true; conf_tag := Some "myfs";
     conf_num_request_queues := 1; conf_queue_size := 128;
     conf_cache_size := cache; conf_mdvtpath := table |}.

(** The calls that make the queues and hand them to vhost: the device
    with its configuration space, the hiprio queue and the request queues,
    [vhost_dev_init] with their number. *)
Definition queue_calls (conf : VHostUserFSConf) : list realize_call :=
  RVirtioInit (Z.of_nat sizeof_virtio_fs_config) ::
  replicate (Z.to_nat (1 + conf_num_request_queues conf))
            (RAddQueue (conf_queue_size conf)) ++
  [RVhostDevInit (1 + conf_num_request_queues conf)].

(** The calls that set up the region of the version table. *)
Definition table_region_calls (mdvtfd mdvt_size : Z) : list realize_call :=
  [RInitRamFromFd mdvt_size mdvtfd; RSetReadonly].

Definition is_init_from_fd (c : realize_call) : bool :=
  match c with
  | RInitRamFromFd _ _ => true
  | _ => false
  end.

Definition is_close (c : realize_call) : bool :=
  match c with
  | RClose _ => true
  | _ => false
  end.

(** A host for realize on which the blank cache cannot be mapped. *)
Definition realize_host_no_cache (fd size : Z) (h : list realize_call)
    (c : realize_call) : Z * Z :=
  match c with
  | RMmapBlank _ => (UINT64_ALL_ONES, 0)
  | _ => realize_host_ok fd size h c
  end.

(** *** Requests and queues to run the daemon on *)

(** The notification queue holds one element, whose in vector is 64 bytes
    long. *)
Definition notify_buffer (q : nat) : list (VuVirtqElement * Z * Z) :=
  if Nat.eqb q 1
  then [ ({| elem_index := 7; out_sg := [];
             in_sg := [ {| iov_base := 196608; iov_len := 64 |} ] |}, 0, 0) ]
  else [].


(** The request queue holds the elements of the two example requests. *)
Definition two_requests (q : nat) : list (VuVirtqElement * Z * Z) :=
  if Nat.eqb q 2
  then [ (elem example_request, 0, 0); (elem example_request', 0, 0) ]
  else [].

(** A [ppoll] that reports both a kick and a kill. *)
Definition kick_and_kill : poll_result :=
  {| pr_res := 2; pr_errno := 0; pr_kick_revents := POLLIN;
     pr_kill_revents := POLLIN |}.

(** A [ppoll] that reports a kick alone. *)
Definition kick_alone : poll_result :=
  {| pr_res := 1; pr_errno := 0; pr_kick_revents := POLLIN;
     pr_kill_revents := 0 |}.


(** * Properties *)

(** ** Machine integers *)

Lemma to_uint64_minus_one : to_uint64 (-1) = UINT64_ALL_ONES.
Proof. reflexivity. Qed.

Lemma to_uint64_small (x : Z) : 0 <= x < UINT64_MOD -> to_uint64 x = x.
Proof. intros Hx. unfold to_uint64. apply Z.mod_small. exact Hx. Qed.

Lemma to_uint64_range (x : Z) : 0 <= to_uint64 x < UINT64_MOD.
Proof. unfold to_uint64. apply Z.mod_pos_bound. reflexivity. Qed.

Lemma to_uint64_neg (e : Z) :
  0 < e <= 2 ^ 63 -> to_uint64 (- e) = UINT64_MOD - e.
Proof.
  intros He. unfold to_uint64, UINT64_MOD in *.
  symmetry. apply (Z.mod_unique _ _ (-1)); lia.
Qed.

Lemma is_failure_neg (e : Z) :
  0 < e <= 2 ^ 63 -> is_failure (to_uint64 (- e)) = true.
Proof.
  intros He. rewrite to_uint64_neg by exact He.
  unfold is_failure, to_int64, UINT64_MOD.
  destruct (Z.ltb_spec (2 ^ 64 - e) (2 ^ 63)); apply Z.ltb_lt; lia.
Qed.

Lemma to_uint64_zero_iff (r : Z) :
  - 2 ^ 63 <= r < 2 ^ 63 -> to_uint64 r = 0 <-> r = 0.
Proof.
  intros Hr. split; [|intros ->; reflexivity].
  unfold to_uint64, UINT64_MOD. intros H.
  apply Z.mod_divide in H; [|lia]. destruct H as [k Hk]. lia.
Qed.

(** ** The device side *)

Lemma map_calls_S fs sm fd k :
  map_calls fs sm fd (S k) =
  map_calls fs sm fd k ++
    (if sm_len sm !!! k =? 0 then [] else [map_call fs sm fd k]).
Proof.
  unfold map_calls. rewrite seq_S, flat_map_app. simpl.
  rewrite app_nil_r. reflexivity.
Qed.

(** Lists rewritten up to an index. *)
Lemma prefix_lookup {A} `{Inhabited A} (f : A -> A) (l : list A) k x :
  l !! k = Some x -> ((f <$> take k l) ++ drop k l) !!! k = x.
Proof.
  intros Hk. rewrite (drop_S _ _ _ Hk).
  apply list_lookup_total_middle.
  rewrite length_fmap, length_take. apply lookup_lt_Some in Hk. lia.
Qed.

Lemma prefix_lookup_done {A} `{Inhabited A} (f : A -> A) (l : list A) k x :
  l !! k = Some x -> ((f <$> take (S k) l) ++ drop (S k) l) !!! k = f x.
Proof.
  intros Hk. rewrite (take_S_r _ _ _ Hk), fmap_app, <- app_assoc. simpl.
  apply list_lookup_total_middle.
  rewrite length_fmap, length_take. apply lookup_lt_Some in Hk. lia.
Qed.

Lemma prefix_insert {A} (f : A -> A) (l : list A) k x v :
  l !! k = Some x -> v = f x ->
  <[k:=v]> ((f <$> take k l) ++ drop k l)
  = (f <$> take (S k) l) ++ drop (S k) l.
Proof.
  intros Hk ->. rewrite (drop_S _ _ _ Hk), (take_S_r _ _ _ Hk), fmap_app.
  rewrite <- app_assoc. simpl.
  assert (Hl : length (f <$> take k l) = k).
  { rewrite length_fmap, length_take. apply lookup_lt_Some in Hk. lia. }
  rewrite <- (Nat.add_0_r k) at 1. rewrite <- Hl at 1.
  rewrite insert_app_r. reflexivity.
Qed.

Lemma prefix_same {A} (f : A -> A) (l : list A) k x :
  l !! k = Some x -> f x = x ->
  (f <$> take (S k) l) ++ drop (S k) l = (f <$> take k l) ++ drop k l.
Proof.
  intros Hk Hx. rewrite (drop_S _ _ _ Hk), (take_S_r _ _ _ Hk), fmap_app.
  rewrite <- app_assoc. simpl. rewrite Hx. reflexivity.
Qed.

Section DeviceProperties.

Variable N : nat.
Variable host_call : list syscall -> syscall -> Z * Z.
Variable memory_region_find : Z -> Z -> MemoryRegionSection.

Local Abbreviation slave_map := (vhost_user_fs_slave_map N host_call).
Local Abbreviation slave_unmap := (vhost_user_fs_slave_unmap N host_call).
Local Abbreviation slave_sync := (vhost_user_fs_slave_sync N host_call).
Local Abbreviation slave_io :=
  (vhost_user_fs_slave_io N host_call memory_region_find).

(** The message UNMAP holds after [k] turns of its loop. *)
Lemma slave_unmap_fold fs sm h k :
  cache_size fs <> 0 ->
  (k <= length (sm_len sm))%nat ->
  exists res,
    foldl (slave_unmap_step host_call fs) (sm, 0, h) (seq 0 k)
      = ({| sm_flags := sm_flags sm; sm_fd_offset := sm_fd_offset sm;
            sm_c_offset := sm_c_offset sm;
            sm_len := (whole_cache_len fs <$> take k (sm_len sm))
                        ++ drop k (sm_len sm) |},
         res,
         h ++ flat_map (unmap_call fs (rewritten_msg fs sm)) (seq 0 k)).
Proof.
  intros Hcs. induction k as [|k IH]; intros Hk.
  - exists 0. simpl. rewrite drop_0, app_nil_r. destruct sm; reflexivity.
  - destruct IH as [res IH]; [lia|].
    rewrite seq_S, foldl_snoc, IH, flat_map_app. simpl seq. simpl flat_map.
    rewrite app_nil_r.
    destruct (lookup_lt_is_Some_2 (sm_len sm) k) as [lk Hlk]; [lia|].
    unfold slave_unmap_step at 1. cbn [sm_len sm_c_offset sm_flags sm_fd_offset].
    rewrite (prefix_lookup _ _ _ _ Hlk).
    unfold unmap_call, rewritten_msg. cbn [sm_len sm_c_offset].
    rewrite (list_lookup_total_fmap (whole_cache_len fs) (sm_len sm) k) by lia.
    rewrite (list_lookup_total_correct _ _ _ Hlk).
    destruct (Z.eqb_spec lk 0) as [->|Hnz].
    + exists res. change (whole_cache_len fs 0) with 0. simpl.
      rewrite app_nil_r.
      rewrite <- (prefix_same (whole_cache_len fs) _ _ _ Hlk) by reflexivity.
      reflexivity.
    + assert (Hlen1 :
        (if lk =? UINT64_ALL_ONES
         then <[k:=cache_size fs]>
                ((whole_cache_len fs <$> take k (sm_len sm)) ++ drop k (sm_len sm))
         else (whole_cache_len fs <$> take k (sm_len sm)) ++ drop k (sm_len sm))
        = (whole_cache_len fs <$> take (S k) (sm_len sm)) ++ drop (S k) (sm_len sm)).
      { destruct (Z.eqb_spec lk UINT64_ALL_ONES) as [Ho|Ho].
        - apply (prefix_insert _ _ _ _ _ Hlk). unfold whole_cache_len.
          subst lk. reflexivity.
        - symmetry. apply (prefix_same _ _ _ _ Hlk). unfold whole_cache_len.
          destruct (Z.eqb_spec lk UINT64_ALL_ONES); [contradiction|reflexivity]. }
      assert (Hw : whole_cache_len fs lk <> 0).
      { unfold whole_cache_len. destruct (lk =? UINT64_ALL_ONES); assumption. }
      destruct (Z.eqb_spec (whole_cache_len fs lk) 0) as [|_]; [contradiction|].
      set (sm1 := if lk =? UINT64_ALL_ONES then _ else _).
      assert (Hsm1 : sm1 =
        {| sm_flags := sm_flags sm; sm_fd_offset := sm_fd_offset sm;
           sm_c_offset := sm_c_offset sm;
           sm_len := (whole_cache_len fs <$> take (S k) (sm_len sm))
                       ++ drop (S k) (sm_len sm) |}).
      { subst sm1. rewrite <- Hlen1.
        destruct (lk =? UINT64_ALL_ONES); reflexivity. }
      rewrite Hsm1. cbn [sm_len sm_c_offset].
      rewrite (prefix_lookup_done (whole_cache_len fs) _ _ _ Hlk).
      destruct (bad_offset_len _ _ _).
      * exists (-1). rewrite app_nil_r. reflexivity.
      * destruct (host_call _ _) as [ptr errno].
        destruct (ptr =? _); eexists; rewrite app_assoc; reflexivity.
Qed.

Lemma slave_unmap_enabled fs sm h :
  cache_size fs <> 0 -> length (sm_len sm) = N ->
  exists res,
    slave_unmap (Some fs) sm h
    = (to_uint64 res, rewritten_msg fs sm,
       h ++ flat_map (unmap_call fs (rewritten_msg fs sm)) (seq 0 N)).
Proof.
  intros Hcs Hlen. unfold vhost_user_fs_slave_unmap.
  destruct (Z.eqb_spec (cache_size fs) 0) as [|_]; [contradiction|].
  destruct (slave_unmap_fold fs sm h N Hcs) as [res ->]; [lia|].
  exists res. unfold rewritten_msg.
  rewrite <- Hlen, firstn_all, drop_all, app_nil_r. reflexivity.
Qed.

(** MAP's loop up to its first failing entry. *)
Lemma slave_map_loop_fails fs sm fd h i :
  (forall j, (j < i)%nat -> sm_len sm !!! j <> 0 ->
     bad_offset_len (sm_c_offset sm !!! j) (sm_len sm !!! j) (cache_size fs)
       = false /\
     (host_call (h ++ map_calls fs sm fd j) (map_call fs sm fd j)).1
       = cache_host fs + sm_c_offset sm !!! j) ->
  sm_len sm !!! i <> 0 ->
  bad_offset_len (sm_c_offset sm !!! i) (sm_len sm !!! i) (cache_size fs) = true
  \/ (host_call (h ++ map_calls fs sm fd i) (map_call fs sm fd i)).1
       <> cache_host fs + sm_c_offset sm !!! i ->
  forall n i0, (i0 <= i < i0 + n)%nat ->
  slave_map_loop host_call fs sm fd n i0 (h ++ map_calls fs sm fd i0)
  = if bad_offset_len (sm_c_offset sm !!! i) (sm_len sm !!! i) (cache_size fs)
    then (-1, h ++ map_calls fs sm fd i)
    else (- (host_call (h ++ map_calls fs sm fd i) (map_call fs sm fd i)).2,
          h ++ map_calls fs sm fd i ++ [map_call fs sm fd i]).
Proof.
  intros Hpre Hnz Hfail. induction n as [|n IH]; intros i0 Hi; [lia|].
  cbn [slave_map_loop]. destruct (decide (i0 = i)) as [->|Hne].
  - destruct (Z.eqb_spec (sm_len sm !!! i) 0) as [|_]; [contradiction|].
    destruct (bad_offset_len _ _ _); [reflexivity|].
    destruct Hfail as [|Hfail]; [discriminate|].
    destruct (host_call _ _) as [ret errno]. simpl in *.
    destruct (Z.eqb_spec ret (cache_host fs + sm_c_offset sm !!! i));
      [contradiction|].
    rewrite app_assoc. reflexivity.
  - specialize (IH (S i0)). rewrite map_calls_S in IH.
    destruct (Z.eqb_spec (sm_len sm !!! i0) 0) as [Hz|Hz].
    + rewrite app_nil_r in IH. apply IH. lia.
    + destruct (Hpre i0) as [-> Hok]; [lia|assumption|].
      destruct (host_call (h ++ map_calls fs sm fd i0) (map_call fs sm fd i0))
        as [ret errno]. simpl in Hok. subst ret.
      rewrite Z.eqb_refl. rewrite <- app_assoc. apply IH. lia.
Qed.

(** C2: MAP with the cache present and a valid fd.  Let entry [i] be the
    first that is non-empty and either reaches outside the cache (its
    [c_offset + len] wraps or exceeds [cache_size]) or has its [mmap] refused,
    every non-empty entry before it having been mapped.  Then MAP has asked
    for the mappings of the non-empty entries before [i] only (an empty entry
    gives no call, an entry outside the cache none either, and no entry after
    [i] is looked at), it runs UNMAP over the same message from there, hands
    back the message and the mappings as UNMAP leaves them, and returns a
    value that is negative as [int64_t].  For a message of [N] entries the
    rollback is spelled out: after the mappings attempted come the anonymous
    mappings of UNMAP, one for every non-empty entry of the whole message
    that lies within the cache (the entries mapped, and those never reached
    as well), and the message comes back with its all-ones lengths rewritten
    to the cache size. *)
Theorem slave_map_entry_failure fs sm fd h i :
  cache_size fs <> 0 -> 0 <= fd -> mmap_sets_errno host_call ->
  (i < N)%nat ->
  (forall j, (j < i)%nat -> sm_len sm !!! j <> 0 ->
     bad_offset_len (sm_c_offset sm !!! j) (sm_len sm !!! j) (cache_size fs)
       = false /\
     (host_call (h ++ map_calls fs sm fd j) (map_call fs sm fd j)).1
       = cache_host fs + sm_c_offset sm !!! j) ->
  sm_len sm !!! i <> 0 ->
  bad_offset_len (sm_c_offset sm !!! i) (sm_len sm !!! i) (cache_size fs) = true
  \/ (host_call (h ++ map_calls fs sm fd i) (map_call fs sm fd i)).1
       <> cache_host fs + sm_c_offset sm !!! i ->
  let attempted :=
    map_calls fs sm fd i ++
    (if bad_offset_len (sm_c_offset sm !!! i) (sm_len sm !!! i) (cache_size fs)
     then [] else [map_call fs sm fd i]) in
  is_failure (slave_map (Some fs) sm fd h).1.1 = true /\
  (slave_map (Some fs) sm fd h).1.2
    = (slave_unmap (Some fs) sm (h ++ attempted)).1.2 /\
  (slave_map (Some fs) sm fd h).2
    = (slave_unmap (Some fs) sm (h ++ attempted)).2 /\
  (length (sm_len sm) = N ->
   (slave_map (Some fs) sm fd h).1.2 = rewritten_msg fs sm /\
   (slave_map (Some fs) sm fd h).2
   = h ++ attempted
       ++ flat_map (unmap_call fs (rewritten_msg fs sm)) (seq 0 N)).
Proof.
  intros Hcs Hfd Herrno Hi Hpre Hnz Hfail attempted.
  assert (Hroll : forall r sm' h',
            slave_unmap (Some fs) sm (h ++ attempted) = (r, sm', h') ->
            length (sm_len sm) = N ->
            sm' = rewritten_msg fs sm /\
            h' = h ++ attempted
                   ++ flat_map (unmap_call fs (rewritten_msg fs sm))
                               (seq 0 N)).
  { intros r sm' h' Hu Hlen.
    destruct (slave_unmap_enabled fs sm (h ++ attempted) Hcs Hlen)
      as [res Hres].
    rewrite Hres in Hu. injection Hu as _ <- <-.
    rewrite <- app_assoc. split; reflexivity. }
  revert Hroll.
  assert (Hloop := slave_map_loop_fails fs sm fd h i Hpre Hnz Hfail N 0%nat).
  change (map_calls fs sm fd 0) with (@nil syscall) in Hloop.
  rewrite app_nil_r in Hloop. specialize (Hloop ltac:(lia)).
  unfold vhost_user_fs_slave_map.
  destruct (Z.eqb_spec (cache_size fs) 0) as [|_]; [contradiction|].
  destruct (Z.ltb_spec fd 0) as [|_]; [lia|].
  rewrite Hloop. subst attempted.
  destruct (bad_offset_len _ _ _) eqn:Hbad.
  - rewrite app_nil_r. cbv beta iota zeta. change (-1 =? 0) with false.
    cbv iota.
    destruct (slave_unmap (Some fs) sm (h ++ map_calls fs sm fd i))
      as [[r sm'] h'].
    intros Hroll.
    split; [reflexivity|]. split; [reflexivity|]. split; [reflexivity|].
    intros Hlen. exact (Hroll r sm' h' eq_refl Hlen).
  - destruct Hfail as [|Hfail]; [discriminate|].
    pose proof (Herrno (h ++ map_calls fs sm fd i) (map_call fs sm fd i)
                  (cache_host fs + sm_c_offset sm !!! i) eq_refl Hfail) as He.
    cbv beta iota zeta.
    destruct (Z.eqb_spec (- (host_call (h ++ map_calls fs sm fd i)
                               (map_call fs sm fd i)).2) 0) as [|_]; [lia|].
    destruct (slave_unmap (Some fs) sm
                (h ++ map_calls fs sm fd i ++ [map_call fs sm fd i]))
      as [[r sm'] h'].
    intros Hroll.
    split; [apply is_failure_neg; lia|].
    split; [reflexivity|]. split; [reflexivity|].
    intros Hlen. exact (Hroll r sm' h' eq_refl Hlen).
Qed.


(** C3, as amended: with [cache_size] zero, MAP and SYNC return the all-ones
    failure value, UNMAP returns 0 when the length of entry 0 is all-ones,
    and IO, which never reads [cache_size], returns what it returns for any
    other cache size. *)
Theorem slave_ops_cache_disabled fs sm fd h :
  cache_size fs = 0 ->
  slave_map (Some fs) sm fd h = (UINT64_ALL_ONES, sm, h) /\
  slave_sync fs sm h = (UINT64_ALL_ONES, h) /\
  is_failure UINT64_ALL_ONES = true /\
  (sm_len sm !!! 0%nat = UINT64_ALL_ONES ->
   slave_unmap (Some fs) sm h = (0, sm, h)) /\
  (forall fuel fs', slave_io fuel (Some fs) sm fd h
                    = slave_io fuel (Some fs') sm fd h).
Proof.
  intros Hcs. unfold vhost_user_fs_slave_map, vhost_user_fs_slave_sync,
    vhost_user_fs_slave_unmap. rewrite Hcs. simpl.
  repeat split; try reflexivity.
  intros ->. reflexivity.
Qed.

(** IO closes the file descriptor on every path on which it returns after
    its tests of the device pointer and of [fd]. *)
Lemma slave_io_closes_fd fuel fs sm fd h r h' :
  0 <= fd ->
  slave_io fuel (Some fs) sm fd h = IoRet r h' ->
  exists h0, h' = h0 ++ [SysClose fd].
Proof.
  intros Hfd. unfold vhost_user_fs_slave_io.
  destruct (Z.ltb_spec fd 0) as [|_]; [lia|].
  destruct (slave_io_loop _ _ _ _ _ _ _ _ _ _) as [[[[res done] h1]|h1]|];
    try discriminate.
  destruct (res <? 0); intros H; injection H as <- <-; exists h1; reflexivity.
Qed.

(** A read into a region that is read-only ends the entry's loop with
    [-EFAULT] before any [pread]. *)
Lemma slave_io_read_only fuel flags gpa fd_off fd len done h :
  len <> 0 ->
  Z.land flags VHOST_USER_FS_FLAG_MAP_R <> 0 ->
  mrs_size (memory_region_find gpa len) <> 0 ->
  mrs_readonly (memory_region_find gpa len) = true ->
  slave_io_while host_call memory_region_find (S fuel) flags gpa fd_off fd
                 len 0 done h
  = Some (inl (- EFAULT, done, h)).
Proof.
  intros Hlen Hflag Hsize Hro. cbn [slave_io_while].
  destruct (Z.eqb_spec len 0) as [|_]; [contradiction|].
  change (0 =? 0) with true. cbn [negb orb].
  destruct (Z.eqb_spec (mrs_size (memory_region_find gpa len)) 0) as [|_];
    [contradiction|].
  destruct (Z.eqb_spec (Z.land flags VHOST_USER_FS_FLAG_MAP_R) 0) as [|_];
    [contradiction|].
  cbn [negb]. rewrite Hro. reflexivity.
Qed.

End DeviceProperties.



Lemma slave_ops_cache_disabled_witness :
  let fs := {| cache_size := 0; cache_host := 0 |} in
  let sm := single_entry_msg 8 0 0 0 UINT64_ALL_ONES in
  vhost_user_fs_slave_map 8 obliging_host (Some fs) sm 3 []
    = (UINT64_ALL_ONES, sm, []) /\
  vhost_user_fs_slave_sync 8 obliging_host fs sm [] = (UINT64_ALL_ONES, []) /\
  is_failure UINT64_ALL_ONES = true /\
  (sm_len sm !!! 0%nat = UINT64_ALL_ONES ->
   vhost_user_fs_slave_unmap 8 obliging_host (Some fs) sm [] = (0, sm, [])) /\
  (forall fuel fs',
     vhost_user_fs_slave_io 8 obliging_host (flat_ram 0) fuel (Some fs) sm 3 []
     = vhost_user_fs_slave_io 8 obliging_host (flat_ram 0) fuel (Some fs') sm 3 []).
Proof.
  apply (slave_ops_cache_disabled 8 obliging_host (flat_ram 0)
           {| cache_size := 0; cache_host := 0 |}
           (single_entry_msg 8 0 0 0 UINT64_ALL_ONES) 3 []).
  reflexivity.
Defined.

(** With the cache disabled IO still moves data: a 4096-byte read into guest
    RAM returns 4096, which is no failure. *)
Lemma slave_io_cache_disabled_transfers :
  let fs := {| cache_size := 0; cache_host := 0 |} in
  let sm := single_entry_msg 8 VHOST_USER_FS_FLAG_MAP_R 0 65536 4096 in
  vhost_user_fs_slave_io 8 obliging_host (flat_ram 0) 2 (Some fs) sm 3 []
    = IoRet 4096 [SysPread 3 65536 4096 0; SysClose 3] /\
  is_failure 4096 = false.
Proof. split; reflexivity. Qed.


Lemma slave_map_entry_failure_witness :
  let fs := {| cache_size := 65536; cache_host := 1048576 |} in
  let sm := {| sm_flags := [1; 0; 3; 0; 0; 3; 0; 0];
               sm_fd_offset := [0; 0; 100; 0; 0; 8192; 0; 0];
               sm_c_offset := [0; 0; 4096; 0; 0; 8192; 0; 0];
               sm_len := [4096; 0; 4096; 0; 0; UINT64_ALL_ONES; 0; 0] |} in
  is_failure (vhost_user_fs_slave_map 8 page_aligned_host (Some fs) sm 3 []).1.1
    = true /\
  (vhost_user_fs_slave_map 8 page_aligned_host (Some fs) sm 3 []).1.2
    = {| sm_flags := [1; 0; 3; 0; 0; 3; 0; 0];
         sm_fd_offset := [0; 0; 100; 0; 0; 8192; 0; 0];
         sm_c_offset := [0; 0; 4096; 0; 0; 8192; 0; 0];
         sm_len := [4096; 0; 4096; 0; 0; 65536; 0; 0] |} /\
  (vhost_user_fs_slave_map 8 page_aligned_host (Some fs) sm 3 []).2
    = [SysMmapFile 1048576 4096 1 3 0;
       SysMmapFile 1052672 4096 3 3 100;
       SysMmapAnon 1048576 4096;
       SysMmapAnon 1052672 4096].
Proof.
  intros fs sm.
  destruct (slave_map_entry_failure 8 page_aligned_host fs sm 3 [] 2%nat)
    as (Hres & _ & _ & Hroll).
  - discriminate.
  - lia.
  - intros h c addr Hc Hret. destruct c; try discriminate; simpl in *.
    + destruct (fd_off mod 4096 =? 0); simpl in *; [congruence|lia].
    + congruence.
  - lia.
  - intros j Hj Hnz. destruct j as [|[|j]]; [split; reflexivity| |lia].
    exfalso. apply Hnz. reflexivity.
  - discriminate.
  - right. discriminate.
  - destruct (Hroll eq_refl) as [Hmsg Hcalls].
    split; [exact Hres|]. split; [exact Hmsg|exact Hcalls].
Defined.

(** C6: IO does not walk the range.  Its inner loop takes the bytes moved
    off [len] and leaves the guest address and the file offset where they
    were, so every further slice is resolved at [c_offset] again and read at
    [fd_offset] again.  Reading 4096 bytes at offset 0 of a file of 3000
    bytes, it reads the first 3000 bytes, then the first 1096 bytes once
    more to the same place, and returns 4096; and for a range of 8192 bytes
    that crosses into a second region after 4096, it reads the first 4096
    bytes of the file twice into the first region and returns 8192. *)
Theorem slave_io_restarts_each_slice :
  let fs := {| cache_size := 65536; cache_host := 1048576 |} in
  vhost_user_fs_slave_io 8 (file_host 3000) (flat_ram 0) 4 (Some fs)
    (single_entry_msg 8 VHOST_USER_FS_FLAG_MAP_R 0 65536 4096) 3 []
  = IoRet 4096 [SysPread 3 65536 4096 0; SysPread 3 65536 1096 0; SysClose 3]
  /\
  vhost_user_fs_slave_io 8 obliging_host (split_ram 4096) 4 (Some fs)
    (single_entry_msg 8 VHOST_USER_FS_FLAG_MAP_R 0 0 8192) 3 []
  = IoRet 8192 [SysPread 3 0 4096 0; SysPread 3 0 4096 0; SysClose 3].
Proof. split; reflexivity. Qed.

(** ** The descriptor copier *)

Lemma store_bytes_app m as1 vs1 as2 vs2 :
  length as1 = length vs1 ->
  store_bytes m (as1 ++ as2) (vs1 ++ vs2)
  = store_bytes (store_bytes m as1 vs1) as2 vs2.
Proof.
  revert m vs1. induction as1 as [|a as1 IH]; intros m [|v vs1] Hlen;
    simpl in *; try discriminate; [reflexivity|].
  apply IH. lia.
Qed.

Lemma store_bytes_nil_r m addrs : store_bytes m addrs [] = m.
Proof. destruct addrs; reflexivity. Qed.

Lemma store_bytes_notin m addrs vals a :
  a ∉ addrs -> store_bytes m addrs vals a = m a.
Proof.
  revert m vals. induction addrs as [|x addrs IH]; intros m [|v vals] Ha;
    simpl; try reflexivity.
  rewrite not_elem_of_cons in Ha. destruct Ha as [Hne Ha].
  rewrite IH by exact Ha. unfold store.
  destruct (Z.eqb_spec a x); [contradiction|reflexivity].
Qed.

(** Reading back what was stored at addresses that are all different. *)
Lemma store_bytes_read m addrs vals :
  NoDup addrs -> length addrs = length vals ->
  store_bytes m addrs vals <$> addrs = vals.
Proof.
  revert m vals. induction addrs as [|x addrs IH]; intros m [|v vals] Hnd Hlen;
    simpl in *; try discriminate; [reflexivity|].
  apply NoDup_cons in Hnd. destruct Hnd as [Hx Hnd].
  rewrite store_bytes_notin by exact Hx.
  unfold store at 1. rewrite Z.eqb_refl. f_equal. apply IH; [exact Hnd|lia].
Qed.

(** Storing at some addresses what another memory holds there. *)
Lemma store_bytes_self m m0 addrs a :
  a ∈ addrs -> store_bytes m addrs (m0 <$> addrs) a = m0 a.
Proof.
  revert m. induction addrs as [|x addrs IH]; intros m Ha.
  - inversion Ha.
  - simpl. destruct (decide (a ∈ addrs)) as [Hin|Hnin].
    + apply IH. exact Hin.
    + rewrite store_bytes_notin by exact Hnin.
      apply elem_of_cons in Ha. destruct Ha as [->|Ha]; [|contradiction].
      unfold store. rewrite Z.eqb_refl. reflexivity.
Qed.

Lemma fmap_store_bytes_disjoint m addrs vals xs :
  disjoint_addrs xs addrs ->
  store_bytes m addrs vals <$> xs = m <$> xs.
Proof.
  intros Hd. apply list_fmap_ext. intros i x Hx.
  apply store_bytes_notin. apply Hd. eapply list_elem_of_lookup_2. exact Hx.
Qed.

Lemma memcpy_zero m dst src : memcpy m dst src 0 = m.
Proof. reflexivity. Qed.

Lemma iov_total_nonneg iov : iov_wf iov -> 0 <= iov_total iov.
Proof. induction 1; simpl; lia. Qed.

Lemma length_iov_addrs iov :
  iov_wf iov -> length (iov_addrs iov) = Z.to_nat (iov_total iov).
Proof.
  induction 1 as [|v iov Hv Hwf IH]; [reflexivity|].
  pose proof (iov_total_nonneg iov Hwf).
  unfold iov_addrs in *. simpl. rewrite length_app, length_seqZ, IH.
  lia.
Qed.

Lemma take_seqZ b n k :
  0 <= k <= n -> take (Z.to_nat k) (seqZ b n) = seqZ b k.
Proof.
  intros Hk. replace n with (k + (n - k)) by lia.
  rewrite seqZ_app by lia. apply take_app_length'.
  rewrite length_seqZ. reflexivity.
Qed.

Lemma drop_seqZ b n k :
  0 <= k <= n -> drop (Z.to_nat k) (seqZ b n) = seqZ (b + k) (n - k).
Proof.
  intros Hk. replace n with (k + (n - k)) at 1 by lia.
  rewrite seqZ_app by lia. apply drop_app_length'.
  rewrite length_seqZ. reflexivity.
Qed.

Lemma dst_rest_0 dst : dst_rest dst 0 = iov_addrs dst.
Proof.
  destruct dst as [|d dst]; [reflexivity|].
  unfold dst_rest, iov_addrs. simpl. rewrite Z.add_0_r, Z.sub_0_r.
  reflexivity.
Qed.

Lemma dst_ok_0 dst : dst_ok dst 0.
Proof. destruct dst; simpl; [reflexivity|]. split; [lia|right; reflexivity]. Qed.

Lemma copy_iov_inner_done fuel m sbase soff tc dst doff :
  copy_iov_inner fuel m sbase soff 0 tc dst doff = inr (m, tc, dst, doff).
Proof. destruct fuel; reflexivity. Qed.

Lemma disjoint_addrs_mono xs ys xs' ys' :
  disjoint_addrs xs ys -> xs' ⊆ xs -> ys' ⊆ ys -> disjoint_addrs xs' ys'.
Proof. intros Hd Hx Hy a Ha Hb. apply (Hd a); [apply Hx|apply Hy]; assumption. Qed.

(** The inner loop of [copy_iov] returns when the destination has room for
    the [src_len] bytes of the source vector, and copies them to the next
    [src_len] destination addresses when none of these is an address of the
    source bytes. *)
Lemma copy_iov_inner_spec fuel :
  forall m sbase soff slen tc dst doff,
  (length dst < fuel)%nat -> iov_wf dst -> dst_ok dst doff ->
  0 <= slen -> (Z.to_nat slen <= length (dst_rest dst doff))%nat ->
  exists m' dst' doff',
    copy_iov_inner fuel m sbase soff slen tc dst doff
    = inr (m', tc - slen, dst', doff') /\
    iov_wf dst' /\ dst_ok dst' doff' /\
    dst_rest dst' doff' = drop (Z.to_nat slen) (dst_rest dst doff) /\
    (disjoint_addrs (seqZ (sbase + soff) slen)
                    (take (Z.to_nat slen) (dst_rest dst doff)) ->
     m' = store_bytes m (take (Z.to_nat slen) (dst_rest dst doff))
                      (m <$> seqZ (sbase + soff) slen)).
Proof.
  induction fuel as [|fuel IH]; intros m sbase soff slen tc dst doff
    Hfuel Hwf Hok Hslen Hroom; [lia|].
  destruct (Z.eq_dec slen 0) as [->|Hnz].
  { exists m, dst, doff. rewrite copy_iov_inner_done, Z.sub_0_r. simpl.
    repeat split; try assumption. }
  destruct dst as [|d dst'].
  { simpl in Hroom. lia. }
  cbn [copy_iov_inner].
  destruct (Z.eqb_spec slen 0) as [|_]; [contradiction|].
  apply Forall_cons in Hwf. destruct Hwf as [Hd Hwf'].
  destruct Hok as [Hdoff0 Hdoff].
  set (avail := iov_len d - doff) in *.
  assert (Havail : 0 <= avail) by (subst avail; lia).
  cbn [dst_rest] in *. fold avail in Hroom |- *.
  rewrite length_app, length_seqZ in Hroom.
  destruct (Z.gtb_spec avail slen) as [Hgt|Hle]; cbv zeta.
  - (* the rest of the source vector fits in this destination vector *)
    destruct (Z.ltb_spec (iov_len d) (doff + slen)) as [|_]; [lia|].
    destruct (Z.eqb_spec (doff + slen) (iov_len d)) as [|_]; [lia|].
    exists (memcpy m (iov_base d + doff) (sbase + soff) slen),
           (d :: dst'), (doff + slen).
    rewrite Z.sub_diag, copy_iov_inner_done.
    rewrite take_app_le by (rewrite length_seqZ; lia).
    rewrite take_seqZ by lia.
    split; [reflexivity|]. split; [constructor; assumption|].
    split; [simpl; lia|].
    split; [|intros _; reflexivity].
    cbn [dst_rest]. rewrite drop_app_le by (rewrite length_seqZ; lia).
    rewrite drop_seqZ by lia. subst avail.
    f_equal. f_equal; lia.
  - (* this destination vector is filled and the next one is moved to *)
    destruct (Z.ltb_spec (iov_len d) (doff + avail)) as [|_];
      [subst avail; lia|].
    destruct (Z.eqb_spec (doff + avail) (iov_len d)) as [_|];
      [|subst avail; lia].
    assert (Hsplit : seqZ (sbase + soff) slen
                     = seqZ (sbase + soff) avail
                         ++ seqZ (sbase + (soff + avail)) (slen - avail)).
    { replace slen with (avail + (slen - avail)) at 1 by lia.
      rewrite seqZ_app by lia. f_equal. f_equal. lia. }
    assert (Htake : take (Z.to_nat slen)
                      (seqZ (iov_base d + doff) avail ++ iov_addrs dst')
                    = seqZ (iov_base d + doff) avail
                        ++ take (Z.to_nat (slen - avail)) (dst_rest dst' 0)).
    { rewrite take_app_ge by (rewrite length_seqZ; lia).
      rewrite length_seqZ, dst_rest_0. f_equal. f_equal. lia. }
    destruct (IH (memcpy m (iov_base d + doff) (sbase + soff) avail)
                 sbase (soff + avail) (slen - avail) (tc - avail) dst' 0)
      as (m'' & dst'' & doff'' & Heq & Hwf'' & Hok'' & Hrest'' & Hmem'').
    + simpl in Hfuel. lia.
    + exact Hwf'.
    + apply dst_ok_0.
    + lia.
    + rewrite dst_rest_0. lia.
    + exists m'', dst'', doff''. rewrite Heq.
      replace (tc - avail - (slen - avail)) with (tc - slen) by lia.
      split; [reflexivity|].
      split; [exact Hwf''|split; [exact Hok''|split]].
      * rewrite Hrest'', dst_rest_0.
        rewrite drop_app_ge by (rewrite length_seqZ; lia).
        rewrite length_seqZ. f_equal. lia.
      * intros Hdisj. rewrite Htake, Hsplit in Hdisj.
        rewrite Hmem''.
        2:{ eapply disjoint_addrs_mono; [exact Hdisj| |];
              intros a Ha; apply elem_of_app; right; exact Ha. }
        rewrite Htake, Hsplit, fmap_app.
        rewrite store_bytes_app by (rewrite length_fmap, !length_seqZ; lia).
        fold (memcpy m (iov_base d + doff) (sbase + soff) avail).
        f_equal.
        apply fmap_store_bytes_disjoint.
        eapply disjoint_addrs_mono; [exact Hdisj| |];
          intros a Ha; apply elem_of_app; [right|left]; exact Ha.
Qed.

Lemma take_iov_addrs_cons s src n :
  0 <= iov_len s -> 0 <= n ->
  let slen := if iov_len s >? n then n else iov_len s in
  take (Z.to_nat n) (iov_addrs (s :: src))
  = seqZ (iov_base s) slen ++ take (Z.to_nat (n - slen)) (iov_addrs src).
Proof.
  intros Hs Hn. unfold iov_addrs. simpl.
  destruct (Z.gtb_spec (iov_len s) n) as [Hgt|Hle].
  - rewrite Z.sub_diag. simpl. rewrite app_nil_r.
    rewrite take_app_le by (rewrite length_seqZ; lia).
    apply take_seqZ. lia.
  - rewrite take_app_ge by (rewrite length_seqZ; lia).
    rewrite length_seqZ. f_equal. f_equal. lia.
Qed.

(** The outer loop of [copy_iov] returns when the source holds [to_copy]
    bytes and the destination has room for them, and copies the first
    [to_copy] bytes of the source to the next [to_copy] destination addresses
    when none of these is an address of the source bytes. *)
Lemma copy_iov_outer_spec src :
  forall m dst doff n,
  iov_wf src -> iov_wf dst -> dst_ok dst doff ->
  0 <= n <= iov_total src ->
  (Z.to_nat n <= length (dst_rest dst doff))%nat ->
  exists m',
    copy_iov_outer m src dst doff n = Copied m' /\
    (disjoint_addrs (take (Z.to_nat n) (iov_addrs src))
                    (take (Z.to_nat n) (dst_rest dst doff)) ->
     m' = store_bytes m (take (Z.to_nat n) (dst_rest dst doff))
                      (m <$> take (Z.to_nat n) (iov_addrs src))).
Proof.
  induction src as [|s src' IH]; intros m dst doff n Hws Hwd Hok Hn Hroom.
  - simpl in Hn. assert (n = 0) as -> by lia. exists m. split; reflexivity.
  - destruct (Z.eq_dec n 0) as [->|Hnz]; [exists m; split; reflexivity|].
    cbn [copy_iov_outer].
    destruct (Z.eqb_spec n 0) as [|_]; [contradiction|].
    apply Forall_cons in Hws. destruct Hws as [Hs Hws'].
    pose proof (iov_total_nonneg src' Hws') as Htot.
    cbn [iov_total foldr] in Hn. fold (iov_total src') in Hn.
    pose proof (take_iov_addrs_cons s src' n ltac:(lia) ltac:(lia)) as Hsrc.
    cbv zeta in Hsrc.
    set (slen := if iov_len s >? n then n else iov_len s) in *.
    assert (Hslen : 0 <= slen <= n /\ slen <= iov_len s /\
                    n - slen <= iov_total src').
    { subst slen. destruct (Z.gtb_spec (iov_len s) n); lia. }
    assert (Hdst : take (Z.to_nat n) (dst_rest dst doff)
                   = take (Z.to_nat slen) (dst_rest dst doff)
                       ++ take (Z.to_nat (n - slen))
                            (drop (Z.to_nat slen) (dst_rest dst doff))).
    { rewrite take_take_drop. f_equal. lia. }
    destruct (copy_iov_inner_spec (S (length dst)) m (iov_base s) 0 slen n
                dst doff)
      as (m1 & dst' & doff' & Heq & Hwd' & Hok' & Hrest' & Hmem1);
      try assumption; try lia.
    rewrite Heq. rewrite Z.add_0_r in Hmem1.
    destruct (IH m1 dst' doff' (n - slen)) as (m2 & Heq2 & Hmem2);
      try assumption; try lia.
    { rewrite Hrest', length_drop. lia. }
    exists m2. split; [exact Heq2|].
    intros Hdisj. rewrite Hsrc, Hdst in Hdisj.
    rewrite Hmem2.
    2:{ rewrite Hrest'.
        eapply disjoint_addrs_mono; [exact Hdisj| |];
          intros a Ha; apply elem_of_app; right; exact Ha. }
    rewrite Hmem1.
    2:{ eapply disjoint_addrs_mono; [exact Hdisj| |];
          intros a Ha; apply elem_of_app; left; exact Ha. }
    rewrite Hrest', Hsrc, Hdst, fmap_app.
    rewrite store_bytes_app
      by (rewrite length_fmap, length_seqZ, length_take; lia).
    f_equal.
    apply fmap_store_bytes_disjoint.
    eapply disjoint_addrs_mono; [exact Hdisj| |];
      intros a Ha; apply elem_of_app; [right|left]; exact Ha.
Qed.

(** [copy_iov] between arrays that are large enough returns. *)
Lemma copy_iov_returns m src dst n :
  iov_wf src -> iov_wf dst ->
  0 <= n <= iov_total src -> n <= iov_total dst ->
  exists m', copy_iov m src dst n = Copied m'.
Proof.
  intros Hws Hwd Hn Hroom. unfold copy_iov.
  destruct (copy_iov_outer_spec src m dst 0 n) as (m' & Heq & _);
    try assumption; [apply dst_ok_0| |exists m'; exact Heq].
  rewrite dst_rest_0, length_iov_addrs by assumption. lia.
Qed.

(** It copies the first [n] bytes of the source to the first [n] addresses
    of the destination when none of these is an address of the source
    bytes. *)
Lemma copy_iov_spec m src dst n :
  iov_wf src -> iov_wf dst ->
  0 <= n <= iov_total src -> n <= iov_total dst ->
  disjoint_addrs (take (Z.to_nat n) (iov_addrs src))
                 (take (Z.to_nat n) (iov_addrs dst)) ->
  copy_iov m src dst n
  = Copied (store_bytes m (take (Z.to_nat n) (iov_addrs dst))
                        (m <$> take (Z.to_nat n) (iov_addrs src))).
Proof.
  intros Hws Hwd Hn Hroom Hdisj. unfold copy_iov.
  destruct (copy_iov_outer_spec src m dst 0 n) as (m' & Heq & Hmem);
    try assumption; [apply dst_ok_0| |].
  { rewrite dst_rest_0, length_iov_addrs by assumption. lia. }
  rewrite Heq, Hmem; rewrite dst_rest_0; [reflexivity|exact Hdisj].
Qed.

Lemma disjoint_addrs_sym xs ys : disjoint_addrs xs ys -> disjoint_addrs ys xs.
Proof. intros Hd a Ha Hb. exact (Hd a Hb Ha). Qed.

Lemma disjoint_addrs_Forall xs ys :
  Forall (fun a => a ∉ ys) xs -> disjoint_addrs xs ys.
Proof. intros Hf a Ha. rewrite Forall_forall in Hf. apply Hf. exact Ha. Qed.

Lemma length_take_iov_addrs iov n :
  iov_wf iov -> 0 <= n <= iov_total iov ->
  length (take (Z.to_nat n) (iov_addrs iov)) = Z.to_nat n.
Proof.
  intros Hwf Hn. rewrite length_take, length_iov_addrs by assumption. lia.
Qed.

(** C8, as amended: for a source array that holds at least [n] bytes and a
    destination array with room for [n] bytes, whose first [n] bytes are [n]
    different addresses none of which is among the source's, [copy_iov] of
    [n] bytes from the source to the destination and then [copy_iov] of [n]
    bytes back both return; the destination then holds the source's [n]
    bytes, the source holds after the copy back the bytes it held at first,
    and so does all of memory outside the destination.  The arrays are
    arbitrary lists of vectors: no relation between their segment boundaries
    is assumed. *)
Theorem copy_iov_round_trip (m : mem) (src dst : list iovec) (n : Z) :
  iov_wf src -> iov_wf dst ->
  0 <= n <= iov_total src -> n <= iov_total dst ->
  NoDup (take (Z.to_nat n) (iov_addrs dst)) ->
  disjoint_addrs (take (Z.to_nat n) (iov_addrs src))
                 (take (Z.to_nat n) (iov_addrs dst)) ->
  exists m1 m2,
    copy_iov m src dst n = Copied m1 /\
    copy_iov m1 dst src n = Copied m2 /\
    iov_bytes m1 dst n = iov_bytes m src n /\
    iov_bytes m2 src n = iov_bytes m src n /\
    (forall a, a ∉ take (Z.to_nat n) (iov_addrs dst) -> m2 a = m a).
Proof.
  intros Hws Hwd Hn Hroom Hnd Hdisj.
  pose proof (length_take_iov_addrs src n Hws Hn) as Hls.
  pose proof (length_take_iov_addrs dst n Hwd ltac:(lia)) as Hld.
  set (S := take (Z.to_nat n) (iov_addrs src)) in *.
  set (D := take (Z.to_nat n) (iov_addrs dst)) in *.
  exists (store_bytes m D (m <$> S)).
  exists (store_bytes (store_bytes m D (m <$> S)) S (m <$> S)).
  assert (Hback : store_bytes m D (m <$> S) <$> D = m <$> S).
  { apply store_bytes_read; [exact Hnd|]. rewrite length_fmap. lia. }
  assert (Hm2 : forall a, a ∉ D ->
            store_bytes (store_bytes m D (m <$> S)) S (m <$> S) a = m a).
  { intros a Ha. destruct (decide (a ∈ S)) as [Hin|Hnin].
    - apply store_bytes_self. exact Hin.
    - rewrite !store_bytes_notin by assumption. reflexivity. }
  split; [apply copy_iov_spec; assumption|].
  split.
  { rewrite copy_iov_spec; try assumption; try lia.
    - fold S D. rewrite Hback. reflexivity.
    - apply disjoint_addrs_sym. exact Hdisj. }
  split; [exact Hback|].
  split; [|exact Hm2].
  unfold iov_bytes. fold S. apply list_fmap_ext. intros i a Ha.
  apply Hm2. apply (Hdisj a). eapply list_elem_of_lookup_2. exact Ha.
Qed.

Lemma copy_iov_round_trip_witness :
  let src := [ {| iov_base := 100; iov_len := 3 |};
               {| iov_base := 200; iov_len := 5 |} ] in
  let dst := [ {| iov_base := 1000; iov_len := 2 |};
               {| iov_base := 2000; iov_len := 4 |};
               {| iov_base := 3000; iov_len := 4 |} ] in
  exists m1 m2,
    copy_iov pattern_mem src dst 7 = Copied m1 /\
    copy_iov m1 dst src 7 = Copied m2 /\
    iov_bytes m1 dst 7 = iov_bytes pattern_mem src 7 /\
    iov_bytes m2 src 7 = iov_bytes pattern_mem src 7 /\
    (forall a, a ∉ take (Z.to_nat 7) (iov_addrs dst) -> m2 a = pattern_mem a).
Proof.
  apply (copy_iov_round_trip pattern_mem
           [ {| iov_base := 100; iov_len := 3 |};
             {| iov_base := 200; iov_len := 5 |} ]
           [ {| iov_base := 1000; iov_len := 2 |};
             {| iov_base := 2000; iov_len := 4 |};
             {| iov_base := 3000; iov_len := 4 |} ] 7).
  - repeat constructor; simpl; unfold UINT64_MOD; lia.
  - repeat constructor; simpl; unfold UINT64_MOD; lia.
  - simpl; lia.
  - simpl; lia.
  - apply (bool_decide_unpack _). vm_compute. exact I.
  - apply disjoint_addrs_Forall. apply (bool_decide_unpack _). vm_compute. exact I.
Defined.

(** Without the condition on the destination the copy back does not restore
    the source: when two destination vectors name the same four bytes, the
    second half of an 8-byte source overwrites the first half there, and the
    copy back gives the source its second half twice.  Both copies return,
    the source holds 8 bytes and the destination has room for 8. *)
Lemma copy_iov_aliased_destination :
  let src := [ {| iov_base := 100; iov_len := 8 |} ] in
  let dst := [ {| iov_base := 1000; iov_len := 4 |};
               {| iov_base := 1000; iov_len := 4 |} ] in
  iov_wf src /\ iov_wf dst /\
  8 <= iov_total src /\ 8 <= iov_total dst /\
  exists m1 m2,
    copy_iov pattern_mem src dst 8 = Copied m1 /\
    copy_iov m1 dst src 8 = Copied m2 /\
    Z_of_byte <$> iov_bytes pattern_mem src 8
    = [100; 101; 102; 103; 104; 105; 106; 107] /\
    Z_of_byte <$> iov_bytes m2 src 8
    = [104; 105; 106; 107; 104; 105; 106; 107].
Proof.
  intros src dst.
  split; [repeat constructor; simpl; unfold UINT64_MOD; lia|].
  split; [repeat constructor; simpl; unfold UINT64_MOD; lia|].
  split; [simpl; lia|]. split; [simpl; lia|].
  eexists. eexists.
  split; [vm_compute; reflexivity|].
  split; [vm_compute; reflexivity|].
  split; vm_compute; reflexivity.
Qed.

(** ** The daemon side *)

Lemma iov_size_from_bounds l :
  iov_wf l -> forall a, 0 <= a ->
  0 <= foldl (fun acc v => to_uint64 (acc + iov_len v)) a l <= a + iov_total l.
Proof.
  induction 1 as [|v l Hv Hwf IH]; intros a Ha; simpl; [lia|].
  pose proof (iov_total_nonneg l Hwf).
  assert (0 <= to_uint64 (a + iov_len v) <= a + iov_len v).
  { unfold to_uint64, UINT64_MOD in *. split.
    - apply Z.mod_pos_bound. lia.
    - apply Z.mod_le; lia. }
  specialize (IH (to_uint64 (a + iov_len v)) ltac:(lia)). lia.
Qed.

(** [iov_size] is at most the number of bytes the array describes. *)
Lemma iov_size_bounds l : iov_wf l -> 0 <= iov_size l <= iov_total l.
Proof. intros Hwf. apply (iov_size_from_bounds l Hwf 0). lia. Qed.

(** What memory holds after a [copy_iov] that returned, when none of the
    bytes written is one of the bytes read: the first [n] bytes of the
    source stored at the first [n] addresses of the destination, everything
    else as before; and the destination reads back as the source when its
    addresses are all different. *)
Lemma copy_iov_gathers m src dst n m' :
  iov_wf src -> iov_wf dst ->
  0 <= n <= iov_total src -> n <= iov_total dst ->
  copy_iov m src dst n = Copied m' ->
  disjoint_addrs (take (Z.to_nat n) (iov_addrs src))
                 (take (Z.to_nat n) (iov_addrs dst)) ->
  m' = store_bytes m (take (Z.to_nat n) (iov_addrs dst)) (iov_bytes m src n) /\
  (forall a, a ∉ take (Z.to_nat n) (iov_addrs dst) -> m' a = m a) /\
  (NoDup (take (Z.to_nat n) (iov_addrs dst)) ->
   iov_bytes m' dst n = iov_bytes m src n).
Proof.
  intros Hws Hwd Hn Hroom Hrun Hdisj.
  rewrite (copy_iov_spec m src dst n Hws Hwd Hn Hroom Hdisj) in Hrun.
  injection Hrun as <-. fold (iov_bytes m src n).
  split; [reflexivity|]. split.
  - intros a Ha. apply store_bytes_notin. exact Ha.
  - intros Hnd. unfold iov_bytes at 1. apply store_bytes_read; [exact Hnd|].
    unfold iov_bytes. rewrite length_fmap.
    rewrite !length_take_iov_addrs by (assumption || lia). reflexivity.
Qed.

Lemma not_held_existsb q (held : list nat) :
  q ∉ held -> existsb (Nat.eqb q) held = false.
Proof.
  induction held as [|x held IH]; intros Hq; [reflexivity|].
  apply not_elem_of_cons in Hq. destruct Hq as [Hne Hq]. simpl.
  rewrite (IH Hq). destruct (Nat.eqb_spec q x); [contradiction|reflexivity].
Qed.

Lemma filter_released q (held : list nat) :
  q ∉ held -> filter (fun x => x <> q) (q :: held) = held.
Proof.
  intros Hq. rewrite filter_cons_False by (intros Hne; apply Hne; reflexivity).
  induction held as [|x held IH]; [reflexivity|].
  apply not_elem_of_cons in Hq. destruct Hq as [Hne Hq].
  rewrite filter_cons_True by congruence. f_equal. apply IH. exact Hq.
Qed.


Lemma to_int32_small x : - 2 ^ 31 <= x < 2 ^ 31 -> to_int32 x = x.
Proof.
  intros Hx. unfold to_int32, to_uint32, UINT32_MOD.
  destruct (Z.ltb_spec (x mod 2 ^ 32) (2 ^ 31)) as [Hlt|Hge].
  - destruct (Z.lt_ge_cases x 0) as [Hneg|Hpos].
    + rewrite <- (Z.mod_add x 1 (2 ^ 32)) in Hlt by lia.
      rewrite Z.mod_small in Hlt by lia. lia.
    + apply Z.mod_small. lia.
  - destruct (Z.lt_ge_cases x 0) as [Hneg|Hpos].
    + rewrite <- (Z.mod_add x 1 (2 ^ 32)) by lia.
      rewrite Z.mod_small by lia. lia.
    + rewrite Z.mod_small in Hge by lia. lia.
Qed.



Lemma zero_copy_count p f osg :
  1 < bv_count (zero_copy_bufv p f osg) <-> 2 < Z.of_nat (length osg).
Proof. unfold zero_copy_bufv. cbn [bv_count]. rewrite length_drop. lia. Qed.

(** *** Why a run can stop *)

Lemma stops_within_ret {A} P (a : A) : stops_within P (ret a).
Proof. intros w why w' H. discriminate. Qed.

Lemma stops_within_bind {A B} P (m : M A) (k : A -> M B) :
  stops_within P m -> (forall a, stops_within P (k a)) ->
  stops_within P (bind m k).
Proof.
  intros Hm Hk w why w'. unfold bind.
  destruct (m w) as [a w1|why1 w1] eqn:E.
  - apply Hk.
  - intros H. injection H as <- <-. eapply Hm. exact E.
Qed.

Lemma stops_within_stop {A} (P : stop -> Prop) why :
  P why -> stops_within P (@stop_with A why).
Proof. intros HP w why' w' H. injection H as <- <-. exact HP. Qed.

Lemma stops_within_assert (P : stop -> Prop) b c :
  P (AssertFailed c) -> stops_within P (assert_that b c).
Proof.
  intros HP. unfold assert_that. destruct b;
    [apply stops_within_ret|apply stops_within_stop; exact HP].
Qed.

Lemma stops_within_total {A} P (m : M A) :
  (forall w, exists a w', m w = Ok a w') -> stops_within P m.
Proof. intros Hm w why w' H. destruct (Hm w) as (a & w1 & E). congruence. Qed.

Lemma stops_within_pop P q : stops_within P (vu_queue_pop q).
Proof.
  intros w why w'. unfold vu_queue_pop. destruct (w_avail w q); discriminate.
Qed.

Lemma copy_iov_inner_stops fuel :
  forall m sbase soff slen tc dst doff why,
  copy_iov_inner fuel m sbase soff slen tc dst doff = inl why ->
  not_element_check why.
Proof.
  induction fuel as [|fuel IH]; intros m sbase soff slen tc dst doff why;
    simpl; destruct (slen =? 0); try discriminate.
  - intros H. injection H as <-. split; discriminate.
  - destruct dst as [|d dst'].
    + intros H. injection H as <-. split; discriminate.
    + repeat match goal with
        | |- context [if ?b then _ else _] => destruct b
        end; try apply IH.
      all: intros H; injection H as <-; split; discriminate.
Qed.

Lemma copy_iov_outer_stops src :
  forall m dst doff n why,
  copy_iov_outer m src dst doff n = CopyStop why -> not_element_check why.
Proof.
  induction src as [|s src IH]; intros m dst doff n why;
    cbn [copy_iov_outer]; destruct (n =? 0); try discriminate.
  - intros H. injection H as <-. split; discriminate.
  - destruct (copy_iov_inner _ _ _ _ _ _ _ _) as [why1|[[[m1 tc] d1] o1]] eqn:E.
    + intros H. injection H as <-. eapply copy_iov_inner_stops. exact E.
    + apply IH.
Qed.

Lemma stops_within_copy_iov src dst n :
  stops_within not_element_check (copy_iov_st src dst n).
Proof.
  intros w why w'. unfold copy_iov_st, copy_iov.
  destruct (copy_iov_outer _ _ _ _ _) eqn:E; [discriminate|].
  intros H. injection H as <- <-. eapply copy_iov_outer_stops. exact E.
Qed.

Lemma stops_within_lock q :
  stops_within not_element_check (pthread_mutex_lock q).
Proof.
  intros w why w'. unfold pthread_mutex_lock.
  destruct (existsb _ _); [|discriminate].
  intros H. injection H as <- <-. split; discriminate.
Qed.

Ltac stops_step :=
  first
  [ apply stops_within_ret
  | apply stops_within_pop
  | apply stops_within_copy_iov
  | apply stops_within_lock
  | apply stops_within_assert; split; discriminate
  | apply stops_within_stop; split; discriminate
  | apply stops_within_total; intros ?; eexists _, _; reflexivity
  | apply stops_within_bind; [|intros ?]
  | progress cbv zeta
  | match goal with
    | |- stops_within _ (if ?b then _ else _) => destruct b
    | |- stops_within _ (match ?x with _ => _ end) => destruct x
    end ].

(** *** What a run leaves on the queues *)

Lemma wp_ret {A} (a : A) Q w : Q a w -> wp (ret a) Q w.
Proof. intros H. exact H. Qed.

Lemma wp_bind {A B} (m : M A) (k : A -> M B) Q w :
  wp m (fun a w' => wp (k a) Q w') w -> wp (bind m k) Q w.
Proof. unfold wp, bind. destruct (m w); intros H; exact H. Qed.

Lemma wp_mono {A} (m : M A) (Q Q' : A -> world -> Prop) w :
  wp m Q w -> (forall a w', Q a w' -> Q' a w') -> wp m Q' w.
Proof. unfold wp. destruct (m w); intros H HQ; [apply HQ; exact H|exact I]. Qed.

Lemma wp_stop {A} why (Q : A -> world -> Prop) w : wp (stop_with why) Q w.
Proof. exact I. Qed.

Lemma wp_assert b c (Q : unit -> world -> Prop) w :
  (b = true -> Q tt w) -> wp (assert_that b c) Q w.
Proof. destruct b; intros H; [apply H; reflexivity|exact I]. Qed.

Lemma wp_lock q (Q : unit -> world -> Prop) w :
  Q tt (add_event (EvLock q) (set_held (q :: w_held w) w)) ->
  wp (pthread_mutex_lock q) Q w.
Proof.
  intros H. unfold wp, pthread_mutex_lock. destruct (existsb _ _);
    [exact I|exact H].
Qed.

Lemma wp_copy_iov src dst n (Q : unit -> world -> Prop) w :
  (forall m', Q tt (set_mem m' w)) -> wp (copy_iov_st src dst n) Q w.
Proof.
  intros H. unfold wp, copy_iov_st. destruct (copy_iov _ _ _ _);
    [apply H|exact I].
Qed.

Lemma wp_pop q (Q : option (VuVirtqElement * Z * Z) -> world -> Prop) w :
  Q None w ->
  (forall e av, Q (Some e) (add_event (EvPop q (elem_index e.1.1))
                              (set_avail av w))) ->
  wp (vu_queue_pop q) Q w.
Proof.
  intros Hn Hs. unfold wp, vu_queue_pop. destruct (w_avail w q);
    [exact Hn|apply Hs].
Qed.

Lemma pushes_on_snoc q t e :
  pushes_on q (t ++ [e])
  = pushes_on q t ++ match e with
                     | EvPush q' idx len =>
                         if Nat.eqb q' q then [(idx, len)] else []
                     | _ => []
                     end.
Proof.
  unfold pushes_on. rewrite omap_app. f_equal.
  destruct e; try reflexivity. simpl. destruct (Nat.eqb _ _); reflexivity.
Qed.

Lemma wp_get_mem (Q : mem -> world -> Prop) w :
  Q (w_mem w) w -> wp get_mem Q w.
Proof. intros H. exact H. Qed.

Lemma wp_put_mem m (Q : unit -> world -> Prop) w :
  Q tt (set_mem m w) -> wp (put_mem m) Q w.
Proof. intros H. exact H. Qed.

Lemma wp_log e (Q : unit -> world -> Prop) w :
  Q tt (add_event e w) -> wp (log_event e) Q w.
Proof. intros H. exact H. Qed.

Lemma wp_unlock q (Q : unit -> world -> Prop) w :
  Q tt (add_event (EvUnlock q)
          (set_held (filter (fun x => x <> q) (w_held w)) w)) ->
  wp (pthread_mutex_unlock q) Q w.
Proof. intros H. exact H. Qed.

Lemma wp_malloc size (Q : Z -> world -> Prop) w :
  Q (w_heap w) (set_heap (w_heap w + size) w) -> wp (malloc size) Q w.
Proof. intros H. exact H. Qed.

Lemma wp_copy_from_iov dest sg (Q : unit -> world -> Prop) w :
  Q tt (set_mem (copy_from_iov (w_mem w) dest sg) w) ->
  wp (copy_from_iov_st dest sg) Q w.
Proof. intros H. exact H. Qed.

Lemma w_trace_add_event e w : w_trace (add_event e w) = w_trace w ++ [e].
Proof. reflexivity. Qed.

Lemma w_trace_set_held h w : w_trace (set_held h w) = w_trace w.
Proof. reflexivity. Qed.

Lemma w_trace_set_mem m w : w_trace (set_mem m w) = w_trace w.
Proof. reflexivity. Qed.

Lemma w_trace_set_avail av w : w_trace (set_avail av w) = w_trace w.
Proof. reflexivity. Qed.

Lemma w_trace_set_heap h w : w_trace (set_heap h w) = w_trace w.
Proof. reflexivity. Qed.

(** The trace of a state that is written as a chain of updates. *)
Ltac trace_simpl :=
  repeat first [ rewrite w_trace_add_event | rewrite w_trace_set_held
               | rewrite w_trace_set_mem | rewrite w_trace_set_avail
               | rewrite w_trace_set_heap ].

(** One step of the computation of [wp], chosen by the shape of the
    computation. *)
Ltac wp_step :=
  lazy beta;
  lazymatch goal with
  | |- wp (bind _ _) _ _ => apply wp_bind
  | |- wp (ret _) _ _ => apply wp_ret
  | |- wp (stop_with _) _ _ => apply wp_stop
  | |- wp (assert_that _ _) _ _ => apply wp_assert; intros ?
  | |- wp get_mem _ _ => apply wp_get_mem
  | |- wp (put_mem _) _ _ => apply wp_put_mem
  | |- wp (log_event _) _ _ => apply wp_log
  | |- wp (malloc _) _ _ => apply wp_malloc
  | |- wp (copy_from_iov_st _ _) _ _ => apply wp_copy_from_iov
  | |- wp (copy_iov_st _ _ _) _ _ => apply wp_copy_iov; intros ?
  | |- wp pthread_rwlock_rdlock _ _ => apply wp_log
  | |- wp pthread_rwlock_unlock _ _ => apply wp_log
  | |- wp (pthread_mutex_lock _) _ _ => apply wp_lock
  | |- wp (pthread_mutex_unlock _) _ _ => apply wp_unlock
  | |- wp (vu_queue_pop _) _ _ => apply wp_pop; [|intros ? ?]
  | |- wp (vu_queue_push _ _ _) _ _ => apply wp_log
  | |- wp (vu_queue_notify _) _ _ => apply wp_log
  | |- wp (if ?b then _ else _) _ _ => destruct b eqn:?
  | |- wp (match ?x with _ => _ end) _ _ => destruct x eqn:?
  | |- wp (let _ := _ in _) _ _ => cbv zeta
  end.

Section DaemonProperties.

Context {abi : FuseAbi} {host : DaemonHost}.

(** C9: a message whose [unique] is zero, sent while notifications are not
    enabled, makes [virtio_send_msg] return [-EOPNOTSUPP] and leaves the
    state as it was: no queue has lost an element, nothing was popped,
    pushed or locked. *)
Theorem virtio_send_msg_notify_disabled se ch iov w :
  iov <> [] ->
  sizeof_fuse_out_header <= iov_len (iov !!! 0%nat) ->
  out_header_unique (w_mem w) (iov_base (iov !!! 0%nat)) = 0 ->
  se_notify_enabled se = false ->
  virtio_send_msg se ch iov w = Ok (- EOPNOTSUPP, ch) w.
Proof.
  intros Hne Hlen Huniq Hdis.
  unfold virtio_send_msg, virtio_send_notify_msg, bind, assert_that, get_mem,
    ret.
  destruct (Z.leb_spec 1 (Z.of_nat (length iov))) as [_|Hl];
    [|destruct iov; simpl in *; [contradiction|lia]].
  destruct (Z.leb_spec sizeof_fuse_out_header (iov_len (iov !!! 0%nat)))
    as [_|]; [|lia].
  rewrite Huniq. change (0 =? 0) with true. cbv beta iota.
  unfold virtio_send_notify_msg, bind, assert_that, get_mem, ret.
  rewrite Huniq. change (0 =? 0) with true. cbv beta iota.
  rewrite Hdis. reflexivity.
Qed.

(** [virtio_send_msg] on a reply, past its assertions. *)
Lemma virtio_send_msg_reply_unfold se req iov w :
  iov <> [] ->
  sizeof_fuse_out_header <= iov_len (iov !!! 0%nat) ->
  out_header_unique (w_mem w) (iov_base (iov !!! 0%nat)) <> 0 ->
  reply_sent req = false ->
  virtio_send_msg se (Some req) iov w
  = (if iov_size (in_sg (elem req)) <? sizeof_fuse_out_header
     then ret (- E2BIG, Some req)
     else if iov_size (in_sg (elem req)) <? iov_size iov
     then ret (- E2BIG, Some req)
     else
       run copy_iov_st iov (in_sg (elem req)) (iov_size iov);
       run pthread_rwlock_rdlock;
       run pthread_mutex_lock (ch_qi req);
       run vu_queue_push (ch_qi req) (elem req) (iov_size iov);
       run vu_queue_notify (ch_qi req);
       run pthread_mutex_unlock (ch_qi req);
       run pthread_rwlock_unlock;
       ret (0, Some (replied req))) w.
Proof.
  intros Hne Hlen Huniq Hrs.
  unfold virtio_send_msg, bind at 1 2 3, assert_that, get_mem, ret at 1 2.
  destruct (Z.leb_spec 1 (Z.of_nat (length iov))) as [_|Hl];
    [|destruct iov; simpl in *; [contradiction|lia]].
  destruct (Z.leb_spec sizeof_fuse_out_header (iov_len (iov !!! 0%nat)))
    as [_|]; [|lia].
  destruct (Z.eqb_spec (out_header_unique (w_mem w)
                          (iov_base (iov !!! 0%nat))) 0) as [|_];
    [contradiction|].
  unfold bind at 1, ret at 1. rewrite Hrs. reflexivity.
Qed.

(** C5: the plain reply path.  For a reply (a message whose [unique] is not
    zero) on a request with no reply yet, whose queue's mutex is free: if the
    in vectors' total length admits the reply header and the whole message,
    [virtio_send_msg] copies the message into the in vectors with
    [copy_iov], which returns, pushes the element with the message's length
    and notifies, under the queue's mutex inside a read lock, returns 0 and
    leaves [reply_sent] true; if the total length is below the header's size
    or the message's, it returns [-E2BIG], leaves the state as it was, no
    push with it, and leaves [reply_sent] false.  The memory the successful
    call leaves is spelled out for a reply that shares no address with the
    bytes written: the bytes of the message, in order, stored at the first
    addresses of the in vectors, one vector after the other, and every other
    byte of memory as it was; the in vectors then read back as the message
    when their addresses are all different. *)
Theorem virtio_send_msg_reply se req iov w :
  iov <> [] ->
  sizeof_fuse_out_header <= iov_len (iov !!! 0%nat) ->
  out_header_unique (w_mem w) (iov_base (iov !!! 0%nat)) <> 0 ->
  reply_sent req = false ->
  iov_wf iov -> iov_wf (in_sg (elem req)) ->
  ch_qi req ∉ w_held w ->
  let tosend_len := iov_size iov in
  let in_len := iov_size (in_sg (elem req)) in
  (sizeof_fuse_out_header <= in_len -> tosend_len <= in_len ->
   exists m',
     copy_iov (w_mem w) iov (in_sg (elem req)) tosend_len = Copied m' /\
     virtio_send_msg se (Some req) iov w
     = Ok (0, Some (replied req))
          {| w_mem := m'; w_avail := w_avail w; w_held := w_held w;
             w_trace := w_trace w
                        ++ locked_push (ch_qi req) (elem_index (elem req))
                                       tosend_len;
             w_heap := w_heap w |} /\
     (disjoint_addrs
        (take (Z.to_nat tosend_len) (iov_addrs iov))
        (take (Z.to_nat tosend_len) (iov_addrs (in_sg (elem req)))) ->
      m' = store_bytes (w_mem w)
             (take (Z.to_nat tosend_len) (iov_addrs (in_sg (elem req))))
             (iov_bytes (w_mem w) iov tosend_len) /\
      (forall a,
         a ∉ take (Z.to_nat tosend_len) (iov_addrs (in_sg (elem req))) ->
         m' a = w_mem w a) /\
      (NoDup (take (Z.to_nat tosend_len) (iov_addrs (in_sg (elem req)))) ->
       iov_bytes m' (in_sg (elem req)) tosend_len
       = iov_bytes (w_mem w) iov tosend_len))) /\
  (in_len < sizeof_fuse_out_header \/ in_len < tosend_len ->
   virtio_send_msg se (Some req) iov w = Ok (- E2BIG, Some req) w /\
   reply_sent req = false).
Proof.
  intros Hne Hlen Huniq Hrs Hwi Hwd Hfree tosend_len in_len.
  pose proof (iov_size_bounds iov Hwi) as Hts.
  pose proof (iov_size_bounds _ Hwd) as Hil.
  fold tosend_len in Hts. fold in_len in Hil.
  rewrite virtio_send_msg_reply_unfold by assumption.
  fold tosend_len in_len.
  split.
  - intros H1 H2.
    destruct (copy_iov_returns (w_mem w) iov (in_sg (elem req)) tosend_len)
      as [m' Hm']; try assumption; try lia.
    exists m'. split; [exact Hm'|].
    split;
      [|intros Hdisj;
        apply (copy_iov_gathers (w_mem w) iov (in_sg (elem req)) tosend_len);
        (assumption || lia)].
    destruct (Z.ltb_spec in_len sizeof_fuse_out_header) as [|_]; [lia|].
    destruct (Z.ltb_spec in_len tosend_len) as [|_]; [lia|].
    unfold bind, copy_iov_st. rewrite Hm'.
    unfold pthread_rwlock_rdlock, pthread_mutex_lock, vu_queue_push,
      vu_queue_notify, pthread_mutex_unlock, pthread_rwlock_unlock, log_event,
      ret.
    cbn [w_held set_mem add_event set_held w_mem w_avail w_trace w_heap].
    rewrite (not_held_existsb _ _ Hfree).
    cbn [w_held set_mem add_event set_held w_mem w_avail w_trace w_heap].
    rewrite (filter_released _ _ Hfree).
    unfold locked_push, add_event, set_held, set_mem.
    cbn [w_held w_mem w_avail w_trace w_heap].
    rewrite <- !app_assoc. reflexivity.
  - intros Hsmall. split; [|exact Hrs].
    destruct (Z.ltb_spec in_len sizeof_fuse_out_header) as [|Hge];
      [reflexivity|].
    destruct (Z.ltb_spec in_len tosend_len) as [|]; [reflexivity|lia].
Qed.




Lemma stops_within_notify se iov :
  stops_within not_element_check (virtio_send_notify_msg se iov).
Proof. unfold virtio_send_notify_msg. repeat stops_step. Qed.

Lemma stops_within_send se ch iov :
  stops_within not_element_check (virtio_send_msg se ch iov).
Proof.
  unfold virtio_send_msg.
  repeat first [apply stops_within_notify | stops_step].
Qed.

Lemma stops_within_data_iov_read fuel :
  forall fd skip_size in_sg_ptr count pos len,
  stops_within not_element_check
    (data_iov_read fuel fd skip_size in_sg_ptr count pos len).
Proof.
  induction fuel as [|fuel IH]; intros fd skip_size in_sg_ptr count pos len;
    cbn [data_iov_read].
  - apply stops_within_stop. split; discriminate.
  - destruct (skip_in_sg _ _ _) as [[skip1 ptr1] count1].
    destruct (host_preadv _ _ _) as [[r errno] data].
    repeat first [apply IH | stops_step].
Qed.

Lemma stops_within_send_data se req iov fd pos len :
  stops_within not_element_check (virtio_send_data_iov se req iov fd pos len).
Proof.
  unfold virtio_send_data_iov.
  repeat first [apply stops_within_data_iov_read | stops_step].
Qed.

Lemma stops_within_session se s :
  forall req, stops_within not_element_check (run_session se s req).
Proof.
  induction s as [|addr b k IH|addr k IH|with_ch iov k IH|iov fd pos len k IH];
    intros req; simpl.
  - apply stops_within_ret.
  - repeat stops_step. apply IH.
  - repeat stops_step. apply IH.
  - apply stops_within_bind; [apply stops_within_send|].
    intros [r ch]. apply IH.
  - apply stops_within_bind; [apply stops_within_send_data|].
    intros [r req']. apply IH.
Qed.

Lemma stops_within_finish req :
  stops_within not_element_check (fv_queue_worker_finish req).
Proof. unfold fv_queue_worker_finish. repeat stops_step. Qed.


(** C4, as amended: the worker's two checks on a popped element.  The
    out vectors but the last [bad_out_num] must total at least the size of a
    [fuse_in_header], and ALL the out vectors, the unmappable ones with the
    others, must total at most the session's buffer size.  When the first
    fails the worker aborts at its first check, when the second fails it
    aborts at its second check, and when both hold the worker stops at
    neither, whatever the session does. *)
Theorem fv_queue_worker_element_checks se process qi req w :
  sizeof_fuse_in_header < se_bufsize se ->
  let osg := out_sg (elem req) in
  let out_num_readable := to_uint32 (Z.of_nat (length osg) - bad_out_num req) in
  let out_len := iov_size osg in
  let out_len_readable := iov_size (take (Z.to_nat out_num_readable) osg) in
  let w1 := set_heap (w_heap w + se_bufsize se) w in
  (out_len_readable < sizeof_fuse_in_header ->
   fv_queue_worker se process qi req w = Stop (AssertFailed ChkInHeader) w1) /\
  (sizeof_fuse_in_header <= out_len_readable -> se_bufsize se < out_len ->
   fv_queue_worker se process qi req w = Stop (AssertFailed ChkTooLarge) w1) /\
  (sizeof_fuse_in_header <= out_len_readable -> out_len <= se_bufsize se ->
   result_stop (fv_queue_worker se process qi req w)
     <> Some (AssertFailed ChkInHeader) /\
   result_stop (fv_queue_worker se process qi req w)
     <> Some (AssertFailed ChkTooLarge)).
Proof.
  intros Hbuf osg out_num_readable out_len out_len_readable w1.
  assert (Hquiet : sizeof_fuse_in_header <= out_len_readable ->
                   out_len <= se_bufsize se ->
                   forall why w', fv_queue_worker se process qi req w = Stop why w' ->
                   not_element_check why).
  { intros H1 H2 why w'. unfold fv_queue_worker, fv_queue_worker_setup.
    unfold bind at 1 2 3, assert_that.
    destruct (Z.ltb_spec sizeof_fuse_in_header (se_bufsize se)) as [_|]; [|lia].
    unfold ret at 1, malloc.
    cbn [elem bad_in_num bad_out_num ch_qi reply_sent].
    fold osg. fold out_num_readable. fold out_len_readable. fold out_len.
    destruct (Z.ltb_spec out_len_readable sizeof_fuse_in_header) as [|_]; [lia|].
    destruct (Z.ltb_spec (se_bufsize se) out_len) as [|_]; [lia|].
    match goal with
    | |- match ?m ?w0 with _ => _ end = _ -> _ =>
        change (bind m (fun '(pbufv, req1, _) =>
                  do req2 <- run_session se (process pbufv) req1;
                  fv_queue_worker_finish req2) w0 = Stop why w' ->
                not_element_check why)
    end.
    revert why w'.
    match goal with
    | |- forall why w', ?m ?w0 = _ -> _ =>
        cut (stops_within not_element_check m);
          [intros Hs why w' Hrun; exact (Hs _ _ _ Hrun)|]
    end.
    repeat first [apply stops_within_session | apply stops_within_finish
                 | stops_step]. }
  split; [|split].
  - intros H1. unfold fv_queue_worker, fv_queue_worker_setup.
    unfold bind at 1 2 3, assert_that.
    destruct (Z.ltb_spec sizeof_fuse_in_header (se_bufsize se)) as [_|]; [|lia].
    unfold ret at 1, malloc.
    cbn [elem bad_in_num bad_out_num ch_qi reply_sent].
    fold osg. fold out_num_readable. fold out_len_readable. fold out_len.
    destruct (Z.ltb_spec out_len_readable sizeof_fuse_in_header) as [_|]; [|lia].
    reflexivity.
  - intros H1 H2. unfold fv_queue_worker, fv_queue_worker_setup.
    unfold bind at 1 2 3, assert_that.
    destruct (Z.ltb_spec sizeof_fuse_in_header (se_bufsize se)) as [_|]; [|lia].
    unfold ret at 1, malloc.
    cbn [elem bad_in_num bad_out_num ch_qi reply_sent].
    fold osg. fold out_num_readable. fold out_len_readable. fold out_len.
    destruct (Z.ltb_spec out_len_readable sizeof_fuse_in_header) as [|_]; [lia|].
    destruct (Z.ltb_spec (se_bufsize se) out_len) as [_|]; [|lia].
    reflexivity.
  - intros H1 H2.
    destruct (fv_queue_worker se process qi req w) as [a w'|why w'] eqn:E;
      [split; discriminate|].
    destruct (Hquiet H1 H2 why w' eq_refl) as [Ha Hb].
    split; simpl; congruence.
Qed.

(** *** The pushes of a worker *)

Lemma pushed_if_replied_trace q base idx req w w' :
  pushes_on q (w_trace w') = pushes_on q (w_trace w) ->
  pushed_if_replied q base idx req w -> pushed_if_replied q base idx req w'.
Proof.
  intros Ht (Hq & Hi & Hp). split; [exact Hq|]. split; [exact Hi|].
  destruct (reply_sent req); rewrite Ht; exact Hp.
Qed.

Lemma virtio_send_notify_msg_pushes se iov q w :
  se_qi se 1 <> Some q ->
  wp (virtio_send_notify_msg se iov)
     (fun _ w' => pushes_on q (w_trace w') = pushes_on q (w_trace w)) w.
Proof.
  intros Hq. unfold virtio_send_notify_msg.
  repeat wp_step.
  all: trace_simpl; rewrite ?pushes_on_snoc, ?app_nil_r; try reflexivity.
  destruct (Nat.eqb_spec n q) as [->|_]; [contradiction|].
  rewrite app_nil_r. reflexivity.
Qed.

Lemma virtio_send_msg_pushes se (with_ch : bool) iov q base idx req w :
  se_qi se 1 <> Some q ->
  pushed_if_replied q base idx req w ->
  wp (virtio_send_msg se (if with_ch then Some req else None) iov)
     (fun '(_, ch) w' => pushed_if_replied q base idx (default req ch) w') w.
Proof.
  intros Hq Hinv. unfold virtio_send_msg.
  do 6 wp_step.
  destruct (_ =? 0) eqn:Hu.
  - (* a notification *)
    apply wp_bind.
    eapply wp_mono; [apply (virtio_send_notify_msg_pushes se iov q w Hq)|].
    intros r w' Ht. apply wp_ret.
    eapply pushed_if_replied_trace; [exact Ht|].
    destruct with_ch; exact Hinv.
  - destruct with_ch; [|apply wp_stop].
    destruct Hinv as (Hcq & Hidx & Hp).
    repeat wp_step.
    1,2: simpl; split; [exact Hcq|split; [exact Hidx|exact Hp]].
    cbn [default].
    split; [exact Hcq|]. split; [exact Hidx|]. cbn [reply_sent]. trace_simpl.
    match goal with H : negb (reply_sent req) = true |- _ =>
      apply negb_true_iff in H; rewrite H in Hp end.
    exists (iov_size iov).
    rewrite !pushes_on_snoc, !app_nil_r, Hcq, Nat.eqb_refl, Hp, Hidx.
    reflexivity.
Qed.

Lemma data_iov_read_spec fuel :
  preadv_sets_errno host ->
  forall fd skip_size in_sg_ptr count pos len w,
  wp (data_iov_read fuel fd skip_size in_sg_ptr count pos len)
     (fun r w' => w_trace w' = w_trace w /\
                  match r with inl err => err <> 0 | inr _ => True end) w.
Proof.
  intros Hhost. induction fuel as [|fuel IH];
    intros fd skip_size in_sg_ptr count pos len w; cbn [data_iov_read].
  - apply wp_stop.
  - destruct (skip_in_sg _ _ _) as [[skip1 ptr1] count1].
    pose proof (Hhost fd (take (Z.to_nat count1) ptr1) pos) as Herr.
    destruct (host_preadv _ _ _) as [[nread errno] data]. simpl in Herr.
    cbv zeta.
    repeat wp_step.
    all: try (eapply wp_mono; [apply IH|]; intros a w' [Ht Ha];
              split; [rewrite Ht; reflexivity|exact Ha]).
    all: (split; [reflexivity|]); try exact I.
    + destruct Herr as [[_ Herr]|Hfits]; [exact Herr|].
      rewrite to_int32_small in * by lia. lia.
    + discriminate.
Qed.

Lemma data_iov_unmappable_err bad :
  io_request_errno host ->
  forall fd in_sg_ptr pos len err,
  data_iov_unmappable bad fd in_sg_ptr pos len = inl err -> err <> 0.
Proof.
  intros Hhost.
  induction bad as [|bad IH]; intros fd in_sg_ptr pos len err;
    cbn [data_iov_unmappable]; destruct (len =? 0); try discriminate.
  cbv zeta. destruct (0 <? _) eqn:Hpos; [apply IH|].
  destruct (_ =? 0) eqn:Hz; [discriminate|].
  intros H. injection H as <-.
  apply Z.ltb_ge in Hpos. apply Z.eqb_neq in Hz.
  match goal with |- to_int32 (host_io_request ?sm ?f) <> 0 =>
    pose proof (Hhost sm f) as Hfit
  end.
  rewrite to_int32_small by lia. lia.
Qed.

Lemma virtio_send_data_iov_pushes se iov fd pos len q base idx req w :
  preadv_sets_errno host -> io_request_errno host ->
  pushed_if_replied q base idx req w ->
  wp (virtio_send_data_iov se req iov fd pos len)
     (fun '(_, req') w' => pushed_if_replied q base idx req' w') w.
Proof.
  intros Hhost Hio (Hcq & Hidx & Hp). unfold virtio_send_data_iov.
  cbv zeta. change (- E2BIG =? 0) with false. cbv iota.
  do 14 wp_step.
  match goal with H : negb (reply_sent req) = true |- _ =>
    apply negb_true_iff in H; rename H into Hrs end.
  rewrite Hrs in Hp.
  assert (Hsame : forall m1 : mem,
            pushed_if_replied q base idx req (set_mem m1 w)).
  { intros m1. split; [exact Hcq|]. split; [exact Hidx|].
    rewrite Hrs. exact Hp. }
  wp_step; [wp_step; apply Hsame|].
  wp_step; [wp_step; apply Hsame|].
  wp_step. wp_step.
  wp_step.
  eapply wp_mono; [apply (data_iov_read_spec _ Hhost)|].
  intros r w1 [Ht Hr]. cbn [w_trace set_mem] in Ht.
  assert (Hsame1 : pushed_if_replied q base idx req w1).
  { split; [exact Hcq|]. split; [exact Hidx|]. rewrite Hrs, Ht. exact Hp. }
  destruct r as [err|[[ptr pos'] len']].
  { apply Z.eqb_neq in Hr. rewrite Hr. apply wp_ret. exact Hsame1. }
  destruct (data_iov_unmappable _ _ _ _ _) as [err|len''] eqn:Hbad.
  { apply (data_iov_unmappable_err _ Hio) in Hbad. apply Z.eqb_neq in Hbad.
    rewrite Hbad. apply wp_ret. exact Hsame1. }
  change (0 =? 0) with true. cbv iota.
  repeat wp_step.
  all: split; [exact Hcq|split; [exact Hidx|]].
  all: cbn [reply_sent]; trace_simpl.
  all: eexists; rewrite !pushes_on_snoc, !app_nil_r, Hcq, Nat.eqb_refl, Ht, Hp,
         Hidx; reflexivity.
Qed.

Lemma run_session_pushes se s q base idx :
  preadv_sets_errno host -> io_request_errno host -> se_qi se 1 <> Some q ->
  forall req w,
  pushed_if_replied q base idx req w ->
  wp (run_session se s req)
     (fun req' w' => pushed_if_replied q base idx req' w') w.
Proof.
  intros Hhost Hio Hq.
  induction s as [|addr b k IH|addr k IH|with_ch iov k IH|iov fd pos len k IH];
    intros req w Hinv; cbn [run_session].
  - apply wp_ret. exact Hinv.
  - do 3 wp_step. apply IH.
    eapply pushed_if_replied_trace; [|exact Hinv]. reflexivity.
  - wp_step. wp_step. apply IH. exact Hinv.
  - apply wp_bind.
    eapply wp_mono; [apply (virtio_send_msg_pushes _ _ _ _ _ _ _ _ Hq Hinv)|].
    intros [r ch] w' Hinv'. apply IH. exact Hinv'.
  - apply wp_bind.
    eapply wp_mono; [apply (virtio_send_data_iov_pushes _ _ _ _ _ _ _ _ _ _
                              Hhost Hio Hinv)|].
    intros [r req'] w' Hinv'. apply IH. exact Hinv'.
Qed.

Lemma fv_queue_worker_setup_trace se qi req w :
  wp (fv_queue_worker_setup se qi req)
     (fun '(_, req', _) w' => w_trace w' = w_trace w /\
                              req' = bound_to qi req) w.
Proof.
  unfold fv_queue_worker_setup.
  repeat first [ wp_step
               | match goal with
                 | |- wp (copy_from_iov_st _ _) _ _ =>
                     unfold wp at 1, copy_from_iov_st, bind, get_mem, put_mem
                 | |- wp (malloc _) _ _ => unfold wp at 1, malloc
                 end ].
  all: split; reflexivity.
Qed.

(** When the worker returns, and its queue is not the notification queue,
    the element it was given has been pushed on its queue exactly once since
    the worker began, and nothing else has been pushed on that queue. *)
Lemma fv_queue_worker_pushes_once se process qi req w w' :
  preadv_sets_errno host -> io_request_errno host -> se_qi se 1 <> Some qi ->
  reply_sent req = false ->
  fv_queue_worker se process qi req w = Ok tt w' ->
  exists len,
    pushes_on qi (w_trace w')
    = pushes_on qi (w_trace w) ++ [(elem_index (elem req), len)].
Proof.
  intros Hhost Hio Hq Hrs Hrun.
  cut (wp (fv_queue_worker se process qi req)
          (fun _ w' => exists len,
             pushes_on qi (w_trace w')
             = pushes_on qi (w_trace w) ++ [(elem_index (elem req), len)]) w).
  { unfold wp. rewrite Hrun. intros H. exact H. }
  unfold fv_queue_worker. apply wp_bind.
  eapply wp_mono; [apply fv_queue_worker_setup_trace|].
  intros [[pbufv req1] p] w1 [Ht ->]. apply wp_bind.
  eapply wp_mono.
  { apply (run_session_pushes se (process pbufv) qi (pushes_on qi (w_trace w))
             (elem_index (elem req)) Hhost Hio Hq).
    split; [reflexivity|]. split; [reflexivity|].
    cbn [bound_to reply_sent]. rewrite Hrs, Ht. reflexivity. }
  intros req2 w2 (Hcq & Hidx & Hp). unfold fv_queue_worker_finish.
  destruct (reply_sent req2).
  - repeat wp_step. destruct Hp as [len Hp]. exists len.
    trace_simpl. rewrite pushes_on_snoc, app_nil_r.
    exact Hp.
  - repeat wp_step. exists 0.
    trace_simpl. rewrite !pushes_on_snoc, !app_nil_r, Hcq, Nat.eqb_refl, Hp, Hidx.
    reflexivity.
Qed.
End DaemonProperties.

(** *** The daemon-side statements at concrete requests *)

Lemma virtio_send_msg_notify_disabled_witness :
  virtio_send_msg (abi := linux_fuse_abi) (example_session false) None
    [ {| iov_base := 512; iov_len := 24 |} ] (example_world short_notify_buffer)
  = Ok (- EOPNOTSUPP, None) (example_world short_notify_buffer).
Proof.
  apply (virtio_send_msg_notify_disabled (abi := linux_fuse_abi)
           (example_session false) None
           [ {| iov_base := 512; iov_len := 24 |} ]
           (example_world short_notify_buffer)).
  - discriminate.
  - simpl. lia.
  - reflexivity.
  - reflexivity.
Defined.

Lemma virtio_send_msg_reply_witness :
  let iov := [ {| iov_base := 8192; iov_len := 16 |};
               {| iov_base := 12288; iov_len := 80 |} ] in
  let w := example_world (fun _ => []) in
  exists m',
    copy_iov (w_mem w) iov (in_sg (elem example_request)) (iov_size iov)
      = Copied m' /\
    virtio_send_msg (abi := linux_fuse_abi) (example_session false)
      (Some example_request) iov w
    = Ok (0, Some (replied example_request))
         {| w_mem := m'; w_avail := w_avail w; w_held := w_held w;
            w_trace := w_trace w ++ locked_push 2 0 (iov_size iov);
            w_heap := w_heap w |} /\
    m' <$> seqZ 131072 96
    = (w_mem w <$> seqZ 8192 16) ++ (w_mem w <$> seqZ 12288 80) /\
    (forall a, a ∉ seqZ 131072 96 -> m' a = w_mem w a).
Proof.
  intros iov w.
  destruct (virtio_send_msg_reply (abi := linux_fuse_abi)
              (example_session false) example_request iov w)
    as [Hfits _].
  - discriminate.
  - simpl. lia.
  - vm_compute. discriminate.
  - reflexivity.
  - repeat constructor; simpl; unfold UINT64_MOD; lia.
  - repeat constructor; simpl; unfold UINT64_MOD; lia.
  - apply not_elem_of_nil.
  - destruct Hfits as (m' & Hcopy & Hrun & Hmem).
    + vm_compute. discriminate.
    + vm_compute. discriminate.
    + exists m'. split; [exact Hcopy|]. split; [exact Hrun|].
      destruct Hmem as (_ & Hout & Hback).
      * apply disjoint_addrs_Forall. apply (bool_decide_unpack _).
        vm_compute. exact I.
      * split; [|exact Hout].
        rewrite <- fmap_app. apply Hback.
        apply (bool_decide_unpack _). vm_compute. exact I.
Defined.


(** The request of the witness is a WRITE: the opcode decoded from the
    bounce buffer is [FUSE_WRITE]. *)
Lemma two_vector_write_request_opcode :
  in_header_opcode (FuseAbi := linux_fuse_abi)
    (copy_from_iov (w_mem write_world) 1048576
       (take 1 (out_sg (elem two_vector_write_request)))) 1048576
  = FUSE_WRITE (FuseAbi := linux_fuse_abi).
Proof. vm_compute. reflexivity. Qed.

Lemma fv_queue_worker_element_checks_witness :
  result_stop (fv_queue_worker (abi := linux_fuse_abi) (host := example_host) (example_session false)
                 silent_session 2 example_request (example_world (fun _ => [])))
    <> Some (AssertFailed ChkInHeader) /\
  result_stop (fv_queue_worker (abi := linux_fuse_abi) (host := example_host) (example_session false)
                 silent_session 2 example_request (example_world (fun _ => [])))
    <> Some (AssertFailed ChkTooLarge).
Proof.
  assert (Hbuf : sizeof_fuse_in_header (FuseAbi := linux_fuse_abi)
                 < se_bufsize (example_session false)) by (simpl; lia).
  destruct (fv_queue_worker_element_checks (abi := linux_fuse_abi)
              (host := example_host)
              (example_session false) silent_session 2 example_request
              (example_world (fun _ => [])) Hbuf) as (_ & _ & Hpass).
  apply Hpass.
  - vm_compute. discriminate.
  - vm_compute. discriminate.
Defined.

(** The two preconditions as the claim has them hold of a write whose
    payload vector is unmappable and larger than the session's buffer: its
    readable vectors total 80 bytes, at least a header and at most the
    buffer size.  The worker aborts all the same, at its second check, since
    that check adds up all the out vectors. *)
Lemma fv_queue_worker_unmappable_too_large :
  let req := unmappable_write_request in
  let se := example_session false in
  let osg := out_sg (elem req) in
  let out_num_readable := to_uint32 (Z.of_nat (length osg) - bad_out_num req) in
  let out_len_readable := iov_size (take (Z.to_nat out_num_readable) osg) in
  sizeof_fuse_in_header (FuseAbi := linux_fuse_abi) <= out_len_readable /\
  out_len_readable <= se_bufsize se /\
  result_stop (fv_queue_worker (abi := linux_fuse_abi) (host := example_host) se silent_session 2 req
                 (example_world (fun _ => [])))
  = Some (AssertFailed ChkTooLarge).
Proof.
  split; [vm_compute; discriminate|].
  split; [vm_compute; discriminate|].
  vm_compute. reflexivity.
Qed.

(** C1: the notification sender's error paths.

    When the one element of the notification queue has an in vector too
    small for the message, [virtio_send_notify_msg] pops it, returns
    [-E2BIG] and frees it: the element has been popped and is never pushed.
    The request being worked on is pushed once, with length 0.

    When the notification queue is empty, [virtio_send_notify_msg] returns
    [-ENOSPC] with the dispatch read lock and the queue's mutex still taken.
    The request being worked on is pushed once, with length 0, and the worker
    returns holding the mutex of queue 1.  The next request whose session
    sends a notification blocks on that mutex: it is popped and handed to
    the worker, and never pushed (the pushes on queue 2 are the one of
    element 0 alone). *)
Theorem fv_queue_worker_notify_error_paths :
  let se := example_session true in
  let run1 :=
    fv_queue_worker (abi := linux_fuse_abi) (host := example_host) se notifying_session 2
      example_request (example_world short_notify_buffer) in
  let run2 :=
    fv_queue_worker (abi := linux_fuse_abi) (host := example_host) se notifying_session 2
      example_request (example_world (fun _ => [])) in
  let run3 :=
    (run fv_queue_worker (abi := linux_fuse_abi) (host := example_host) se notifying_session 2
           example_request;
     fv_queue_worker (abi := linux_fuse_abi) (host := example_host) se notifying_session 2
       example_request') (example_world (fun _ => [])) in
  (result_stop run1 = None /\
   result_trace run1
   = [EvRdLock; EvLock 1; EvPop 1 7; EvUnlock 1; EvRwUnlock; EvFree 7]
       ++ locked_push 2 0 0 ++ [EvFree 0]) /\
  (result_stop run2 = None /\
   result_trace run2 = [EvRdLock; EvLock 1] ++ locked_push 2 0 0 ++ [EvFree 0] /\
   match run2 with Ok _ w' => w_held w' = [1%nat] | Stop _ _ => False end) /\
  (result_stop run3 = Some Deadlock /\
   result_trace run3
   = [EvRdLock; EvLock 1] ++ locked_push 2 0 0 ++ [EvFree 0] ++ [EvRdLock] /\
   pushes_on 2 (result_trace run3) = [(0, 0)]).
Proof.
  split; [split; vm_compute; reflexivity|].
  split; [split; [|split]; vm_compute; reflexivity|].
  split; [|split]; vm_compute; reflexivity.
Qed.
(** ** Further properties of the device side *)

Section DeviceExtras.

Variable N : nat.
Variable host_call : list syscall -> syscall -> Z * Z.
Variable memory_region_find : Z -> Z -> MemoryRegionSection.

Local Abbreviation slave_map := (vhost_user_fs_slave_map N host_call).
Local Abbreviation slave_unmap := (vhost_user_fs_slave_unmap N host_call).
Local Abbreviation slave_sync := (vhost_user_fs_slave_sync N host_call).
Local Abbreviation slave_io :=
  (vhost_user_fs_slave_io N host_call memory_region_find).
Local Abbreviation io_while := (slave_io_while host_call memory_region_find).
Local Abbreviation io_loop := (slave_io_loop host_call memory_region_find).

(** MAP's loop when every entry it meets is mapped. *)
Lemma slave_map_loop_maps fs sm fd h k :
  (forall j, (j < k)%nat -> sm_len sm !!! j <> 0 ->
     bad_offset_len (sm_c_offset sm !!! j) (sm_len sm !!! j) (cache_size fs)
       = false /\
     (host_call (h ++ map_calls fs sm fd j) (map_call fs sm fd j)).1
       = cache_host fs + sm_c_offset sm !!! j) ->
  forall n i0, (i0 + n = k)%nat ->
  slave_map_loop host_call fs sm fd n i0 (h ++ map_calls fs sm fd i0)
  = (0, h ++ map_calls fs sm fd k).
Proof.
  intros Hpre. induction n as [|n IH]; intros i0 Hi.
  - replace i0 with k by lia. reflexivity.
  - cbn [slave_map_loop]. specialize (IH (S i0)). rewrite map_calls_S in IH.
    destruct (Z.eqb_spec (sm_len sm !!! i0) 0) as [Hz|Hz].
    + rewrite app_nil_r in IH. apply IH. lia.
    + destruct (Hpre i0) as [-> Hok]; [lia|assumption|].
      destruct (host_call (h ++ map_calls fs sm fd i0) (map_call fs sm fd i0))
        as [ret errno]. simpl in Hok. subst ret.
      rewrite Z.eqb_refl. rewrite <- app_assoc. apply IH. lia.
Qed.

(** X1: MAP, the path without a failure.  With the cache present and a valid
    fd, when every non-empty entry lies within the cache and its [mmap]
    gives the address asked for, MAP returns 0, has asked for exactly the
    mappings of the non-empty entries, in order, leaves the message as it
    was, and does not call UNMAP. *)
Theorem slave_map_maps_all fs sm fd h :
  cache_size fs <> 0 -> 0 <= fd ->
  (forall j, (j < N)%nat -> sm_len sm !!! j <> 0 ->
     bad_offset_len (sm_c_offset sm !!! j) (sm_len sm !!! j) (cache_size fs)
       = false /\
     (host_call (h ++ map_calls fs sm fd j) (map_call fs sm fd j)).1
       = cache_host fs + sm_c_offset sm !!! j) ->
  slave_map (Some fs) sm fd h = (0, sm, h ++ map_calls fs sm fd N).
Proof.
  intros Hcs Hfd Hpre. unfold vhost_user_fs_slave_map.
  destruct (Z.eqb_spec (cache_size fs) 0) as [|_]; [contradiction|].
  destruct (Z.ltb_spec fd 0) as [|_]; [lia|].
  pose proof (slave_map_loop_maps fs sm fd h N Hpre N 0%nat eq_refl) as Hloop.
  change (map_calls fs sm fd 0) with (@nil syscall) in Hloop.
  rewrite app_nil_r in Hloop. rewrite Hloop. reflexivity.
Qed.

(** The result UNMAP holds after [k] turns of its loop: never positive, and
    negative once an entry has been found outside the cache. *)
Lemma slave_unmap_fold_res fs sm h k :
  cache_size fs <> 0 -> mmap_sets_errno host_call ->
  (k <= length (sm_len sm))%nat ->
  let res := (foldl (slave_unmap_step host_call fs) (sm, 0, h) (seq 0 k)).1.2 in
  - 2 ^ 31 < res <= 0 /\
  (forall i, (i < k)%nat -> sm_len sm !!! i <> 0 ->
     bad_offset_len (sm_c_offset sm !!! i)
                    (whole_cache_len fs (sm_len sm !!! i)) (cache_size fs)
     = true -> res < 0).
Proof.
  intros Hcs Herrno. induction k as [|k IH]; intros Hk.
  - simpl. split; [lia|]. intros i Hi. lia.
  - destruct IH as [Hrange Hneg]; [lia|].
    destruct (slave_unmap_fold host_call fs sm h k Hcs) as [res0 Hfold];
      [lia|].
    rewrite seq_S, foldl_snoc. change (0 + k)%nat with k.
    rewrite Hfold in *. cbn [fst snd] in Hrange, Hneg.
    destruct (lookup_lt_is_Some_2 (sm_len sm) k) as [lk Hlk]; [lia|].
    unfold slave_unmap_step.
    cbn [sm_len sm_c_offset sm_flags sm_fd_offset].
    rewrite (prefix_lookup _ _ _ _ Hlk).
    assert (Hlk' : sm_len sm !!! k = lk)
      by (apply list_lookup_total_correct; exact Hlk).
    assert (Hstep : forall i, (i < S k)%nat -> (i < k)%nat \/ i = k)
      by (intros; lia).
    destruct (Z.eqb_spec lk 0) as [->|Hnz].
    { cbn [fst snd]. split; [exact Hrange|].
      intros i Hi Hl Hb. destruct (Hstep i Hi) as [Hlt| ->].
      - apply (Hneg i Hlt Hl Hb).
      - contradiction. }
    set (sm1 := if lk =? UINT64_ALL_ONES then _ else _).
    assert (Hl1 : sm_len sm1 !!! k = whole_cache_len fs lk).
    { subst sm1. unfold whole_cache_len.
      destruct (Z.eqb_spec lk UINT64_ALL_ONES) as [Ho|Ho];
        cbn [sm_len].
      - apply list_lookup_total_insert_eq.
        rewrite length_app, length_fmap, length_take, length_drop. lia.
      - apply (prefix_lookup _ _ _ _ Hlk). }
    assert (Hc1 : sm_c_offset sm1 !!! k = sm_c_offset sm !!! k).
    { subst sm1. destruct (lk =? UINT64_ALL_ONES); reflexivity. }
    rewrite Hl1, Hc1.
    destruct (bad_offset_len _ _ _) eqn:Hbad.
    { cbn [fst snd]. split; [lia|]. intros; lia. }
    pose proof (Herrno (h ++ flat_map (unmap_call fs (rewritten_msg fs sm))
                                      (seq 0 k))
                  (SysMmapAnon (cache_host fs + sm_c_offset sm !!! k)
                               (whole_cache_len fs lk))
                  _ eq_refl) as He.
    destruct (host_call _ _) as [ptr errno]. cbn [fst snd] in He.
    destruct (Z.eqb_spec ptr (cache_host fs + sm_c_offset sm !!! k))
      as [Heq|Hne]; cbn [fst snd].
    + split; [exact Hrange|].
      intros i Hi Hl Hb. destruct (Hstep i Hi) as [Hlt| ->].
      * apply (Hneg i Hlt Hl Hb).
      * rewrite Hlk' in Hb. congruence.
    + specialize (He Hne). split; [lia|]. intros; lia.
Qed.

(** X2: UNMAP goes on after a failure and still reports it.  With the cache
    present, when some non-empty entry reaches outside the cache (its length
    read as the cache size if it is all-ones), the result is negative as
    [int64_t], whatever the entries after it give. *)
Theorem slave_unmap_bad_entry_fails fs sm h i :
  cache_size fs <> 0 -> mmap_sets_errno host_call ->
  length (sm_len sm) = N -> (i < N)%nat ->
  sm_len sm !!! i <> 0 ->
  bad_offset_len (sm_c_offset sm !!! i)
                 (whole_cache_len fs (sm_len sm !!! i)) (cache_size fs) = true ->
  is_failure (slave_unmap (Some fs) sm h).1.1 = true.
Proof.
  intros Hcs Herrno Hlen Hi Hnz Hbad.
  destruct (slave_unmap_fold_res fs sm h N Hcs Herrno) as [Hrange Hneg];
    [lia|].
  specialize (Hneg i Hi Hnz Hbad).
  unfold vhost_user_fs_slave_unmap.
  destruct (Z.eqb_spec (cache_size fs) 0) as [|_]; [contradiction|].
  destruct (foldl _ _ _) as [[sm' res] h']. cbn [fst snd] in *.
  replace res with (- (- res)) by lia. apply is_failure_neg. lia.
Qed.

(** SYNC after [k] turns of its loop. *)
Lemma slave_sync_fold fs sm h k :
  msync_sets_errno host_call ->
  let st := foldl (slave_sync_step host_call fs sm) (0, h) (seq 0 k) in
  st.2 = h ++ flat_map (sync_call fs sm) (seq 0 k) /\
  - 2 ^ 31 < st.1 <= 0 /\
  (forall i, (i < k)%nat -> sm_len sm !!! i <> 0 ->
     bad_offset_len (sm_c_offset sm !!! i) (sm_len sm !!! i) (cache_size fs)
     = true -> st.1 < 0).
Proof.
  intros Herrno. induction k as [|k IH].
  - simpl. rewrite app_nil_r. split; [reflexivity|]. split; [lia|].
    intros i Hi. lia.
  - rewrite seq_S, foldl_snoc, flat_map_app. change (0 + k)%nat with k.
    cbn zeta in IH. destruct (foldl _ _ (seq 0 k)) as [res0 h0].
    cbn [fst snd] in IH. destruct IH as (-> & Hrange & Hneg).
    assert (Hstep : forall i, (i < S k)%nat -> (i < k)%nat \/ i = k)
      by (intros; lia).
    cbn zeta. unfold slave_sync_step. simpl flat_map. rewrite app_nil_r.
    assert (Hsc : sync_call fs sm k
                  = if sm_len sm !!! k =? 0 then []
                    else if bad_offset_len (sm_c_offset sm !!! k)
                              (sm_len sm !!! k) (cache_size fs) then []
                    else [SysMsync (cache_host fs + sm_c_offset sm !!! k)
                                   (sm_len sm !!! k)]) by reflexivity.
    rewrite Hsc. clear Hsc.
    destruct (Z.eqb_spec (sm_len sm !!! k) 0) as [Hz|Hnz].
    { cbn [fst snd]. rewrite !app_nil_r. split; [reflexivity|].
      split; [exact Hrange|]. intros i Hi Hl Hb.
      destruct (Hstep i Hi) as [Hlt| ->]; [apply (Hneg i Hlt Hl Hb)|].
      contradiction. }
    destruct (bad_offset_len _ _ _) eqn:Hbad.
    { cbn [fst snd]. rewrite !app_nil_r. split; [reflexivity|].
      split; [lia|]. intros; lia. }
    pose proof (Herrno (h ++ flat_map (sync_call fs sm) (seq 0 k))
                  (cache_host fs + sm_c_offset sm !!! k) (sm_len sm !!! k))
      as He.
    destruct (host_call _ _) as [r errno]. cbn [fst snd] in He.
    rewrite <- app_assoc.
    destruct (Z.eqb_spec r 0) as [Hr|Hr]; cbn [fst snd].
    + split; [reflexivity|]. split; [exact Hrange|]. intros i Hi Hl Hb.
      destruct (Hstep i Hi) as [Hlt| ->]; [apply (Hneg i Hlt Hl Hb)|].
      congruence.
    + specialize (He Hr). split; [reflexivity|]. split; [lia|]. intros; lia.
Qed.

(** X3: SYNC is best effort.  With the cache present it asks for an [msync]
    of every non-empty entry that lies within the cache, in order, whatever
    the entries before gave; and when some non-empty entry reaches outside
    the cache its result is negative as [int64_t], although the entries
    after that one have been synced. *)
Theorem slave_sync_best_effort fs sm h :
  cache_size fs <> 0 -> msync_sets_errno host_call ->
  (slave_sync fs sm h).2 = h ++ flat_map (sync_call fs sm) (seq 0 N) /\
  (forall i, (i < N)%nat -> sm_len sm !!! i <> 0 ->
     bad_offset_len (sm_c_offset sm !!! i) (sm_len sm !!! i) (cache_size fs)
     = true ->
     is_failure (slave_sync fs sm h).1 = true).
Proof.
  intros Hcs Herrno. unfold vhost_user_fs_slave_sync.
  destruct (Z.eqb_spec (cache_size fs) 0) as [|_]; [contradiction|].
  pose proof (slave_sync_fold fs sm h N Herrno) as Hf. cbn zeta in Hf.
  destruct (foldl _ _ _) as [res h']. cbn [fst snd] in *.
  destruct Hf as (-> & Hrange & Hneg). split; [reflexivity|].
  intros i Hi Hl Hb. specialize (Hneg i Hi Hl Hb).
  replace res with (- (- res)) by lia. apply is_failure_neg. lia.
Qed.

(** The loops over a message whose entries are all empty. *)
Lemma slave_map_loop_empty fs sm fd h :
  (forall i, (i < N)%nat -> sm_len sm !!! i = 0) ->
  forall n i, (i + n <= N)%nat ->
  slave_map_loop host_call fs sm fd n i h = (0, h).
Proof.
  intros He. induction n as [|n IH]; intros i Hi; cbn [slave_map_loop];
    [reflexivity|].
  rewrite He by lia. change (0 =? 0) with true. cbv iota. apply IH. lia.
Qed.

Lemma slave_unmap_fold_empty fs sm h l :
  (forall i, (i < N)%nat -> sm_len sm !!! i = 0) ->
  Forall (fun i => (i < N)%nat) l ->
  foldl (slave_unmap_step host_call fs) (sm, 0, h) l = (sm, 0, h).
Proof.
  intros He. induction 1 as [|i l Hi Hl IH]; [reflexivity|].
  cbn [foldl]. unfold slave_unmap_step at 2. rewrite He by exact Hi.
  change (0 =? 0) with true. cbv iota. exact IH.
Qed.

Lemma slave_sync_fold_empty fs sm h l :
  (forall i, (i < N)%nat -> sm_len sm !!! i = 0) ->
  Forall (fun i => (i < N)%nat) l ->
  foldl (slave_sync_step host_call fs sm) (0, h) l = (0, h).
Proof.
  intros He. induction 1 as [|i l Hi Hl IH]; [reflexivity|].
  cbn [foldl]. unfold slave_sync_step at 2. rewrite He by exact Hi.
  change (0 =? 0) with true. cbv iota. exact IH.
Qed.

Lemma slave_io_loop_empty fuel sm fd h :
  (forall i, (i < N)%nat -> sm_len sm !!! i = 0) ->
  forall n i, (i + n <= N)%nat ->
  io_loop fuel sm fd n i 0 0 h = Some (inl (0, 0, h)).
Proof.
  intros He. induction n as [|n IH]; intros i Hi; cbn [slave_io_loop];
    [reflexivity|].
  rewrite He by lia. change (0 =? 0) with true. cbn [negb]. cbv iota.
  apply IH. lia.
Qed.

Lemma seq_below n : Forall (fun i => (i < n)%nat) (seq 0 n).
Proof. apply Forall_forall. intros i Hi. apply elem_of_seq in Hi. lia. Qed.

(** X4: a message with no entry to act on.  With the cache present and a
    valid fd, when every length of the message is zero, MAP, UNMAP and SYNC
    return 0 without a system call and leave the message as it was, and IO
    returns 0 after closing the file descriptor, its only call. *)
Theorem slave_ops_empty_message fs sm fd h fuel :
  cache_size fs <> 0 -> 0 <= fd ->
  (forall i, (i < N)%nat -> sm_len sm !!! i = 0) ->
  vhost_user_fs_slave_map N host_call (Some fs) sm fd h = (0, sm, h) /\
  slave_unmap (Some fs) sm h = (0, sm, h) /\
  slave_sync fs sm h = (0, h) /\
  slave_io fuel (Some fs) sm fd h = IoRet 0 (h ++ [SysClose fd]).
Proof.
  intros Hcs Hfd He.
  unfold vhost_user_fs_slave_map, vhost_user_fs_slave_unmap,
    vhost_user_fs_slave_sync, vhost_user_fs_slave_io.
  destruct (Z.eqb_spec (cache_size fs) 0) as [|_]; [contradiction|].
  destruct (Z.ltb_spec fd 0) as [|_]; [lia|].
  rewrite slave_map_loop_empty, slave_io_loop_empty by (exact He || lia).
  rewrite slave_unmap_fold_empty, slave_sync_fold_empty
    by (exact He || apply seq_below).
  repeat split; reflexivity.
Qed.

Lemma adds_transfers_refl fd h r :
  match r with
  | Some (inl (_, _, h')) | Some (inr h') => h' = h
  | None => True
  end -> adds_transfers fd h r.
Proof.
  destruct r as [[[[res done] h']|h']|]; simpl; [| |trivial];
    intros ->; exists []; rewrite app_nil_r; split; constructor.
Qed.

Lemma adds_transfers_step fd h c r :
  is_transfer fd c -> adds_transfers fd (h ++ [c]) r -> adds_transfers fd h r.
Proof.
  intros Hc. destruct r as [[[[res done] h']|h']|]; simpl; [| |trivial];
    intros (ios & -> & Hios); exists (c :: ios); rewrite <- app_assoc;
    (split; [reflexivity|constructor; assumption]).
Qed.

Lemma slave_io_while_calls fuel flags gpa fd_off fd :
  forall len res done h,
  adds_transfers fd h (io_while fuel flags gpa fd_off fd len res done h).
Proof.
  induction fuel as [|fuel IH]; intros len res done h; cbn [slave_io_while].
  - destruct ((len =? 0) || negb (res =? 0));
      apply adds_transfers_refl; reflexivity.
  - destruct ((len =? 0) || negb (res =? 0));
      [apply adds_transfers_refl; reflexivity|].
    destruct (mrs_size _ =? 0); [apply adds_transfers_refl; reflexivity|].
    destruct (negb (Z.land flags VHOST_USER_FS_FLAG_MAP_R =? 0)).
    + destruct (mrs_readonly _); [apply adds_transfers_refl; reflexivity|].
      cbv zeta. destruct (host_call _ _) as [transferred errno].
      match goal with |- context [h ++ [?c]] =>
        apply (adds_transfers_step fd h c); [exact eq_refl|] end.
      destruct (transferred <? 0); [apply adds_transfers_refl; reflexivity|].
      destruct (transferred =? 0); [apply adds_transfers_refl; reflexivity|].
      apply IH.
    + destruct (Z.land flags VHOST_USER_FS_FLAG_MAP_W =? 0);
        [apply adds_transfers_refl; reflexivity|].
      cbv zeta. destruct (host_call _ _) as [transferred errno].
      match goal with |- context [h ++ [?c]] =>
        apply (adds_transfers_step fd h c); [exact eq_refl|] end.
      destruct (transferred <? 0); [apply adds_transfers_refl; reflexivity|].
      destruct (transferred =? 0); [apply adds_transfers_refl; reflexivity|].
      apply IH.
Qed.

Lemma adds_transfers_trans fd h h1 r :
  (exists ios, h1 = h ++ ios /\ Forall (is_transfer fd) ios) ->
  adds_transfers fd h1 r -> adds_transfers fd h r.
Proof.
  intros (ios1 & -> & H1).
  destruct r as [[[[res done] h']|h']|]; simpl; [| |trivial];
    intros (ios & -> & Hios); exists (ios1 ++ ios); rewrite app_assoc;
    (split; [reflexivity|apply Forall_app; split; assumption]).
Qed.

Lemma slave_io_loop_calls fuel sm fd :
  forall n i res done h,
  adds_transfers fd h (io_loop fuel sm fd n i res done h).
Proof.
  induction n as [|n IH]; intros i res done h; cbn [slave_io_loop].
  - apply adds_transfers_refl; reflexivity.
  - destruct (negb (res =? 0)); [apply adds_transfers_refl; reflexivity|].
    destruct (sm_len sm !!! i =? 0); [apply IH|].
    pose proof (slave_io_while_calls fuel (sm_flags sm !!! i)
                  (sm_c_offset sm !!! i) (sm_fd_offset sm !!! i) fd
                  (sm_len sm !!! i) res done h) as Hw.
    destruct (io_while _ _ _ _ _ _ _ _ _) as [[[[res' done'] h']|h']|];
      [|exact Hw|exact I].
    eapply adds_transfers_trans; [exact Hw|apply IH].
Qed.

(** X5: IO owns the file descriptor it is given.  With a device and a
    valid fd, the calls IO makes are transfers ([pread], [pwrite]) on that
    file descriptor, followed when it returns by one [close] of it, its
    last call; when its assertion fails the file descriptor has not been
    closed. *)
Theorem slave_io_transfers_then_closes fuel fs sm fd h :
  0 <= fd ->
  match slave_io fuel (Some fs) sm fd h with
  | IoRet _ h' =>
      exists ios, h' = h ++ ios ++ [SysClose fd] /\
                  Forall (is_transfer fd) ios
  | IoAssert h' =>
      exists ios, h' = h ++ ios /\ Forall (is_transfer fd) ios
  | IoFuel => True
  end.
Proof.
  intros Hfd. unfold vhost_user_fs_slave_io.
  destruct (Z.ltb_spec fd 0) as [|_]; [lia|].
  pose proof (slave_io_loop_calls fuel sm fd N 0%nat 0 0 h) as Hl.
  destruct (io_loop _ _ _ _ _ _ _ _) as [[[[res done] h']|h']|];
    simpl in Hl; [|exact Hl|exact I].
  destruct Hl as (ios & -> & Hios).
  destruct (res <? 0); exists ios; rewrite <- app_assoc; split;
    (reflexivity || assumption).
Qed.

(** IO's outer loop over the empty entries before the first that is not. *)
Lemma slave_io_loop_skip fuel sm fd h i :
  (forall j, (j < i)%nat -> sm_len sm !!! j = 0) ->
  forall n i0, (i0 + n = i)%nat ->
  forall m, io_loop fuel sm fd (n + m) i0 0 0 h = io_loop fuel sm fd m i 0 0 h.
Proof.
  intros He. induction n as [|n IH]; intros i0 Hi m.
  - replace i0 with i by lia. reflexivity.
  - cbn [Nat.add slave_io_loop]. change (0 =? 0) with true. cbn [negb].
    rewrite He by lia. change (0 =? 0) with true. cbv iota.
    apply IH. lia.
Qed.

(** IO's outer loop once the result is an error: no entry is looked at. *)
Lemma slave_io_loop_stopped fuel sm fd res done h :
  res <> 0 ->
  forall n i, io_loop fuel sm fd n i res done h = Some (inl (res, done, h)).
Proof.
  intros Hres. destruct n as [|n]; intros i; cbn [slave_io_loop];
    [reflexivity|].
  destruct (Z.eqb_spec res 0) as [|_]; [contradiction|]. reflexivity.
Qed.

(** X6: guest memory IO cannot use.  With a device and a valid fd, when the
    range of the first non-empty entry resolves to no region, or the entry
    asks for a read from the file and resolves to a read-only region, IO
    returns [-EFAULT] without a transfer, closes the file descriptor, and
    looks at no entry after it. *)
Theorem slave_io_unusable_region fuel fs sm fd h i :
  0 <= fd -> (i < N)%nat -> first_nonempty sm i ->
  let mrs := memory_region_find (sm_c_offset sm !!! i) (sm_len sm !!! i) in
  mrs_size mrs = 0 \/
  (Z.land (sm_flags sm !!! i) VHOST_USER_FS_FLAG_MAP_R <> 0 /\
   mrs_readonly mrs = true) ->
  slave_io (S fuel) (Some fs) sm fd h
  = IoRet (to_uint64 (- EFAULT)) (h ++ [SysClose fd]).
Proof.
  intros Hfd Hi [He Hnz] mrs Hbad. unfold vhost_user_fs_slave_io.
  destruct (Z.ltb_spec fd 0) as [|_]; [lia|].
  replace N with (i + S (N - S i))%nat by lia.
  rewrite (slave_io_loop_skip (S fuel) sm fd h i He i 0%nat) by lia.
  cbn [slave_io_loop]. change (0 =? 0) with true. cbn [negb].
  destruct (Z.eqb_spec (sm_len sm !!! i) 0) as [|_]; [contradiction|].
  assert (Hw : io_while (S fuel) (sm_flags sm !!! i) (sm_c_offset sm !!! i)
                 (sm_fd_offset sm !!! i) fd (sm_len sm !!! i) 0 0 h
               = Some (inl (- EFAULT, 0, h))).
  { cbn [slave_io_while].
    destruct (Z.eqb_spec (sm_len sm !!! i) 0) as [|_]; [contradiction|].
    change (0 =? 0) with true. cbn [negb orb]. fold mrs.
    destruct Hbad as [Hs|[Hr Hro]].
    - rewrite Hs. reflexivity.
    - destruct (mrs_size mrs =? 0); [reflexivity|].
      destruct (Z.eqb_spec (Z.land (sm_flags sm !!! i)
                              VHOST_USER_FS_FLAG_MAP_R) 0) as [|_];
        [contradiction|].
      cbn [negb]. rewrite Hro. reflexivity. }
  rewrite Hw, slave_io_loop_stopped by discriminate. reflexivity.
Qed.

(** X7: an entry with no direction.  With a device and a valid fd, when the
    first non-empty entry has neither the read flag nor the write flag and
    its range resolves to a region, IO stops on its assertion: it makes no
    call and leaves the file descriptor open. *)
Theorem slave_io_no_direction fuel fs sm fd h i :
  0 <= fd -> (i < N)%nat -> first_nonempty sm i ->
  mrs_size (memory_region_find (sm_c_offset sm !!! i) (sm_len sm !!! i)) <> 0 ->
  Z.land (sm_flags sm !!! i) VHOST_USER_FS_FLAG_MAP_R = 0 ->
  Z.land (sm_flags sm !!! i) VHOST_USER_FS_FLAG_MAP_W = 0 ->
  slave_io (S fuel) (Some fs) sm fd h = IoAssert h.
Proof.
  intros Hfd Hi [He Hnz] Hs Hr Hw. unfold vhost_user_fs_slave_io.
  destruct (Z.ltb_spec fd 0) as [|_]; [lia|].
  replace N with (i + S (N - S i))%nat by lia.
  rewrite (slave_io_loop_skip (S fuel) sm fd h i He i 0%nat) by lia.
  cbn [slave_io_loop slave_io_while]. change (0 =? 0) with true. cbn [negb].
  destruct (Z.eqb_spec (sm_len sm !!! i) 0) as [|_]; [contradiction|].
  cbn [orb].
  destruct (Z.eqb_spec (mrs_size (memory_region_find (sm_c_offset sm !!! i)
                                    (sm_len sm !!! i))) 0) as [|_];
    [contradiction|].
  rewrite Hr, Hw. reflexivity.
Qed.

Lemma io_total_S sm k :
  io_total sm (S k) = to_uint64 (io_total sm k + sm_len sm !!! k).
Proof. unfold io_total. rewrite seq_S, foldl_snoc. reflexivity. Qed.

Lemma io_total_range sm k : 0 <= io_total sm k < UINT64_MOD.
Proof.
  destruct k as [|k]; [split; reflexivity|].
  rewrite io_total_S. apply to_uint64_range.
Qed.

(** One entry of IO when its range resolves whole and its transfer moves all
    its bytes: one turn of the inner loop. *)
Lemma slave_io_while_whole fuel sm fd i done h :
  transfers_whole host_call -> resolves_whole memory_region_find ->
  0 < sm_len sm !!! i ->
  Z.land (sm_flags sm !!! i) VHOST_USER_FS_FLAG_MAP_R <> 0 \/
  Z.land (sm_flags sm !!! i) VHOST_USER_FS_FLAG_MAP_W <> 0 ->
  io_while (S fuel) (sm_flags sm !!! i) (sm_c_offset sm !!! i)
           (sm_fd_offset sm !!! i) fd (sm_len sm !!! i) 0 done h
  = Some (inl (0, to_uint64 (done + sm_len sm !!! i),
               h ++ io_call memory_region_find sm fd i)).
Proof.
  intros Hhost Hram Hlen Hdir. cbn [slave_io_while]. unfold io_call.
  destruct (Z.eqb_spec (sm_len sm !!! i) 0) as [|_]; [lia|].
  change (0 =? 0) with true. cbn [negb orb]. cbv zeta.
  destruct (Hram (sm_c_offset sm !!! i) (sm_len sm !!! i)) as [Hsize Hrw].
  rewrite Hsize, Hrw.
  destruct (Z.eqb_spec (sm_len sm !!! i) 0) as [|_]; [lia|].
  destruct (Z.eqb_spec (Z.land (sm_flags sm !!! i) VHOST_USER_FS_FLAG_MAP_R) 0)
    as [Hr|Hr]; cbn [negb].
  - destruct Hdir as [|Hw]; [contradiction|].
    destruct (Z.eqb_spec (Z.land (sm_flags sm !!! i) VHOST_USER_FS_FLAG_MAP_W) 0)
      as [|_]; [contradiction|].
    pose proof (proj2 (Hhost h fd
                  (mrs_hostptr (memory_region_find (sm_c_offset sm !!! i)
                                                   (sm_len sm !!! i)))
                  (sm_len sm !!! i) (sm_fd_offset sm !!! i))) as Ht.
    destruct (host_call _ _) as [transferred errno]. cbn [fst] in Ht.
    subst transferred.
    destruct (Z.ltb_spec (sm_len sm !!! i) 0) as [|_]; [lia|].
    destruct (Z.eqb_spec (sm_len sm !!! i) 0) as [|_]; [lia|].
    rewrite Z.sub_diag. destruct fuel; reflexivity.
  - pose proof (proj1 (Hhost h fd
                  (mrs_hostptr (memory_region_find (sm_c_offset sm !!! i)
                                                   (sm_len sm !!! i)))
                  (sm_len sm !!! i) (sm_fd_offset sm !!! i))) as Ht.
    destruct (host_call _ _) as [transferred errno]. cbn [fst] in Ht.
    subst transferred.
    destruct (Z.ltb_spec (sm_len sm !!! i) 0) as [|_]; [lia|].
    destruct (Z.eqb_spec (sm_len sm !!! i) 0) as [|_]; [lia|].
    rewrite Z.sub_diag. destruct fuel; reflexivity.
Qed.

Lemma slave_io_loop_whole fuel sm fd h k :
  transfers_whole host_call -> resolves_whole memory_region_find ->
  (forall i, (i < k)%nat -> 0 <= sm_len sm !!! i) ->
  (forall i, (i < k)%nat -> sm_len sm !!! i <> 0 ->
     Z.land (sm_flags sm !!! i) VHOST_USER_FS_FLAG_MAP_R <> 0 \/
     Z.land (sm_flags sm !!! i) VHOST_USER_FS_FLAG_MAP_W <> 0) ->
  forall n i0, (i0 + n = k)%nat ->
  io_loop (S fuel) sm fd n i0 0 (io_total sm i0)
          (h ++ flat_map (io_call memory_region_find sm fd) (seq 0 i0))
  = Some (inl (0, io_total sm k,
               h ++ flat_map (io_call memory_region_find sm fd) (seq 0 k))).
Proof.
  intros Hhost Hram Hlens Hdirs. induction n as [|n IH]; intros i0 Hi.
  - replace i0 with k by lia. reflexivity.
  - cbn [slave_io_loop]. change (0 =? 0) with true. cbn [negb].
    specialize (IH (S i0) ltac:(lia)).
    rewrite io_total_S, seq_S, flat_map_app in IH. simpl flat_map in IH.
    rewrite app_nil_r in IH. change (0 + i0)%nat with i0 in IH.
    destruct (Z.eqb_spec (sm_len sm !!! i0) 0) as [Hz|Hnz].
    + assert (Hc : io_call memory_region_find sm fd i0 = [])
        by (unfold io_call; rewrite Hz; reflexivity).
      rewrite Hc, app_nil_r, Hz, Z.add_0_r in IH.
      rewrite to_uint64_small in IH by apply io_total_range. exact IH.
    + rewrite slave_io_while_whole; try assumption.
      * rewrite <- app_assoc. exact IH.
      * specialize (Hlens i0 ltac:(lia)). lia.
      * apply Hdirs; [lia|assumption].
Qed.

(** X8: IO when nothing is in its way.  With a device and a valid fd, when
    every range resolves whole to a writable region, every transfer moves
    all the bytes asked for and every non-empty entry has a direction, IO
    makes one transfer for each non-empty entry, in order (a [pread] for an
    entry with the read flag, a [pwrite] otherwise), closes the file
    descriptor and returns the sum of the lengths as a [size_t]. *)
Theorem slave_io_moves_every_entry fuel fs sm fd h :
  0 <= fd ->
  transfers_whole host_call -> resolves_whole memory_region_find ->
  (forall i, (i < N)%nat -> 0 <= sm_len sm !!! i) ->
  (forall i, (i < N)%nat -> sm_len sm !!! i <> 0 ->
     Z.land (sm_flags sm !!! i) VHOST_USER_FS_FLAG_MAP_R <> 0 \/
     Z.land (sm_flags sm !!! i) VHOST_USER_FS_FLAG_MAP_W <> 0) ->
  slave_io (S fuel) (Some fs) sm fd h
  = IoRet (io_total sm N)
          (h ++ flat_map (io_call memory_region_find sm fd) (seq 0 N)
             ++ [SysClose fd]).
Proof.
  intros Hfd Hhost Hram Hlens Hdirs. unfold vhost_user_fs_slave_io.
  destruct (Z.ltb_spec fd 0) as [|_]; [lia|].
  pose proof (slave_io_loop_whole fuel sm fd h N Hhost Hram Hlens Hdirs
                N 0%nat eq_refl) as Hl.
  change (io_total sm 0) with 0 in Hl. simpl (flat_map _ (seq 0 0)) in Hl.
  rewrite app_nil_r in Hl. rewrite Hl.
  change (0 <? 0) with false. cbv iota.
  rewrite to_uint64_small by apply io_total_range.
  rewrite <- app_assoc. reflexivity.
Qed.

End DeviceExtras.

(** Entry by entry over a message of eight entries. *)
Ltac each_entry j tac :=
  do 8 (destruct j as [|j]; [tac|]); try lia; try tac.

Lemma slave_map_maps_all_witness :
  let fs := {| cache_size := 65536; cache_host := 1048576 |} in
  let sm := {| sm_flags := [1; 0; 3; 0; 0; 0; 0; 0];
               sm_fd_offset := [0; 0; 8192; 0; 0; 0; 0; 0];
               sm_c_offset := [0; 0; 4096; 0; 0; 0; 0; 0];
               sm_len := [4096; 0; 4096; 0; 0; 0; 0; 0] |} in
  vhost_user_fs_slave_map 8 obliging_host (Some fs) sm 3 []
  = (0, sm, [] ++ map_calls fs sm 3 8).
Proof.
  apply (slave_map_maps_all 8 obliging_host
           {| cache_size := 65536; cache_host := 1048576 |}
           {| sm_flags := [1; 0; 3; 0; 0; 0; 0; 0];
              sm_fd_offset := [0; 0; 8192; 0; 0; 0; 0; 0];
              sm_c_offset := [0; 0; 4096; 0; 0; 0; 0; 0];
              sm_len := [4096; 0; 4096; 0; 0; 0; 0; 0] |} 3 []).
  - discriminate.
  - lia.
  - intros j Hj Hnz.
    each_entry j ltac:(first [split; reflexivity
                             |exfalso; apply Hnz; reflexivity]).
Defined.

Lemma slave_unmap_bad_entry_fails_witness :
  let fs := {| cache_size := 65536; cache_host := 1048576 |} in
  let sm := {| sm_flags := [0; 0; 0; 0; 0; 0; 0; 0];
               sm_fd_offset := [0; 0; 0; 0; 0; 0; 0; 0];
               sm_c_offset := [61440; 0; 0; 0; 0; 0; 0; 0];
               sm_len := [8192; 4096; 0; 0; 0; 0; 0; 0] |} in
  is_failure (vhost_user_fs_slave_unmap 8 obliging_host (Some fs) sm []).1.1
  = true.
Proof.
  apply (slave_unmap_bad_entry_fails 8 obliging_host
           {| cache_size := 65536; cache_host := 1048576 |}
           {| sm_flags := [0; 0; 0; 0; 0; 0; 0; 0];
              sm_fd_offset := [0; 0; 0; 0; 0; 0; 0; 0];
              sm_c_offset := [61440; 0; 0; 0; 0; 0; 0; 0];
              sm_len := [8192; 4096; 0; 0; 0; 0; 0; 0] |} [] 0%nat).
  - discriminate.
  - intros h c addr Hc Hret. destruct c; try discriminate; simpl in *;
      congruence.
  - reflexivity.
  - lia.
  - discriminate.
  - reflexivity.
Defined.

Lemma slave_sync_best_effort_witness :
  let fs := {| cache_size := 65536; cache_host := 1048576 |} in
  let sm := {| sm_flags := [0; 0; 0; 0; 0; 0; 0; 0];
               sm_fd_offset := [0; 0; 0; 0; 0; 0; 0; 0];
               sm_c_offset := [61440; 0; 0; 0; 0; 0; 0; 0];
               sm_len := [8192; 4096; 0; 0; 0; 0; 0; 0] |} in
  (vhost_user_fs_slave_sync 8 obliging_host fs sm []).2
  = [] ++ flat_map (sync_call fs sm) (seq 0 8) /\
  (forall i, (i < 8)%nat -> sm_len sm !!! i <> 0 ->
     bad_offset_len (sm_c_offset sm !!! i) (sm_len sm !!! i) (cache_size fs)
     = true ->
     is_failure (vhost_user_fs_slave_sync 8 obliging_host fs sm []).1 = true).
Proof.
  apply (slave_sync_best_effort 8 obliging_host
           {| cache_size := 65536; cache_host := 1048576 |}
           {| sm_flags := [0; 0; 0; 0; 0; 0; 0; 0];
              sm_fd_offset := [0; 0; 0; 0; 0; 0; 0; 0];
              sm_c_offset := [61440; 0; 0; 0; 0; 0; 0; 0];
              sm_len := [8192; 4096; 0; 0; 0; 0; 0; 0] |} []).
  - discriminate.
  - intros h addr len Hret. exfalso. apply Hret. reflexivity.
Defined.

Lemma slave_ops_empty_message_witness :
  let fs := {| cache_size := 65536; cache_host := 1048576 |} in
  let sm := single_entry_msg 8 3 4096 8192 0 in
  vhost_user_fs_slave_map 8 failing_host (Some fs) sm 3 [] = (0, sm, []) /\
  vhost_user_fs_slave_unmap 8 failing_host (Some fs) sm [] = (0, sm, []) /\
  vhost_user_fs_slave_sync 8 failing_host fs sm [] = (0, []) /\
  vhost_user_fs_slave_io 8 failing_host (flat_ram 0) 1 (Some fs) sm 3 []
  = IoRet 0 ([] ++ [SysClose 3]).
Proof.
  apply (slave_ops_empty_message 8 failing_host (flat_ram 0)
           {| cache_size := 65536; cache_host := 1048576 |}
           (single_entry_msg 8 3 4096 8192 0) 3 [] 1%nat).
  - discriminate.
  - lia.
  - intros i Hi. each_entry i ltac:(reflexivity).
Defined.

Lemma slave_io_transfers_then_closes_witness :
  let fs := {| cache_size := 65536; cache_host := 1048576 |} in
  match vhost_user_fs_slave_io 8 (file_host 3000) (flat_ram 0) 4 (Some fs)
          (single_entry_msg 8 VHOST_USER_FS_FLAG_MAP_R 0 65536 4096) 3 [] with
  | IoRet _ h' =>
      exists ios, h' = [] ++ ios ++ [SysClose 3] /\ Forall (is_transfer 3) ios
  | IoAssert h' => exists ios, h' = [] ++ ios /\ Forall (is_transfer 3) ios
  | IoFuel => True
  end.
Proof.
  apply (slave_io_transfers_then_closes 8 (file_host 3000) (flat_ram 0) 4
           {| cache_size := 65536; cache_host := 1048576 |}
           (single_entry_msg 8 VHOST_USER_FS_FLAG_MAP_R 0 65536 4096) 3 []).
  lia.
Defined.

Lemma slave_io_unusable_region_witness :
  let fs := {| cache_size := 65536; cache_host := 1048576 |} in
  let sm := {| sm_flags := [0; 1; 1; 0; 0; 0; 0; 0];
               sm_fd_offset := [0; 0; 4096; 0; 0; 0; 0; 0];
               sm_c_offset := [0; 65536; 131072; 0; 0; 0; 0; 0];
               sm_len := [0; 4096; 4096; 0; 0; 0; 0; 0] |} in
  vhost_user_fs_slave_io 8 obliging_host rom_only 1 (Some fs) sm 3 []
  = IoRet (to_uint64 (- EFAULT)) ([] ++ [SysClose 3]).
Proof.
  apply (slave_io_unusable_region 8 obliging_host rom_only 0
           {| cache_size := 65536; cache_host := 1048576 |}
           {| sm_flags := [0; 1; 1; 0; 0; 0; 0; 0];
              sm_fd_offset := [0; 0; 4096; 0; 0; 0; 0; 0];
              sm_c_offset := [0; 65536; 131072; 0; 0; 0; 0; 0];
              sm_len := [0; 4096; 4096; 0; 0; 0; 0; 0] |} 3 [] 1%nat).
  - lia.
  - lia.
  - split; [|discriminate].
    intros j Hj. destruct j as [|j]; [reflexivity|lia].
  - right. split; [discriminate|reflexivity].
Defined.

Lemma slave_io_no_direction_witness :
  let fs := {| cache_size := 65536; cache_host := 1048576 |} in
  vhost_user_fs_slave_io 8 obliging_host (flat_ram 0) 1 (Some fs)
    (single_entry_msg 8 4 0 65536 4096) 3 []
  = IoAssert [].
Proof.
  apply (slave_io_no_direction 8 obliging_host (flat_ram 0) 0
           {| cache_size := 65536; cache_host := 1048576 |}
           (single_entry_msg 8 4 0 65536 4096) 3 [] 0%nat).
  - lia.
  - lia.
  - split; [intros j Hj; lia|discriminate].
  - discriminate.
  - reflexivity.
  - reflexivity.
Defined.

Lemma slave_io_moves_every_entry_witness :
  let fs := {| cache_size := 65536; cache_host := 1048576 |} in
  let sm := {| sm_flags := [1; 0; 2; 0; 0; 0; 0; 0];
               sm_fd_offset := [0; 0; 8192; 0; 0; 0; 0; 0];
               sm_c_offset := [65536; 0; 131072; 0; 0; 0; 0; 0];
               sm_len := [4096; 0; 100; 0; 0; 0; 0; 0] |} in
  vhost_user_fs_slave_io 8 obliging_host (flat_ram 0) 1 (Some fs) sm 3 []
  = IoRet (io_total sm 8)
          ([] ++ flat_map (io_call (flat_ram 0) sm 3) (seq 0 8)
              ++ [SysClose 3]).
Proof.
  apply (slave_io_moves_every_entry 8 obliging_host (flat_ram 0) 0
           {| cache_size := 65536; cache_host := 1048576 |}
           {| sm_flags := [1; 0; 2; 0; 0; 0; 0; 0];
              sm_fd_offset := [0; 0; 8192; 0; 0; 0; 0; 0];
              sm_c_offset := [65536; 0; 131072; 0; 0; 0; 0; 0];
              sm_len := [4096; 0; 100; 0; 0; 0; 0; 0] |} 3 []).
  - lia.
  - intros h fd p size off. split; reflexivity.
  - intros gpa len. split; reflexivity.
  - intros i Hi. each_entry i ltac:(simpl; lia).
  - intros i Hi Hnz.
    each_entry i ltac:(first [left; discriminate | right; discriminate
                             |exfalso; apply Hnz; reflexivity]).
Defined.

(** ** Further properties of the daemon side *)

(** *** The locks a worker holds *)

Lemma existsb_not_held q (held : list nat) :
  existsb (Nat.eqb q) held = false -> q ∉ held.
Proof.
  induction held as [|x held IH]; intros Hq; [apply not_elem_of_nil|].
  simpl in Hq. apply orb_false_iff in Hq. destruct Hq as [Hx Hq].
  apply not_elem_of_cons. split; [|apply IH; exact Hq].
  apply Nat.eqb_neq. exact Hx.
Qed.

(** Taking a mutex, when the run goes on, found it free. *)
Lemma wp_lock_free q (Q : unit -> world -> Prop) w :
  (q ∉ w_held w -> Q tt (add_event (EvLock q) (set_held (q :: w_held w) w))) ->
  wp (pthread_mutex_lock q) Q w.
Proof.
  intros H. unfold wp, pthread_mutex_lock.
  destruct (existsb _ _) eqn:E; [exact I|].
  apply H. apply existsb_not_held. exact E.
Qed.

Lemma w_held_add_event e w : w_held (add_event e w) = w_held w.
Proof. reflexivity. Qed.

Lemma w_held_set_held h w : w_held (set_held h w) = h.
Proof. reflexivity. Qed.

Lemma w_held_set_mem m w : w_held (set_mem m w) = w_held w.
Proof. reflexivity. Qed.

Lemma w_held_set_avail av w : w_held (set_avail av w) = w_held w.
Proof. reflexivity. Qed.

Lemma w_held_set_heap h w : w_held (set_heap h w) = w_held w.
Proof. reflexivity. Qed.

(** The mutexes held in a state that is written as a chain of updates. *)
Ltac held_simpl :=
  repeat first [ rewrite w_held_add_event | rewrite w_held_set_held
               | rewrite w_held_set_mem | rewrite w_held_set_avail
               | rewrite w_held_set_heap ].

Ltac held_simpl_in H :=
  repeat first [ rewrite w_held_add_event in H | rewrite w_held_set_held in H
               | rewrite w_held_set_mem in H | rewrite w_held_set_avail in H
               | rewrite w_held_set_heap in H ].

(** One step of the computation of [wp] that keeps, at a lock, the fact that
    the mutex was free. *)
Ltac wp_lock_step :=
  lazy beta;
  first [ lazymatch goal with
          | |- wp (pthread_mutex_lock _) _ _ =>
              apply wp_lock_free;
              let H := fresh "Hfree" in intros H; held_simpl_in H
          end
        | wp_step ].

(** A push under the queue's mutex leaves the mutexes held as they were. *)
Ltac held_done :=
  held_simpl;
  repeat match goal with
         | H : ?q ∉ ?held |- context [filter _ (?q :: ?held)] =>
             rewrite (filter_released q held H)
         end;
  held_simpl; try reflexivity; try assumption.

Section DaemonExtras.

Context {abi : FuseAbi} {host : DaemonHost}.

Lemma virtio_send_notify_msg_held se iov w :
  se_notify_enabled se = false ->
  wp (virtio_send_notify_msg se iov) (fun _ w' => w_held w' = w_held w) w.
Proof.
  intros Hdis. unfold virtio_send_notify_msg. rewrite Hdis.
  cbn [negb]. repeat wp_step. reflexivity.
Qed.

Lemma virtio_send_msg_held se ch iov w :
  se_notify_enabled se = false ->
  wp (virtio_send_msg se ch iov) (fun _ w' => w_held w' = w_held w) w.
Proof.
  intros Hdis. unfold virtio_send_msg.
  do 6 wp_step.
  destruct (_ =? 0) eqn:Hu.
  - apply wp_bind.
    eapply wp_mono; [apply (virtio_send_notify_msg_held se iov w Hdis)|].
    intros r w' Ht. apply wp_ret. exact Ht.
  - destruct ch as [req|]; [|apply wp_stop].
    repeat wp_lock_step; held_done.
Qed.

Lemma data_iov_read_held fuel :
  forall fd skip_size in_sg_ptr count pos len w,
  wp (data_iov_read fuel fd skip_size in_sg_ptr count pos len)
     (fun _ w' => w_held w' = w_held w) w.
Proof.
  induction fuel as [|fuel IH];
    intros fd skip_size in_sg_ptr count pos len w; cbn [data_iov_read].
  - apply wp_stop.
  - destruct (skip_in_sg _ _ _) as [[skip1 ptr1] count1].
    destruct (host_preadv _ _ _) as [[nread errno] data].
    cbv zeta. repeat wp_step.
    all: try (eapply wp_mono; [apply IH|]; intros a w' Ht;
              rewrite Ht; reflexivity).
    all: reflexivity.
Qed.

Lemma virtio_send_data_iov_held se req iov fd pos len w :
  wp (virtio_send_data_iov se req iov fd pos len)
     (fun _ w' => w_held w' = w_held w) w.
Proof.
  unfold virtio_send_data_iov.
  cbv zeta. change (- E2BIG =? 0) with false. cbv iota.
  do 14 wp_step.
  wp_step; [wp_step; reflexivity|].
  wp_step; [wp_step; reflexivity|].
  wp_step. wp_step. wp_step.
  eapply wp_mono; [apply data_iov_read_held|].
  intros r w1 Ht. held_simpl_in Ht.
  destruct r as [err|[[ptr pos'] len']].
  { destruct (err =? 0); apply wp_ret; exact Ht. }
  destruct (data_iov_unmappable _ _ _ _ _) as [err|len''].
  { destruct (err =? 0); apply wp_ret; exact Ht. }
  change (0 =? 0) with true. cbv iota.
  repeat wp_lock_step; held_done.
Qed.

Lemma run_session_held se s :
  se_notify_enabled se = false ->
  forall req w,
  wp (run_session se s req) (fun _ w' => w_held w' = w_held w) w.
Proof.
  intros Hdis.
  induction s as [|addr b k IH|addr k IH|with_ch iov k IH|iov fd pos len k IH];
    intros req w; cbn [run_session].
  - apply wp_ret. reflexivity.
  - do 3 wp_step. lazy beta. exact (IH req _).
  - wp_step. wp_step. apply IH.
  - apply wp_bind.
    eapply wp_mono; [apply (virtio_send_msg_held se _ iov w Hdis)|].
    intros [r ch] w' Ht. eapply wp_mono; [apply IH|].
    intros a w'' Ht'. rewrite Ht'. exact Ht.
  - apply wp_bind.
    eapply wp_mono; [apply virtio_send_data_iov_held|].
    intros [r req'] w' Ht. eapply wp_mono; [apply IH|].
    intros a w'' Ht'. rewrite Ht'. exact Ht.
Qed.

Lemma fv_queue_worker_setup_held se qi req w :
  wp (fv_queue_worker_setup se qi req) (fun _ w' => w_held w' = w_held w) w.
Proof.
  unfold fv_queue_worker_setup.
  repeat first [ wp_step
               | match goal with
                 | |- wp (copy_from_iov_st _ _) _ _ =>
                     unfold wp at 1, copy_from_iov_st, bind, get_mem, put_mem
                 | |- wp (malloc _) _ _ => unfold wp at 1, malloc
                 end ].
  all: reflexivity.
Qed.

(** X9: the worker gives back every lock it takes.  When notifications are
    not enabled, a worker that returns leaves the queue mutexes held as it
    found them, whatever the session does with the request. *)
Theorem fv_queue_worker_releases_locks se process qi req w w' :
  se_notify_enabled se = false ->
  fv_queue_worker se process qi req w = Ok tt w' ->
  w_held w' = w_held w.
Proof.
  intros Hdis Hrun.
  cut (wp (fv_queue_worker se process qi req)
          (fun _ w' => w_held w' = w_held w) w).
  { unfold wp. rewrite Hrun. intros H. exact H. }
  unfold fv_queue_worker. apply wp_bind.
  eapply wp_mono; [apply fv_queue_worker_setup_held|].
  intros [[pbufv req1] p] w1 Ht1. apply wp_bind.
  eapply wp_mono; [apply (run_session_held se _ Hdis)|].
  intros req2 w2 Ht2. unfold fv_queue_worker_finish.
  destruct (reply_sent req2).
  - repeat wp_step. held_simpl. congruence.
  - repeat wp_lock_step. held_done. congruence.
Qed.

End DaemonExtras.

(** *** States written as chains of updates *)

Lemma world_eq w1 w2 :
  w_mem w1 = w_mem w2 -> w_avail w1 = w_avail w2 -> w_held w1 = w_held w2 ->
  w_trace w1 = w_trace w2 -> w_heap w1 = w_heap w2 -> w1 = w2.
Proof. destruct w1, w2. simpl. intros -> -> -> -> ->. reflexivity. Qed.

Lemma w_mem_add_event e w : w_mem (add_event e w) = w_mem w.
Proof. reflexivity. Qed.
Lemma w_mem_set_held h w : w_mem (set_held h w) = w_mem w.
Proof. reflexivity. Qed.
Lemma w_mem_set_mem m w : w_mem (set_mem m w) = m.
Proof. reflexivity. Qed.
Lemma w_mem_set_avail av w : w_mem (set_avail av w) = w_mem w.
Proof. reflexivity. Qed.
Lemma w_mem_set_heap h w : w_mem (set_heap h w) = w_mem w.
Proof. reflexivity. Qed.

Lemma w_avail_add_event e w : w_avail (add_event e w) = w_avail w.
Proof. reflexivity. Qed.
Lemma w_avail_set_held h w : w_avail (set_held h w) = w_avail w.
Proof. reflexivity. Qed.
Lemma w_avail_set_mem m w : w_avail (set_mem m w) = w_avail w.
Proof. reflexivity. Qed.
Lemma w_avail_set_avail av w : w_avail (set_avail av w) = av.
Proof. reflexivity. Qed.
Lemma w_avail_set_heap h w : w_avail (set_heap h w) = w_avail w.
Proof. reflexivity. Qed.

Lemma w_heap_add_event e w : w_heap (add_event e w) = w_heap w.
Proof. reflexivity. Qed.
Lemma w_heap_set_held h w : w_heap (set_held h w) = w_heap w.
Proof. reflexivity. Qed.
Lemma w_heap_set_mem m w : w_heap (set_mem m w) = w_heap w.
Proof. reflexivity. Qed.
Lemma w_heap_set_avail av w : w_heap (set_avail av w) = w_heap w.
Proof. reflexivity. Qed.
Lemma w_heap_set_heap h w : w_heap (set_heap h w) = h.
Proof. reflexivity. Qed.

(** A field of a state that is written as a chain of updates. *)
Ltac field_simpl :=
  repeat first
    [ rewrite w_mem_add_event | rewrite w_mem_set_held | rewrite w_mem_set_mem
    | rewrite w_mem_set_avail | rewrite w_mem_set_heap
    | rewrite w_avail_add_event | rewrite w_avail_set_held
    | rewrite w_avail_set_mem | rewrite w_avail_set_avail
    | rewrite w_avail_set_heap
    | rewrite w_heap_add_event | rewrite w_heap_set_held
    | rewrite w_heap_set_mem | rewrite w_heap_set_avail
    | rewrite w_heap_set_heap
    | rewrite w_held_add_event | rewrite w_held_set_held
    | rewrite w_held_set_mem | rewrite w_held_set_avail
    | rewrite w_held_set_heap
    | rewrite w_trace_add_event | rewrite w_trace_set_held
    | rewrite w_trace_set_mem | rewrite w_trace_set_avail
    | rewrite w_trace_set_heap ].


Section DaemonReplies.

Context {abi : FuseAbi} {host : DaemonHost}.

(** X10: a notification that fits.  With notifications enabled and a
    notification queue whose mutex is free and whose next element has in
    vectors with room for the header and for the whole message,
    [virtio_send_notify_msg] pops that element, writes the message's length
    into its header, copies the message into the element's in vectors,
    pushes the element once with the message's length and notifies, under
    the queue's mutex inside a read lock, frees the element and returns 0
    with the mutexes held as before.  The memory it leaves is spelled out
    for a message that shares no address with the bytes written: the bytes
    of the message, its length set, stored in order at the first addresses
    of the in vectors, every other byte as the write of the length left it;
    the in vectors then read back as the message when their addresses are
    all different. *)
Theorem virtio_send_notify_msg_delivers se iov w q e bad_in bad_out rest :
  out_header_unique (w_mem w) (iov_base (iov !!! 0%nat)) = 0 ->
  se_notify_enabled se = true -> se_qi se 1 = Some q ->
  q ∉ w_held w ->
  w_avail w q = (e, bad_in, bad_out) :: rest ->
  iov_wf iov -> iov_wf (in_sg e) ->
  sizeof_fuse_out_header <= iov_size (in_sg e) ->
  iov_size iov <= iov_size (in_sg e) ->
  let m1 := out_header_set_len (w_mem w) (iov_base (iov !!! 0%nat))
                               (iov_size iov) in
  exists m',
    copy_iov m1 iov (in_sg e) (iov_size iov) = Copied m' /\
    virtio_send_notify_msg se iov w
    = Ok 0 {| w_mem := m';
              w_avail := fun q' => if Nat.eqb q' q then rest else w_avail w q';
              w_held := w_held w;
              w_trace := w_trace w
                         ++ [EvRdLock; EvLock q; EvPop q (elem_index e);
                             EvUnlock q; EvRwUnlock]
                         ++ locked_push q (elem_index e) (iov_size iov)
                         ++ [EvFree (elem_index e)];
              w_heap := w_heap w |} /\
    (disjoint_addrs (take (Z.to_nat (iov_size iov)) (iov_addrs iov))
                    (take (Z.to_nat (iov_size iov)) (iov_addrs (in_sg e))) ->
     m' = store_bytes m1 (take (Z.to_nat (iov_size iov)) (iov_addrs (in_sg e)))
                      (iov_bytes m1 iov (iov_size iov)) /\
     (forall a, a ∉ take (Z.to_nat (iov_size iov)) (iov_addrs (in_sg e)) ->
                m' a = m1 a) /\
     (NoDup (take (Z.to_nat (iov_size iov)) (iov_addrs (in_sg e))) ->
      iov_bytes m' (in_sg e) (iov_size iov)
      = iov_bytes m1 iov (iov_size iov))).
Proof.
  intros Huniq Hen Hq Hfree Hav Hwi Hwd Hhdr Hfit m1.
  pose proof (iov_size_bounds iov Hwi) as Hts.
  pose proof (iov_size_bounds _ Hwd) as Hil.
  destruct (copy_iov_returns m1 iov (in_sg e) (iov_size iov))
    as [m' Hm']; try assumption; try lia.
  exists m'. split; [exact Hm'|].
  split;
    [|intros Hdisj;
      apply (copy_iov_gathers m1 iov (in_sg e) (iov_size iov));
      (assumption || lia)].
  unfold virtio_send_notify_msg.
  unfold bind at 1, get_mem at 1. rewrite Huniq.
  change (0 =? 0) with true.
  unfold bind at 1, assert_that at 1, ret at 1. rewrite Hen. cbn [negb].
  rewrite Hq.
  unfold bind at 1, pthread_rwlock_rdlock at 1, log_event at 1.
  unfold bind at 1, pthread_mutex_lock at 1.
  rewrite w_held_add_event, (not_held_existsb _ _ Hfree).
  unfold bind at 1, vu_queue_pop at 1.
  rewrite w_avail_add_event, w_avail_set_held, w_avail_add_event, Hav.
  unfold bind at 1, pthread_mutex_unlock at 1.
  unfold bind at 1, pthread_rwlock_unlock at 1, log_event at 1.
  unfold bind at 1, put_mem at 1.
  destruct (Z.ltb_spec (iov_size (in_sg e)) sizeof_fuse_out_header) as [|_];
    [lia|].
  destruct (Z.ltb_spec (iov_size (in_sg e)) (iov_size iov)) as [|_]; [lia|].
  unfold bind at 1, copy_iov_st at 1.
  rewrite w_mem_set_mem. fold m1. rewrite Hm'.
  unfold bind at 1, pthread_rwlock_rdlock at 1, log_event at 1.
  unfold bind at 1, pthread_mutex_lock at 1.
  field_simpl. rewrite (filter_released _ _ Hfree).
  rewrite (not_held_existsb _ _ Hfree).
  unfold bind, vu_queue_push, vu_queue_notify, pthread_mutex_unlock,
    pthread_rwlock_unlock, log_event, ret.
  f_equal. apply world_eq; field_simpl;
    rewrite ?(filter_released _ _ Hfree); try reflexivity.
  unfold locked_push. cbn [fst]. rewrite <- !app_assoc. reflexivity.
Qed.


End DaemonReplies.

(** *** Features and queue bookkeeping *)

Lemma land_1_odd x : Z.land 1 x = if Z.odd x then 1 else 0.
Proof.
  rewrite Z.land_comm. change 1 with (Z.ones 1). rewrite Z.land_ones by lia.
  change (2 ^ 1) with 2. rewrite Zmod_odd. reflexivity.
Qed.

(** X12: the notification feature.  The features the daemon offers carry
    the notification bit, so a master that acknowledges what it is offered
    switches notifications on, for the device and for the session;
    [fv_set_features] never switches them off; and the two flags, once
    equal, stay equal. *)
Theorem fv_set_features_notification {vabi : VirtioAbi} vud features :
  vud_notify_enabled (fv_set_features vud fv_get_features) = true /\
  vud_se_notify_enabled (fv_set_features vud fv_get_features) = true /\
  (vud_notify_enabled vud = true ->
   vud_notify_enabled (fv_set_features vud features) = true) /\
  (vud_se_notify_enabled vud = vud_notify_enabled vud ->
   vud_se_notify_enabled (fv_set_features vud features)
   = vud_notify_enabled (fv_set_features vud features)) /\
  vud_qi (fv_set_features vud features) = vud_qi vud /\
  vud_nqueues (fv_set_features vud features) = vud_nqueues vud.
Proof.
  assert (Hbit : Z.land (Z.shiftl 1 VIRTIO_FS_F_NOTIFICATION) fv_get_features
                 <> 0).
  { change (Z.shiftl 1 VIRTIO_FS_F_NOTIFICATION) with 1.
    rewrite land_1_odd. unfold fv_get_features, to_uint64, UINT64_MOD.
    replace (Z.odd _) with true; [discriminate|].
    symmetry. rewrite <- Z.bit0_odd.
    rewrite Z.mod_pow2_bits_low by lia.
    rewrite !Z.lor_spec. change (Z.shiftl 1 VIRTIO_FS_F_NOTIFICATION) with 1.
    change (Z.testbit (1 mod 2 ^ 64) 0) with true.
    rewrite orb_true_r. reflexivity. }
  unfold fv_set_features.
  destruct (Z.eqb_spec (Z.land (Z.shiftl 1 VIRTIO_FS_F_NOTIFICATION)
                               fv_get_features) 0) as [|_]; [contradiction|].
  cbn [vud_notify_enabled vud_se_notify_enabled].
  split; [reflexivity|]. split; [reflexivity|].
  destruct (Z.land _ features =? 0);
    cbn [vud_notify_enabled vud_se_notify_enabled vud_qi vud_nqueues];
    repeat split; auto.
Qed.

(** The array of a well-formed device after a start, looked up. *)
Lemma started_slots vud qidx :
  vud_wf vud -> 0 <= qidx ->
  let qi := if vud_nqueues vud <=? qidx
            then take (Z.to_nat (vud_nqueues vud)) (vud_qi vud)
                   ++ replicate (Z.to_nat (qidx + 1 - vud_nqueues vud)) None
            else vud_qi vud in
  let n := if vud_nqueues vud <=? qidx then qidx + 1 else vud_nqueues vud in
  Z.of_nat (length qi) = n /\ qidx < n /\
  (forall i ourqi, qi !! i = Some (Some ourqi) ->
                   vud_qi vud !! i = Some (Some ourqi)).
Proof.
  intros (Hlen & Hmax & Hidx) Hq. cbv zeta.
  destruct (Z.leb_spec (vud_nqueues vud) qidx) as [Hge|Hlt].
  - rewrite <- Hlen, Nat2Z.id, firstn_all.
    rewrite length_app, length_replicate. split; [lia|]. split; [lia|].
    intros i ourqi Hi. apply lookup_app_Some in Hi.
    destruct Hi as [Hi|[_ Hi]]; [exact Hi|].
    apply lookup_replicate in Hi. destruct Hi as [Hi _]. discriminate.
  - split; [exact Hlen|]. split; [lia|]. intros i ourqi Hi. exact Hi.
Qed.

(** X13: the bookkeeping of the queues.  When the array of queues has
    [nqueues] slots, at most three, and every started queue sits at the slot
    of its own index, any call of [fv_queue_set_started] that returns leaves
    it so. *)
Theorem fv_queue_set_started_keeps_wf vud kick_fd new_kill_fd create_res qidx
    started vud' t :
  vud_wf vud ->
  fv_queue_set_started vud kick_fd new_kill_fd create_res qidx started
  = Started vud' t ->
  vud_wf vud'.
Proof.
  intros Hwf. unfold fv_queue_set_started.
  destruct (Z.ltb_spec qidx 0) as [|Hq]; [discriminate|].
  destruct (Z.leb_spec (if vud_notify_enabled vud then 3 else 2) qidx)
    as [|Hvalid]; [discriminate|].
  assert (Hq3 : qidx < 3) by (destruct (vud_notify_enabled vud); lia).
  destruct started.
  - pose proof (started_slots vud qidx Hwf Hq) as Hs. cbv zeta in Hs.
    destruct (vud_nqueues vud <=? qidx) eqn:Hgrow.
    + destruct Hs as (Hlen & Hin & Hold).
      set (qi := take _ _ ++ replicate _ _) in *.
      destruct (qi !! Z.to_nat qidx) as [slot|] eqn:Hslot; [|discriminate].
      destruct (match slot with None => true | Some o => qi_kick_fd o =? -1 end);
        [|discriminate].
      destruct (new_kill_fd =? -1); [discriminate|].
      destruct (negb (create_res =? 0)); [discriminate|].
      intros H. injection H as <- _. unfold vud_wf, set_qi.
      cbn [vud_qi vud_nqueues]. rewrite length_insert.
      split; [exact Hlen|]. split; [lia|].
      intros i ourqi Hi. apply list_lookup_insert_Some in Hi.
      destruct Hi as [(<- & Heq & _)|[Hne Hi]].
      * injection Heq as <-. cbn [qi_qidx]. destruct slot as [o|].
        -- destruct Hwf as (_ & _ & Hidx). apply Hidx. apply Hold.
           exact Hslot.
        -- lia.
      * destruct Hwf as (_ & _ & Hidx). apply Hidx. apply Hold. exact Hi.
    + destruct Hs as (Hlen & Hin & Hold).
      destruct (vud_qi vud !! Z.to_nat qidx) as [slot|] eqn:Hslot;
        [|discriminate].
      destruct (match slot with None => true | Some o => qi_kick_fd o =? -1 end);
        [|discriminate].
      destruct (new_kill_fd =? -1); [discriminate|].
      destruct (negb (create_res =? 0)); [discriminate|].
      intros H. injection H as <- _. unfold vud_wf, set_qi.
      cbn [vud_qi vud_nqueues]. rewrite length_insert.
      destruct Hwf as (Hl & Hmax & Hidx).
      split; [exact Hl|]. split; [exact Hmax|].
      intros i ourqi Hi. apply list_lookup_insert_Some in Hi.
      destruct Hi as [(<- & Heq & _)|[Hne Hi]].
      * injection Heq as <-. cbn [qi_qidx]. destruct slot as [o|].
        -- apply Hidx. exact Hslot.
        -- lia.
      * apply Hidx. exact Hi.
  - destruct (vud_nqueues vud <=? qidx); [discriminate|].
    destruct (vud_qi vud !! Z.to_nat qidx) as [[ourqi|]|]; try discriminate.
    intros H. injection H as <- _. unfold vud_wf, set_qi.
    cbn [vud_qi vud_nqueues]. rewrite length_insert.
    destruct Hwf as (Hl & Hmax & Hidx).
    split; [exact Hl|]. split; [exact Hmax|].
    intros i o Hi. apply list_lookup_insert_Some in Hi.
    destruct Hi as [(_ & Heq & _)|[Hne Hi]]; [discriminate|].
    apply Hidx. exact Hi.
Qed.

(** A start that returns has filled the slot of the queue. *)
Lemma fv_queue_set_started_slot vud kick_fd new_kill_fd create_res qidx vud' t :
  fv_queue_set_started vud kick_fd new_kill_fd create_res qidx true
  = Started vud' t ->
  0 <= qidx /\ qidx < vud_nqueues vud' /\ new_kill_fd <> -1 /\
  exists own f,
    vud_qi vud' !! Z.to_nat qidx
    = Some (Some {| qi_qidx := own; qi_kick_fd := kick_fd;
                    qi_kill_fd := new_kill_fd; qi_thread := f |}) /\
    t = [QEventfd new_kill_fd; QSpawn qidx f] /\
    f = (if vud_notify_enabled vud && (qidx =? 1)
         then NotifyThread else QueueThread) /\
    vud_notify_enabled vud' = vud_notify_enabled vud.
Proof.
  unfold fv_queue_set_started.
  destruct (Z.ltb_spec qidx 0) as [|Hq]; [discriminate|].
  destruct (_ <=? qidx); [discriminate|].
  destruct (if vud_nqueues vud <=? qidx then _ else _) as [n qi] eqn:Hgrow.
  destruct (qi !! Z.to_nat qidx) as [slot|] eqn:Hslot; [|discriminate].
  destruct (match slot with None => true | Some o => qi_kick_fd o =? -1 end);
    [|discriminate].
  destruct (Z.eqb_spec new_kill_fd (-1)) as [|Hk]; [discriminate|].
  destruct (negb (create_res =? 0)); [discriminate|].
  cbv zeta. intros H. injection H as <- <-.
  unfold set_qi. cbn [vud_qi vud_nqueues vud_notify_enabled].
  split; [exact Hq|]. split.
  { destruct (Z.leb_spec (vud_nqueues vud) qidx);
      injection Hgrow as <- _; lia. }
  split; [exact Hk|].
  eexists _, _. split.
  { apply list_lookup_insert_eq. apply lookup_lt_Some in Hslot. exact Hslot. }
  repeat split; reflexivity.
Qed.

(** X14: a queue is started, then stopped.  After a start that returns, a
    stop of the same queue returns too: it writes to the kill descriptor the
    start made, joins the thread, closes that descriptor and empties the
    slot, leaving the other slots and the count of queues as they were; and
    a second start without a stop in between, when the kick descriptor of
    the first was not -1, fails on the assertion that the queue is not
    started. *)
Theorem fv_queue_set_started_then_stopped vud kick_fd new_kill_fd create_res
    qidx vud1 t1 :
  fv_queue_set_started vud kick_fd new_kill_fd create_res qidx true
  = Started vud1 t1 ->
  (forall kick' kill' create',
     fv_queue_set_started vud1 kick' kill' create' qidx false
     = Started (set_qi vud1 (vud_nqueues vud1)
                  (<[Z.to_nat qidx := None]> (vud_qi vud1)))
               [QKill new_kill_fd; QJoin qidx; QClose new_kill_fd]) /\
  (kick_fd <> -1 ->
   forall kick' kill' create',
     fv_queue_set_started vud1 kick' kill' create' qidx true
     = StartedAbort ChkNotStarted).
Proof.
  intros Hstart.
  destruct (fv_queue_set_started_slot _ _ _ _ _ _ _ Hstart)
    as (Hq & Hn & Hk & own & f & Hslot & -> & Hf & Hnot).
  assert (Hvalid : ((if vud_notify_enabled vud1 then 3 else 2) <=? qidx) = false).
  { rewrite Hnot. revert Hstart. unfold fv_queue_set_started.
    destruct (qidx <? 0); [discriminate|].
    destruct (_ <=? qidx); [discriminate|reflexivity]. }
  split.
  - intros kick' kill' create'. unfold fv_queue_set_started.
    destruct (Z.ltb_spec qidx 0) as [|_]; [lia|].
    rewrite Hvalid.
    destruct (Z.leb_spec (vud_nqueues vud1) qidx) as [|_]; [lia|].
    rewrite Hslot. reflexivity.
  - intros Hkick kick' kill' create'. unfold fv_queue_set_started.
    destruct (Z.ltb_spec qidx 0) as [|_]; [lia|].
    rewrite Hvalid.
    destruct (Z.leb_spec (vud_nqueues vud1) qidx) as [|_]; [lia|].
    rewrite Hslot. cbn [qi_kick_fd].
    destruct (Z.eqb_spec kick_fd (-1)) as [|_]; [contradiction|].
    reflexivity.
Qed.

(** *** The queue threads *)

(** The event of a pop, for each element a queue holds. *)
Lemma queue_pop_all_drains ch0 q avail :
  forall fuel w,
  w_avail w q = avail -> (length avail < fuel)%nat ->
  exists w',
    queue_pop_all fuel ch0 q w = Ok (requests_of ch0 avail) w' /\
    (forall q', w_avail w' q' = if Nat.eqb q' q then [] else w_avail w q') /\
    w_mem w' = w_mem w /\ w_held w' = w_held w /\ w_heap w' = w_heap w /\
    w_trace w' = w_trace w
                 ++ ((fun x => EvPop q (elem_index x.1.1)) <$> avail).
Proof.
  induction avail as [|[[e bad_in] bad_out] avail IH]; intros fuel w Hav Hfuel;
    (destruct fuel as [|fuel]; [simpl in Hfuel; lia|]);
    cbn [queue_pop_all]; unfold bind at 1, vu_queue_pop at 1; rewrite Hav.
  - exists w. split; [reflexivity|]. split.
    { intros q'. destruct (Nat.eqb_spec q' q) as [->|]; [exact Hav|reflexivity]. }
    rewrite app_nil_r. repeat split; reflexivity.
  - set (w1 := add_event _ _).
    destruct (IH fuel w1) as (w' & Hrun & Havail & Hmem & Hheld & Hheap & Htr).
    { subst w1. rewrite w_avail_add_event, w_avail_set_avail.
      rewrite Nat.eqb_refl. reflexivity. }
    { simpl in Hfuel. lia. }
    exists w'. unfold bind at 1. rewrite Hrun. split; [reflexivity|]. split.
    { intros q'. rewrite Havail. subst w1.
      rewrite w_avail_add_event, w_avail_set_avail.
      destruct (Nat.eqb q' q); reflexivity. }
    subst w1. revert Hmem Hheld Hheap Htr. field_simpl.
    intros -> -> -> ->. repeat split; try reflexivity.
    rewrite <- app_assoc. reflexivity.
Qed.

(** What a kick does to the state: the requests handed over, the queue
    left empty, and the events. *)
Lemma fv_queue_thread_kick_spec ch0 q w :
  q ∉ w_held w ->
  exists w',
    fv_queue_thread_kick ch0 q w = Ok (requests_of ch0 (w_avail w q)) w' /\
    (forall q', w_avail w' q' = if Nat.eqb q' q then [] else w_avail w q') /\
    w_mem w' = w_mem w /\ w_held w' = w_held w /\ w_heap w' = w_heap w /\
    w_trace w' = w_trace w ++ [EvRdLock; EvLock q]
                 ++ ((fun x => EvPop q (elem_index x.1.1)) <$> w_avail w q)
                 ++ [EvUnlock q; EvRwUnlock].
Proof.
  intros Hfree. unfold fv_queue_thread_kick.
  unfold bind at 1, pthread_rwlock_rdlock at 1, log_event at 1.
  unfold bind at 1, pthread_mutex_lock at 1.
  rewrite w_held_add_event, (not_held_existsb _ _ Hfree).
  set (w1 := add_event (EvLock q) _).
  assert (Hav1 : w_avail w1 q = w_avail w q) by reflexivity.
  destruct (queue_pop_all_drains ch0 q (w_avail w q)
              (S (length (w_avail w q))) w1 Hav1 ltac:(lia))
    as (w2 & Hrun & Havail & Hmem & Hheld & Hheap & Htr).
  unfold bind at 1. rewrite Hav1, Hrun.
  unfold bind, pthread_mutex_unlock, pthread_rwlock_unlock, log_event, ret.
  eexists. split; [reflexivity|].
  split.
  { intros q'. field_simpl. rewrite Havail. reflexivity. }
  field_simpl. rewrite Hmem, Hheld, Hheap, Htr. subst w1. field_simpl.
  rewrite (filter_released _ _ Hfree).
  repeat split; try reflexivity.
  rewrite <- !app_assoc. reflexivity.
Qed.

(** X15: a kick drains the queue.  When [ppoll] reports a kick and nothing
    else, [eventfd_read] succeeds and the queue's mutex is free,
    [fv_queue_thread] pops every element the queue holds, in order, under
    the read lock and the queue's mutex, hands each to the pool as a request
    with no reply yet and with the counts of unmappable vectors the pop
    gave, releases both locks and waits again: the queue is empty, and the
    other queues, memory and the mutexes held are as they were. *)
Theorem fv_queue_thread_kick_drains ch0 q p w :
  queue_poll_verdict p = PollKick ->
  q ∉ w_held w ->
  exists w',
    fv_queue_thread true ch0 q [(p, 0)] w
    = Ok (requests_of ch0 (w_avail w q), ThreadWaiting) w' /\
    (forall q', w_avail w' q' = if Nat.eqb q' q then [] else w_avail w q') /\
    w_mem w' = w_mem w /\ w_held w' = w_held w /\ w_heap w' = w_heap w /\
    w_trace w' = w_trace w ++ [EvRdLock; EvLock q]
                 ++ ((fun x => EvPop q (elem_index x.1.1)) <$> w_avail w q)
                 ++ [EvUnlock q; EvRwUnlock].
Proof.
  intros Hkick Hfree.
  destruct (fv_queue_thread_kick_spec ch0 q w Hfree) as (w' & Hrun & Hrest).
  exists w'. split; [|exact Hrest].
  unfold fv_queue_thread. cbn [fv_queue_thread_loop]. rewrite Hkick.
  change (negb (0 =? 0)) with false. cbv iota.
  unfold bind at 1. rewrite Hrun.
  unfold bind, ret. rewrite app_nil_r. reflexivity.
Qed.

(** X16: a kill beats a kick.  When [ppoll] returns with an event on the
    kill descriptor, the queue thread leaves its loop or fails an assertion:
    it takes no lock and pops nothing, whatever the kick descriptor reports
    and whatever events would follow. *)
Theorem fv_queue_thread_killed ch0 q p read_res events w :
  pr_res p <> -1 -> pr_kill_revents p <> 0 ->
  exists how,
    fv_queue_thread true ch0 q ((p, read_res) :: events) w = Ok ([], how) w /\
    how <> ThreadWaiting.
Proof.
  intros Hres Hkill. unfold fv_queue_thread. cbn [fv_queue_thread_loop].
  unfold queue_poll_verdict.
  destruct (Z.eqb_spec (pr_res p) (-1)) as [|_]; [contradiction|].
  destruct (negb (1 <=? pr_res p));
    [exists ThreadAborted; split; [reflexivity|discriminate]|].
  destruct (negb (Z.land (pr_kick_revents p) poll_errors =? 0));
    [exists ThreadQuit; split; [reflexivity|discriminate]|].
  destruct (negb (Z.land (pr_kill_revents p) poll_errors =? 0));
    [exists ThreadQuit; split; [reflexivity|discriminate]|].
  destruct (Z.eqb_spec (pr_kill_revents p) 0) as [|_]; [contradiction|].
  exists ThreadQuit. split; [reflexivity|discriminate].
Qed.

Lemma pushes_on_app q t1 t2 :
  pushes_on q (t1 ++ t2) = pushes_on q t1 ++ pushes_on q t2.
Proof. unfold pushes_on. apply omap_app. Qed.

Lemma pushes_on_pops q q' (avail : list (VuVirtqElement * Z * Z)) :
  pushes_on q ((fun x => EvPop q' (elem_index x.1.1)) <$> avail) = [].
Proof. induction avail as [|x avail IH]; [reflexivity|exact IH]. Qed.

Lemma requests_of_reply_sent ch0 avail :
  Forall (fun req => reply_sent req = false) (requests_of ch0 avail).
Proof.
  unfold requests_of. apply Forall_fmap, Forall_forall.
  intros [[e bi] bo] _. reflexivity.
Qed.

Section QueueExtras.

Context {abi : FuseAbi} {host : DaemonHost}.

(** The workers of a list of requests: one push each. *)
Lemma run_workers_pushes se process q :
  preadv_sets_errno host -> io_request_errno host -> se_qi se 1 <> Some q ->
  forall reqs w w',
  Forall (fun req => reply_sent req = false) reqs ->
  run_workers se process q reqs w = Ok tt w' ->
  exists lens, length lens = length reqs /\
    pushes_on q (w_trace w')
    = pushes_on q (w_trace w)
      ++ zip ((fun req => elem_index (elem req)) <$> reqs) lens.
Proof.
  intros Hhost Hio Hq. induction reqs as [|req reqs IH]; intros w w' Hrs Hrun.
  - injection Hrun as <-. exists []. rewrite app_nil_r.
    split; reflexivity.
  - apply Forall_cons in Hrs. destruct Hrs as [Hr Hrs].
    cbn [run_workers] in Hrun. unfold bind in Hrun.
    destruct (fv_queue_worker se process q req w) as [[] w1|] eqn:Hw;
      [|discriminate].
    destruct (fv_queue_worker_pushes_once se process q req w w1
                Hhost Hio Hq Hr Hw) as [len Hlen].
    destruct (IH w1 w' Hrs Hrun) as (lens & Hl & Hp).
    exists (len :: lens). split; [simpl; lia|].
    rewrite Hp, Hlen, <- app_assoc. reflexivity.
Qed.

(** X17: no element is lost between the pump and the workers.  When a kick
    has drained a request queue and the workers of the requests handed over
    have run one after the other and returned, the pushes on the queue since
    the kick are those of the elements popped, each once, in the order of
    the pops. *)
Theorem fv_queue_thread_kick_workers se process ch0 q w w' :
  preadv_sets_errno host -> io_request_errno host -> se_qi se 1 <> Some q ->
  q ∉ w_held w ->
  (do reqs <- fv_queue_thread_kick ch0 q;
   run_workers se process q reqs) w = Ok tt w' ->
  exists lens, length lens = length (w_avail w q) /\
    pushes_on q (w_trace w')
    = pushes_on q (w_trace w)
      ++ zip ((fun x => elem_index x.1.1) <$> w_avail w q) lens.
Proof.
  intros Hhost Hio Hq Hfree Hrun.
  destruct (fv_queue_thread_kick_spec ch0 q w Hfree)
    as (w1 & Hkick & _ & _ & _ & _ & Htr).
  unfold bind in Hrun. rewrite Hkick in Hrun.
  destruct (run_workers_pushes se process q Hhost Hio Hq _ _ _
              (requests_of_reply_sent ch0 (w_avail w q)) Hrun)
    as (lens & Hl & Hp).
  exists lens. split.
  { rewrite Hl. unfold requests_of. apply length_fmap. }
  rewrite Hp, Htr, !pushes_on_app, pushes_on_pops. cbn [pushes_on omap].
  rewrite !app_nil_r. f_equal. f_equal.
  unfold requests_of. rewrite <- list_fmap_compose.
  apply list_fmap_ext. intros i [[e bi] bo] _. reflexivity.
Qed.

End QueueExtras.

(** *** The listening socket *)

Lemma strreplace_length s old new :
  String.length (strreplace s old new) = String.length s.
Proof. induction s as [|c s IH]; simpl; [reflexivity|]. rewrite IH. reflexivity. Qed.

Lemma strreplace_clean s old new :
  old <> new -> ~ In old (String.list_ascii_of_string (strreplace s old new)).
Proof.
  intros Hne. induction s as [|c s IH]; simpl; [tauto|].
  intros [Hc|Hin]; [|exact (IH Hin)].
  destruct (Ascii.eqb_spec c old) as [->|Hco]; congruence.
Qed.

Lemma strreplace_absent s old new :
  ~ In old (String.list_ascii_of_string s) -> strreplace s old new = s.
Proof.
  induction s as [|c s IH]; simpl; [reflexivity|]. intros Hnot.
  destruct (Ascii.eqb_spec c old) as [->|_]; [tauto|].
  rewrite IH by tauto. reflexivity.
Qed.

Lemma strreplace_present s old new :
  old <> new -> In old (String.list_ascii_of_string s) ->
  strreplace s old new <> s.
Proof.
  intros Hne Hin Heq.
  apply (strreplace_clean s old new Hne). rewrite Heq. exact Hin.
Qed.

(** X18: the name of the lock file.  The part of the name after the
    directory holds no ['/'], so the file lies in the directory itself; the
    name does not tell a path from the same path with its ['/'] replaced by
    ['.'], so that two socket paths that differ only in this way, which
    there are for every path with a ['/'] in it, share one lock file. *)
Theorem socket_lock_path_collides dir path :
  ~ In "/"%char (String.list_ascii_of_string (strreplace path "/" ".")) /\
  socket_lock_path dir (strreplace path "/" ".") = socket_lock_path dir path /\
  (In "/"%char (String.list_ascii_of_string path) ->
   strreplace path "/" "." <> path).
Proof.
  split; [apply strreplace_clean; discriminate|]. split.
  - unfold socket_lock_path. f_equal. f_equal. f_equal.
    apply strreplace_absent. apply strreplace_clean. discriminate.
  - apply strreplace_present. discriminate.
Qed.

Section SocketExtras.

Variable sock_host : list sock_call -> sock_call -> Z.
Variable state_dir : string.

Local Abbreviation socket_lock := (fv_socket_lock sock_host state_dir).
Local Abbreviation create_listen_socket :=
  (fv_create_listen_socket sock_host state_dir).
Local Abbreviation session_mount := (virtio_session_mount sock_host state_dir).
Local Abbreviation session_close := (virtio_session_close).

(** X19: a directory that cannot be made.  [g_mkdir_with_parents] returns 0
    or -1, and [fv_socket_lock] tests its result against values below -1:
    whichever of the two it returns, the function goes on to write the pid
    file, and its result is 0 when the pid file was written and -1 when it
    was not. *)
Theorem fv_socket_lock_ignores_mkdir se h :
  sock_host h (CMkdir state_dir) = 0 \/ sock_host h (CMkdir state_dir) = -1 ->
  let lock := socket_lock_path state_dir (vu_socket_path se) in
  let h1 := h ++ [CMkdir state_dir] in
  (socket_lock se h).1.1
  = (if sock_host h1 (CWritePidfile lock) =? 0 then -1 else 0) /\
  (socket_lock se h).2 = h1 ++ [CWritePidfile lock] /\
  vu_socket_lock (socket_lock se h).1.2 = Some lock.
Proof.
  intros Hmk lock h1. unfold fv_socket_lock.
  destruct (Z.ltb_spec (sock_host h (CMkdir state_dir)) (-1)) as [|_]; [lia|].
  repeat split; reflexivity.
Qed.

(** X20: what the listening socket asks of the path.  When no listening
    descriptor is set, a socket path that is empty or has 108 characters or
    more is refused before anything is made (no directory, no lock file, no
    socket), and when the function returns 0 the path has between 1 and 107
    characters, the descriptor set is the one [socket] returned, which was
    bound to the path with the address length 2 plus the length of the path
    and listened on, and the lock file of the path has been recorded. *)
Theorem fv_create_listen_socket_path se h :
  vu_listen_fd se < 0 ->
  let len := Z.of_nat (String.length (vu_socket_path se)) in
  (len = 0 \/ sizeof_sun_path <= len ->
   create_listen_socket se h = (-1, se, h)) /\
  (forall se' h', create_listen_socket se h = (0, se', h') ->
     0 < len < sizeof_sun_path /\
     vu_socket_lock se'
     = Some (socket_lock_path state_dir (vu_socket_path se)) /\
     exists h0,
       h' = h0 ++ [CSocket;
                   CBind (vu_listen_fd se') (vu_socket_path se)
                         (sizeof_sun_family + len);
                   CListen (vu_listen_fd se')] /\
       sock_host h0 CSocket = vu_listen_fd se').
Proof.
  intros Hfd len. unfold fv_create_listen_socket. fold len.
  destruct (Z.leb_spec 0 (vu_listen_fd se)) as [|_]; [lia|].
  split.
  - intros [Hz|Hlong].
    + destruct (Z.leb_spec sizeof_sun_path len) as [|_]; [reflexivity|].
      rewrite Hz. reflexivity.
    + destruct (Z.leb_spec sizeof_sun_path len) as [|]; [reflexivity|lia].
  - intros se' h'.
    destruct (Z.leb_spec sizeof_sun_path len) as [|Hshort]; [discriminate|].
    destruct (Z.eqb_spec len 0) as [|Hnz]; [discriminate|].
    unfold fv_socket_lock.
    destruct (_ <? -1); [discriminate|]. cbv zeta.
    destruct (sock_host _ (CWritePidfile _) =? 0);
      [change (-1 =? -1) with true; cbv iota; discriminate|].
    change (0 =? -1) with false. cbv iota.
    destruct (sock_host _ CSocket =? -1); [discriminate|].
    destruct (sock_host _ (CBind _ _ _) =? -1); [discriminate|].
    destruct (sock_host _ (CListen _) =? -1); [discriminate|].
    intros H. injection H as <- <-. cbn [vu_socket_lock vu_listen_fd set_listen_fd].
    split; [lia|]. split; [reflexivity|].
    eexists. split; [|reflexivity].
    rewrite <- !app_assoc. reflexivity.
Qed.

(** X21: a mount that fails in [accept].  When a mount has created its
    listening socket and [accept] fails, the mount closes that descriptor
    and returns -1, but the session still holds the number of the closed
    descriptor: a second mount finds it set, creates nothing (no lock file,
    no socket, no bind, no listen) and calls [accept] on the closed
    descriptor. *)
Theorem virtio_session_mount_retry se h sea ha :
  vu_listen_fd se < 0 ->
  create_listen_socket se h = (0, sea, ha) ->
  0 <= vu_listen_fd sea ->
  sock_host ha (CAccept (vu_listen_fd sea)) = -1 ->
  let fd := vu_listen_fd sea in
  let h1 := ha ++ [CAccept fd; CClose fd] in
  exists se1,
    session_mount se h = (-1, se1, h1) /\ vu_listen_fd se1 = fd /\
    exists r se2 cs,
      session_mount se1 h1 = (r, se2, h1 ++ CAccept fd :: CClose fd :: cs) /\
      Forall (fun c => creates c = false) cs.
Proof.
  intros Hfd Hcreate Hsock Hacc fd h1. subst fd h1.
  unfold virtio_session_mount at 1. rewrite Hcreate.
  change (0 <? 0) with false. cbv iota zeta. cbn [vu_listen_fd].
  rewrite Hacc. change (-1 =? -1) with true. cbv iota.
  eexists. split; [reflexivity|]. split; [reflexivity|].
  unfold virtio_session_mount, fv_create_listen_socket.
  cbn [vu_listen_fd vu_socket_path].
  destruct (Z.leb_spec 0 (vu_listen_fd sea)) as [_|]; [|lia].
  change (0 <? 0) with false. cbv iota zeta. cbn [vu_listen_fd].
  destruct (_ =? -1).
  - eexists _, _, []. split; [rewrite <- app_assoc; reflexivity|].
    constructor.
  - eexists _, _, [_]. split; [rewrite <- app_assoc; reflexivity|].
    repeat constructor.
Qed.

(** X22: a session is mounted, then closed.  After a mount that returns 0
    the listening descriptor has been closed once and forgotten, the data
    socket is the descriptor [accept] gave, and the device has been set up
    on it with three queues; [virtio_session_close] then closes the data
    socket twice and forgets the device, where a session without a device
    has its socket closed once. *)
Theorem virtio_session_mount_close se h se1 h1 :
  session_mount se h = (0, se1, h1) ->
  (exists h0 listen_fd,
     h1 = h0 ++ [CAccept listen_fd; CClose listen_fd;
                 CVuInit 3 (vu_socketfd se1)] /\
     sock_host h0 (CAccept listen_fd) = vu_socketfd se1) /\
  vu_listen_fd se1 = -1 /\
  se_virtio_dev se1 = Some fresh_vud /\
  (session_close se1 h1).2
  = h1 ++ [CClose (vu_socketfd se1); CClose (vu_socketfd se1)] /\
  se_virtio_dev (session_close se1 h1).1 = None /\
  (session_close (session_close se1 h1).1 (session_close se1 h1).2).2
  = (session_close se1 h1).2 ++ [CClose (vu_socketfd se1)].
Proof.
  unfold virtio_session_mount.
  destruct (fv_create_listen_socket sock_host state_dir se h)
    as [[ret sea] ha].
  destruct (Z.ltb_spec ret 0) as [Hneg|_];
    [intros H; injection H as -> _ _; lia|].
  cbv zeta. cbn [vu_listen_fd vu_socket_path vu_socketfd vu_socket_lock].
  destruct (_ =? -1); [discriminate|].
  intros H. injection H as <- <-.
  cbn [vu_listen_fd vu_socketfd se_virtio_dev].
  split.
  { eexists _, _. split; [rewrite <- app_assoc; reflexivity|reflexivity]. }
  repeat split; try reflexivity.
  unfold virtio_session_close. cbn [se_virtio_dev vu_socketfd fst snd].
  rewrite <- app_assoc. reflexivity.
Qed.

End SocketExtras.

(** *** The daemon's IO messages on the device *)

Section IoMessages.

Variable N : nat.
Variable host_call : list syscall -> syscall -> Z * Z.
Variable memory_region_find : Z -> Z -> MemoryRegionSection.

Local Abbreviation slave_io :=
  (vhost_user_fs_slave_io N host_call memory_region_find).
Local Abbreviation io_while := (slave_io_while host_call memory_region_find).
Local Abbreviation io_loop := (slave_io_loop host_call memory_region_find).

Lemma adds_only_refl P h res done :
  adds_only P h (Some (inl (res, done, h))).
Proof. exists []. rewrite app_nil_r. split; constructor. Qed.

Lemma adds_only_step (P : syscall -> Prop) h c r :
  P c -> adds_only P (h ++ [c]) r -> adds_only P h r.
Proof.
  intros Hc. destruct r as [[[[res done] h']|h']|]; simpl; [|trivial..];
    intros (ios & -> & Hios); exists (c :: ios); rewrite <- app_assoc;
    (split; [reflexivity|constructor; assumption]).
Qed.

(** The inner loop on an entry whose flags are the read flag alone. *)
Lemma slave_io_while_read fuel gpa fd_off fd :
  forall len res done h,
  adds_only (is_pread fd) h
    (io_while fuel VHOST_USER_FS_FLAG_MAP_R gpa fd_off fd len res done h).
Proof.
  induction fuel as [|fuel IH]; intros len res done h; cbn [slave_io_while].
  - destruct ((len =? 0) || negb (res =? 0));
      [apply adds_only_refl|exact I].
  - destruct ((len =? 0) || negb (res =? 0)); [apply adds_only_refl|].
    destruct (mrs_size _ =? 0); [apply adds_only_refl|].
    change (negb (Z.land VHOST_USER_FS_FLAG_MAP_R VHOST_USER_FS_FLAG_MAP_R
                  =? 0)) with true. cbv iota.
    destruct (mrs_readonly _); [apply adds_only_refl|].
    cbv zeta. destruct (host_call _ _) as [transferred errno].
    match goal with |- context [h ++ [?c]] =>
      apply (adds_only_step (is_pread fd) h c); [exact eq_refl|] end.
    destruct (transferred <? 0); [apply adds_only_refl|].
    destruct (transferred =? 0); [apply adds_only_refl|].
    apply IH.
Qed.

(** The inner loop on an entry whose flags are the write flag alone. *)
Lemma slave_io_while_write fuel gpa fd_off fd :
  forall len res done h,
  adds_only (is_pwrite fd) h
    (io_while fuel VHOST_USER_FS_FLAG_MAP_W gpa fd_off fd len res done h).
Proof.
  induction fuel as [|fuel IH]; intros len res done h; cbn [slave_io_while].
  - destruct ((len =? 0) || negb (res =? 0));
      [apply adds_only_refl|exact I].
  - destruct ((len =? 0) || negb (res =? 0)); [apply adds_only_refl|].
    destruct (mrs_size _ =? 0); [apply adds_only_refl|].
    change (negb (Z.land VHOST_USER_FS_FLAG_MAP_W VHOST_USER_FS_FLAG_MAP_R
                  =? 0)) with false.
    change (Z.land VHOST_USER_FS_FLAG_MAP_W VHOST_USER_FS_FLAG_MAP_W =? 0)
      with false. cbv iota.
    cbv zeta. destruct (host_call _ _) as [transferred errno].
    match goal with |- context [h ++ [?c]] =>
      apply (adds_only_step (is_pwrite fd) h c); [exact eq_refl|] end.
    destruct (transferred <? 0); [apply adds_only_refl|].
    destruct (transferred =? 0); [apply adds_only_refl|].
    apply IH.
Qed.

(** The entries after the first of a single-range message are empty. *)
Lemma single_entry_msg_rest n flags fd_off c_off len i :
  (0 < i)%nat -> sm_len (single_entry_msg n flags fd_off c_off len) !!! i = 0
                 \/ (n <= i)%nat.
Proof.
  intros Hi. destruct i as [|i]; [lia|].
  destruct (decide (i < n - 1)%nat) as [Hlt|Hge]; [left|right; lia].
  cbn [single_entry_msg sm_len].
  change ((len :: replicate (n - 1) 0) !!! S i)
    with (replicate (n - 1) 0 !!! i).
  apply list_lookup_total_correct, lookup_replicate_2. exact Hlt.
Qed.

(** The outer loop over the entries after the first. *)
Lemma slave_io_loop_rest fuel flags fd_off c_off len fd res done h :
  forall n i, (0 < i)%nat -> (i + n <= N)%nat ->
  io_loop fuel (single_entry_msg N flags fd_off c_off len) fd n i res done h
  = Some (inl (res, done, h)).
Proof.
  induction n as [|n IH]; intros i Hi Hn; cbn [slave_io_loop]; [reflexivity|].
  destruct (negb (res =? 0)); [reflexivity|].
  destruct (single_entry_msg_rest N flags fd_off c_off len i Hi) as [->|];
    [|lia].
  cbn [Z.eqb]. apply IH; lia.
Qed.

(** IO on a single-range message whose inner loop adds only calls that
    satisfy [P]. *)
Lemma slave_io_single (P : syscall -> Prop) fuel flags fd_off c_off len fd h :
  0 <= fd ->
  (forall l res done h0,
     adds_only P h0 (io_while fuel flags c_off fd_off fd l res done h0)) ->
  forall fs,
  match slave_io fuel (Some fs)
          (single_entry_msg N flags fd_off c_off len) fd h with
  | IoRet _ h' => exists ios, h' = h ++ ios ++ [SysClose fd] /\ Forall P ios
  | IoAssert _ => False
  | IoFuel => True
  end.
Proof.
  intros Hfd Hw fs. unfold vhost_user_fs_slave_io.
  destruct (Z.ltb_spec fd 0) as [|_]; [lia|].
  assert (Hn : forall n, (n <= N)%nat ->
            adds_only P h
              (io_loop fuel (single_entry_msg N flags fd_off c_off len) fd
                       n 0%nat 0 0 h)).
  { intros [|n] Hn; cbn [slave_io_loop]; [apply adds_only_refl|].
    change (negb (0 =? 0)) with false. cbv iota.
    change (sm_len (single_entry_msg N flags fd_off c_off len) !!! 0%nat)
      with len.
    destruct (len =? 0).
    - rewrite slave_io_loop_rest by lia. apply adds_only_refl.
    - change (sm_flags (single_entry_msg N flags fd_off c_off len)
                !!! 0%nat) with flags.
      change (sm_c_offset (single_entry_msg N flags fd_off c_off len)
                !!! 0%nat) with c_off.
      change (sm_fd_offset (single_entry_msg N flags fd_off c_off len)
                !!! 0%nat) with fd_off.
      pose proof (Hw len 0 0 h) as H0.
      destruct (io_while _ _ _ _ _ _ _ _ _) as [[[[res' done'] h']|h']|];
        [|exact H0|exact I].
      rewrite slave_io_loop_rest by lia. exact H0. }
  pose proof (Hn N (Nat.le_refl N)) as Hl. clear Hn.
  destruct (io_loop _ _ _ _ _ _ _ _) as [[[[res done] h']|h']|];
    simpl in Hl; [|exact Hl|exact I].
  destruct Hl as (ios & -> & Hios).
  destruct (res <? 0); exists ios; rewrite <- app_assoc; split;
    (reflexivity || assumption).
Qed.

(** The inner loop ends: each turn that goes on has moved at least one
    byte of what is left, when a transfer moves no more than it is asked
    for and a range resolves to no more than the range. *)
Lemma slave_io_while_returns flags gpa fd_off fd :
  transfers_at_most host_call -> resolves_within memory_region_find ->
  Z.land flags VHOST_USER_FS_FLAG_MAP_R <> 0 \/
  Z.land flags VHOST_USER_FS_FLAG_MAP_W <> 0 ->
  forall fuel len res done h,
  0 <= len < UINT64_MOD -> (Z.to_nat len < fuel)%nat ->
  exists res' done' h',
    io_while fuel flags gpa fd_off fd len res done h
    = Some (inl (res', done', h')).
Proof.
  intros Hhost Hmrf Hdir.
  induction fuel as [|fuel IH]; intros len res done h Hlen Hfuel; [lia|].
  cbn [slave_io_while].
  destruct ((len =? 0) || negb (res =? 0)) eqn:Hend;
    [eexists; eexists; eexists; reflexivity|].
  apply orb_false_iff in Hend. destruct Hend as [Hnz _].
  apply Z.eqb_neq in Hnz.
  pose proof (Hmrf gpa len) as Hsize.
  destruct (mrs_size _ =? 0); [eexists; eexists; eexists; reflexivity|].
  destruct (Z.eqb_spec (Z.land flags VHOST_USER_FS_FLAG_MAP_R) 0) as [Hr|Hr];
    cbn [negb].
  - destruct (Z.eqb_spec (Z.land flags VHOST_USER_FS_FLAG_MAP_W) 0) as [Hw|_];
      [destruct Hdir; contradiction|].
    cbv zeta.
    pose proof (Hhost h fd (mrs_hostptr (memory_region_find gpa len))
                  (mrs_size (memory_region_find gpa len)) fd_off) as [_ Hmost].
    destruct (host_call _ _) as [transferred errno]. cbn [fst] in Hmost.
    destruct (Z.ltb_spec transferred 0);
      [eexists; eexists; eexists; reflexivity|].
    destruct (Z.eqb_spec transferred 0);
      [eexists; eexists; eexists; reflexivity|].
    assert (Hless : 0 <= len - transferred < len) by lia.
    apply IH; unfold to_uint64; rewrite Z.mod_small by lia; lia.
  - destruct (mrs_readonly _); [eexists; eexists; eexists; reflexivity|].
    cbv zeta.
    pose proof (Hhost h fd (mrs_hostptr (memory_region_find gpa len))
                  (mrs_size (memory_region_find gpa len)) fd_off) as [Hmost _].
    destruct (host_call _ _) as [transferred errno]. cbn [fst] in Hmost.
    destruct (Z.ltb_spec transferred 0);
      [eexists; eexists; eexists; reflexivity|].
    destruct (Z.eqb_spec transferred 0);
      [eexists; eexists; eexists; reflexivity|].
    assert (Hless : 0 <= len - transferred < len) by lia.
    apply IH; unfold to_uint64; rewrite Z.mod_small by lia; lia.
Qed.

(** IO on a single-range message returns. *)
Lemma slave_io_single_returns fuel flags fd_off c_off len fd h fs :
  0 <= fd ->
  transfers_at_most host_call -> resolves_within memory_region_find ->
  Z.land flags VHOST_USER_FS_FLAG_MAP_R <> 0 \/
  Z.land flags VHOST_USER_FS_FLAG_MAP_W <> 0 ->
  0 <= len < UINT64_MOD -> (Z.to_nat len < fuel)%nat ->
  exists r h',
    slave_io fuel (Some fs) (single_entry_msg N flags fd_off c_off len) fd h
    = IoRet r h'.
Proof.
  intros Hfd Hhost Hmrf Hdir Hlen Hfuel. unfold vhost_user_fs_slave_io.
  destruct (Z.ltb_spec fd 0) as [|_]; [lia|].
  assert (Hn : forall n, (n <= N)%nat ->
            exists res done h',
              io_loop fuel (single_entry_msg N flags fd_off c_off len) fd
                      n 0%nat 0 0 h = Some (inl (res, done, h'))).
  { intros [|n] Hn; cbn [slave_io_loop];
      [eexists; eexists; eexists; reflexivity|].
    change (negb (0 =? 0)) with false. cbv iota.
    change (sm_len (single_entry_msg N flags fd_off c_off len) !!! 0%nat)
      with len.
    destruct (len =? 0).
    - rewrite slave_io_loop_rest by lia. eexists; eexists; eexists; reflexivity.
    - change (sm_flags (single_entry_msg N flags fd_off c_off len)
                !!! 0%nat) with flags.
      change (sm_c_offset (single_entry_msg N flags fd_off c_off len)
                !!! 0%nat) with c_off.
      change (sm_fd_offset (single_entry_msg N flags fd_off c_off len)
                !!! 0%nat) with fd_off.
      destruct (slave_io_while_returns flags c_off fd_off fd Hhost Hmrf Hdir
                  fuel len 0 0 h Hlen Hfuel) as (res' & done' & h' & ->).
      rewrite slave_io_loop_rest by lia.
      eexists; eexists; eexists; reflexivity. }
  destruct (Hn N (Nat.le_refl N)) as (res & done & h' & ->).
  destruct (res <? 0); eexists; eexists; reflexivity.
Qed.

(** X23: the two IO messages the daemon builds, on the device.  The
    message of [fuse_virtio_write] makes IO only [pwrite] to the file, and
    the message [virtio_send_data_iov] builds for an unmappable buffer makes
    it only [pread] from the file; with either IO never stops on its
    assertion, and whenever it returns it has closed the file descriptor,
    its last call.  And it does return: on a host whose transfers move no
    more than they are asked for, with guest memory whose ranges resolve to
    no more than the range, one turn of the inner loop more than the
    message has bytes is enough. *)
Theorem daemon_io_messages_on_device fuel fs fd h
    fd_offset src_mem src_off len pos base msg_len :
  0 <= fd ->
  (match slave_io fuel (Some fs)
           (fuse_virtio_write_msg N fd_offset src_mem src_off len) fd h with
   | IoRet _ h' =>
       exists ios, h' = h ++ ios ++ [SysClose fd] /\
                   Forall (is_pwrite fd) ios
   | IoAssert _ => False
   | IoFuel => True
   end /\
   match slave_io fuel (Some fs)
           (single_entry_msg N VHOST_USER_FS_FLAG_MAP_R pos base msg_len)
           fd h with
   | IoRet _ h' =>
       exists ios, h' = h ++ ios ++ [SysClose fd] /\
                   Forall (is_pread fd) ios
   | IoAssert _ => False
   | IoFuel => True
   end) /\
  (transfers_at_most host_call -> resolves_within memory_region_find ->
   (0 <= len < UINT64_MOD -> (Z.to_nat len < fuel)%nat ->
    exists r ios,
      slave_io fuel (Some fs)
        (fuse_virtio_write_msg N fd_offset src_mem src_off len) fd h
      = IoRet r (h ++ ios ++ [SysClose fd]) /\
      Forall (is_pwrite fd) ios) /\
   (0 <= msg_len < UINT64_MOD -> (Z.to_nat msg_len < fuel)%nat ->
    exists r ios,
      slave_io fuel (Some fs)
        (single_entry_msg N VHOST_USER_FS_FLAG_MAP_R pos base msg_len) fd h
      = IoRet r (h ++ ios ++ [SysClose fd]) /\
      Forall (is_pread fd) ios)).
Proof.
  intros Hfd.
  assert (Hw : match slave_io fuel (Some fs)
                       (fuse_virtio_write_msg N fd_offset src_mem src_off len)
                       fd h with
               | IoRet _ h' =>
                   exists ios, h' = h ++ ios ++ [SysClose fd] /\
                               Forall (is_pwrite fd) ios
               | IoAssert _ => False
               | IoFuel => True
               end).
  { unfold fuse_virtio_write_msg.
    apply (slave_io_single (is_pwrite fd)); [exact Hfd|].
    intros. apply slave_io_while_write. }
  assert (Hr : match slave_io fuel (Some fs)
                       (single_entry_msg N VHOST_USER_FS_FLAG_MAP_R pos base
                                         msg_len) fd h with
               | IoRet _ h' =>
                   exists ios, h' = h ++ ios ++ [SysClose fd] /\
                               Forall (is_pread fd) ios
               | IoAssert _ => False
               | IoFuel => True
               end).
  { apply (slave_io_single (is_pread fd)); [exact Hfd|].
    intros. apply slave_io_while_read. }
  split; [split; [exact Hw|exact Hr]|].
  intros Hhost Hmrf. split.
  - intros Hlen Hfuel.
    destruct (slave_io_single_returns fuel VHOST_USER_FS_FLAG_MAP_W fd_offset
                (to_uint64 (src_mem + src_off)) len fd h fs Hfd Hhost Hmrf
                ltac:(right; discriminate) Hlen Hfuel) as (r & h' & Hret).
    unfold fuse_virtio_write_msg in Hw |- *. rewrite Hret in Hw |- *.
    destruct Hw as (ios & -> & Hios). exists r, ios.
    split; [reflexivity|exact Hios].
  - intros Hlen Hfuel.
    destruct (slave_io_single_returns fuel VHOST_USER_FS_FLAG_MAP_R pos base
                msg_len fd h fs Hfd Hhost Hmrf
                ltac:(left; discriminate) Hlen Hfuel) as (r & h' & Hret).
    rewrite Hret in Hr |- *.
    destruct Hr as (ios & -> & Hios). exists r, ios.
    split; [reflexivity|exact Hios].
Qed.

End IoMessages.

(** ** Further properties of the device: start, stop and realize *)

Section LifeCycleExtras.

Variable vhost_host : list vhost_call -> vhost_call -> Z.
Variable VIRTIO_CONFIG_S_DRIVER_OK : Z.

Local Abbreviation replay := (vhost_replay vhost_host).

Lemma vhost_replay_app h t1 t2 s :
  replay h (t1 ++ t2) s = replay (h ++ t1) t2 (replay h t1 s).
Proof.
  revert h s. induction t1 as [|c t1 IH]; intros h s; cbn [app vhost_replay].
  - rewrite app_nil_r. reflexivity.
  - rewrite IH, <- app_assoc. reflexivity.
Qed.

(** Unmasking queues changes nothing that is counted. *)
Lemma vhost_replay_unmask (l : list Z) :
  forall h s,
  replay h ((fun i => VhostVirtqueueMask i false) <$> l) s = s.
Proof.
  induction l as [|i l IH]; intros h s; cbn [fmap list_fmap vhost_replay];
    [reflexivity|].
  apply IH.
Qed.

Lemma unmasks_fmap (l : list Z) :
  omap unmasks ((fun i => VhostVirtqueueMask i false) <$> l) = l.
Proof.
  induction l as [|i l IH]; cbn; [reflexivity|]. f_equal. exact IH.
Qed.

Lemma vhost_state_eq s :
  {| host_notifiers := host_notifiers s;
     guest_notifiers := guest_notifiers s;
     vhost_started := vhost_started s |} = s.
Proof. destruct s; reflexivity. Qed.

(** X24: starting is all or nothing.  [vuf_start] leaves the device
    started, every queue unmasked once and in order, or it leaves the host
    notifiers, the guest notifiers and vhost as they were and unmasks no
    queue; the one exception is a failed start of vhost whose unbinding of
    the guest notifiers fails too, a result [vuf_start] does not look at:
    then the guest notifiers stay bound. *)
Theorem vuf_start_all_or_nothing d h s :
  exists t,
    vuf_start vhost_host d h = h ++ t /\
    ((replay h t s = vhost_up s /\ omap unmasks t = seqZ 0 (nvqs d)) \/
     (replay h t s = s /\ omap unmasks t = []) \/
     (replay h t s = {| host_notifiers := host_notifiers s;
                        guest_notifiers := guest_notifiers s + 1;
                        vhost_started := vhost_started s |} /\
      omap unmasks t = [] /\
      vhost_host (h ++ [VhostDevEnableNotifiers;
                        SetGuestNotifiers (nvqs d) true;
                        SetAckedFeatures (guest_features d);
                        VhostDevStart])
                 (SetGuestNotifiers (nvqs d) false) < 0)).
Proof.
  unfold vuf_start.
  destruct (has_set_guest_notifiers d); cbn [negb].
  2: { exists []. rewrite app_nil_r. split; [reflexivity|].
       right; left. split; reflexivity. }
  cbv zeta.
  destruct (Z.ltb_spec (vhost_host h VhostDevEnableNotifiers) 0) as [H1|H1].
  { exists [VhostDevEnableNotifiers]. split; [reflexivity|].
    right; left. cbn [vhost_replay vhost_effect omap list_omap unmasks].
    destruct (Z.ltb_spec (vhost_host h VhostDevEnableNotifiers) 0);
      [|lia]. split; reflexivity. }
  destruct (Z.ltb_spec (vhost_host (h ++ [VhostDevEnableNotifiers])
                          (SetGuestNotifiers (nvqs d) true)) 0) as [H2|H2].
  { exists [VhostDevEnableNotifiers; SetGuestNotifiers (nvqs d) true;
            VhostDevDisableNotifiers].
    split; [rewrite <- !app_assoc; reflexivity|].
    right; left. cbn [vhost_replay vhost_effect omap list_omap unmasks].
    destruct (Z.ltb_spec (vhost_host h VhostDevEnableNotifiers) 0); [lia|].
    destruct (Z.ltb_spec (vhost_host (h ++ [VhostDevEnableNotifiers])
                            (SetGuestNotifiers (nvqs d) true)) 0); [|lia].
    cbn [negb host_notifiers guest_notifiers vhost_started].
    split; [|reflexivity].
    destruct s as [a b c]; cbn. f_equal; lia. }
  set (h3 := ((h ++ [VhostDevEnableNotifiers]) ++
              [SetGuestNotifiers (nvqs d) true]) ++
             [SetAckedFeatures (guest_features d)]).
  assert (Hh3 : h3 = h ++ [VhostDevEnableNotifiers;
                           SetGuestNotifiers (nvqs d) true;
                           SetAckedFeatures (guest_features d)])
    by (unfold h3; rewrite <- !app_assoc; reflexivity).
  assert (Hpre : forall t' s0,
            replay h ([VhostDevEnableNotifiers;
                       SetGuestNotifiers (nvqs d) true;
                       SetAckedFeatures (guest_features d)] ++ t') s0
            = replay h3 t'
                {| host_notifiers := host_notifiers s0 + 1;
                   guest_notifiers := guest_notifiers s0 + 1;
                   vhost_started := vhost_started s0 |}).
  { intros t' s0. rewrite vhost_replay_app, <- Hh3. f_equal.
    cbn [vhost_replay vhost_effect].
    destruct (Z.ltb_spec (vhost_host h VhostDevEnableNotifiers) 0); [lia|].
    destruct (Z.ltb_spec (vhost_host (h ++ [VhostDevEnableNotifiers])
                            (SetGuestNotifiers (nvqs d) true)) 0); [lia|].
    reflexivity. }
  destruct (Z.ltb_spec (vhost_host h3 VhostDevStart) 0) as [H3|H3].
  - exists ([VhostDevEnableNotifiers; SetGuestNotifiers (nvqs d) true;
             SetAckedFeatures (guest_features d)] ++
            [VhostDevStart; SetGuestNotifiers (nvqs d) false;
             VhostDevDisableNotifiers]).
    split; [rewrite Hh3, <- !app_assoc; reflexivity|].
    rewrite Hpre. cbn [vhost_replay vhost_effect].
    destruct (Z.ltb_spec (vhost_host h3 VhostDevStart) 0); [|lia].
    cbn [negb host_notifiers guest_notifiers vhost_started].
    assert (Hh4 : h3 ++ [VhostDevStart]
                  = h ++ [VhostDevEnableNotifiers;
                          SetGuestNotifiers (nvqs d) true;
                          SetAckedFeatures (guest_features d);
                          VhostDevStart])
      by (rewrite Hh3, <- app_assoc; reflexivity).
    rewrite Hh4.
    destruct (Z.ltb_spec
                (vhost_host (h ++ [VhostDevEnableNotifiers;
                                   SetGuestNotifiers (nvqs d) true;
                                   SetAckedFeatures (guest_features d);
                                   VhostDevStart])
                            (SetGuestNotifiers (nvqs d) false)) 0) as [H4|H4];
      cbn [negb host_notifiers guest_notifiers vhost_started].
    + right; right. split; [|split; [reflexivity|exact H4]].
      destruct s as [a b c]; cbn. f_equal; lia.
    + right; left. split; [|reflexivity].
      destruct s as [a b c]; cbn. f_equal; lia.
  - exists ([VhostDevEnableNotifiers; SetGuestNotifiers (nvqs d) true;
             SetAckedFeatures (guest_features d)] ++
            [VhostDevStart] ++
            ((fun i => VhostVirtqueueMask i false) <$> seqZ 0 (nvqs d))).
    split; [rewrite Hh3, <- !app_assoc; reflexivity|].
    left. split.
    + rewrite Hpre, vhost_replay_app, vhost_replay_unmask.
      cbn [vhost_replay vhost_effect].
      destruct (Z.ltb_spec (vhost_host h3 VhostDevStart) 0); [lia|].
      reflexivity.
    + cbn [app omap list_omap unmasks]. apply unmasks_fmap.
Qed.

(** X25: unrealize stops what is started, once, before it cleans up.  On
    a bus with guest notifiers, for a device that is started the calls of
    [vuf_device_unrealize] stop vhost and undo both notifiers, unless
    unbinding the guest notifiers fails: then the host notifiers stay
    enabled.  For a device that is not started there are only the four
    cleanups. *)
Theorem vuf_device_unrealize_stops d h s :
  has_set_guest_notifiers d = true ->
  exists t,
    vuf_device_unrealize vhost_host VIRTIO_CONFIG_S_DRIVER_OK d h
    = h ++ t ++ [VhostDevCleanup; VhostUserCleanup; VirtioCleanup; FreeVqs] /\
    if started d then
      replay h t s =
      if vhost_host (h ++ [VhostDevStop])
                    (SetGuestNotifiers (nvqs d) false) <? 0
      then {| host_notifiers := host_notifiers s;
              guest_notifiers := guest_notifiers s;
              vhost_started := vhost_started s - 1 |}
      else vhost_down s
    else t = [].
Proof.
  intros Hk. unfold vuf_device_unrealize, vuf_set_status.
  rewrite Z.land_0_l. change (negb (0 =? 0)) with false.
  assert (Hs : (if negb (vm_running d) then false else false) = false)
    by (destruct (vm_running d); reflexivity).
  rewrite Hs. cbv zeta.
  destruct (started d); cbn [Bool.eqb].
  - unfold vuf_stop. rewrite Hk. cbn [negb]. cbv zeta.
    destruct (Z.ltb_spec (vhost_host (h ++ [VhostDevStop])
                            (SetGuestNotifiers (nvqs d) false)) 0) as [H|H].
    + exists [VhostDevStop; SetGuestNotifiers (nvqs d) false].
      split; [rewrite <- !app_assoc; reflexivity|].
      cbn [vhost_replay vhost_effect].
      destruct (Z.ltb_spec (vhost_host (h ++ [VhostDevStop])
                              (SetGuestNotifiers (nvqs d) false)) 0); [|lia].
      reflexivity.
    + exists [VhostDevStop; SetGuestNotifiers (nvqs d) false;
              VhostDevDisableNotifiers].
      split; [rewrite <- !app_assoc; reflexivity|].
      cbn [vhost_replay vhost_effect].
      destruct (Z.ltb_spec (vhost_host (h ++ [VhostDevStop])
                              (SetGuestNotifiers (nvqs d) false)) 0); [lia|].
      reflexivity.
  - exists []. split; reflexivity.
Qed.

(** X26: only a running machine starts the device.  When the machine is
    stopped, or the driver has not set DRIVER_OK, [vuf_set_status] does not
    start vhost and enables no notifier; when the device is not started
    either it makes no call at all. *)
Theorem vuf_set_status_stopped_machine d status h :
  vm_running d = false \/ Z.land status VIRTIO_CONFIG_S_DRIVER_OK = 0 ->
  exists t,
    vuf_set_status vhost_host VIRTIO_CONFIG_S_DRIVER_OK d status h = h ++ t /\
    (VhostDevStart ∉ t) /\ (VhostDevEnableNotifiers ∉ t) /\
    (forall n, SetGuestNotifiers n true ∉ t) /\
    (started d = false -> t = []).
Proof.
  intros Hoff. unfold vuf_set_status.
  assert (Hs : (if negb (vm_running d) then false
                else negb (Z.land status VIRTIO_CONFIG_S_DRIVER_OK =? 0))
               = false).
  { destruct Hoff as [->| ->]; [reflexivity|].
    destruct (vm_running d); reflexivity. }
  cbv zeta. rewrite Hs.
  destruct (started d); cbn [Bool.eqb].
  - unfold vuf_stop. destruct (has_set_guest_notifiers d); cbn [negb].
    + cbv zeta.
      destruct (vhost_host _ _ <? 0);
        [exists [VhostDevStop; SetGuestNotifiers (nvqs d) false]
        |exists [VhostDevStop; SetGuestNotifiers (nvqs d) false;
                 VhostDevDisableNotifiers]];
        (split; [rewrite <- !app_assoc; reflexivity|]);
        (split; [|split; [|split; [intros n|discriminate]]]);
        intros Hin;
        repeat (apply elem_of_cons in Hin as [Hin|Hin]; [discriminate Hin|]);
        apply elem_of_nil in Hin; exact Hin.
    + exists []. rewrite app_nil_r.
      split; [reflexivity|].
      split; [apply not_elem_of_nil|].
      split; [apply not_elem_of_nil|].
      split; [intros n; apply not_elem_of_nil|reflexivity].
  - exists []. rewrite app_nil_r.
      split; [reflexivity|].
      split; [apply not_elem_of_nil|].
      split; [apply not_elem_of_nil|].
      split; [intros n; apply not_elem_of_nil|reflexivity].
Qed.

End LifeCycleExtras.

(** *** Realizing the device *)

(** Every call of a run of calls satisfies a test. *)
Ltac calls_forall :=
  repeat first
    [ assumption
    | match goal with |- Forall _ [] => constructor end
    | match goal with |- Forall _ (_ :: _) =>
        apply Forall_cons; split; [first [reflexivity | discriminate]|] end
    | match goal with |- Forall _ (_ ++ _) => apply Forall_app; split end
    | match goal with |- Forall _ (if ?b then _ else _) => destruct b end
    | match goal with |- Forall _ (table_region_calls _ _) =>
        unfold table_region_calls end ].

Section RealizeExtras.

Variable realize_host : list realize_call -> realize_call -> Z * Z.
Variable is_power_of_2 : Z -> bool.
Variable VIRTQUEUE_MAX_SIZE : Z.
Variable page_size : Z.
Variable mdvt_size0 : Z.

Local Abbreviation realize :=
  (vuf_device_realize realize_host is_power_of_2 VIRTQUEUE_MAX_SIZE
                      page_size mdvt_size0).
Local Abbreviation regions := (realize_regions realize_host).
Local Abbreviation cache := (realize_cache realize_host).
Local Abbreviation accepted :=
  (conf_accepted is_power_of_2 VIRTQUEUE_MAX_SIZE page_size).

(** The three ways the end of realize goes. *)
Lemma realize_regions_shape conf mdvtfd mdvt_size h :
  0 <= conf_num_request_queues conf ->
  let pre := (if negb (mdvtfd =? 0)
              then table_region_calls mdvtfd mdvt_size else []) ++
             [RVhostUserInit] in
  regions conf mdvtfd mdvt_size h = (Some ErrVhostUserInit, h ++ pre) \/
  regions conf mdvtfd mdvt_size h = (None, h ++ pre ++ queue_calls conf) \/
  regions conf mdvtfd mdvt_size h
  = (Some ErrVhostDevInit,
     h ++ pre ++ queue_calls conf ++
     [RVhostUserCleanup; RVirtioCleanup; RFreeVqs]).
Proof.
  intros Hq pre. unfold realize_regions. cbv zeta.
  set (h1 := if negb (mdvtfd =? 0)
             then h ++ [RInitRamFromFd mdvt_size mdvtfd; RSetReadonly]
             else h).
  assert (H1 : h1 ++ [RVhostUserInit] = h ++ pre).
  { unfold h1, pre, table_region_calls.
    destruct (negb (mdvtfd =? 0)); rewrite <- ?app_assoc; reflexivity. }
  assert (Hqc : forall l,
            (((l ++ [RVirtioInit (Z.of_nat sizeof_virtio_fs_config)]) ++
              [RAddQueue (conf_queue_size conf)]) ++
             replicate (Z.to_nat (conf_num_request_queues conf))
                       (RAddQueue (conf_queue_size conf))) ++
            [RVhostDevInit (1 + conf_num_request_queues conf)]
            = l ++ queue_calls conf).
  { intros l. unfold queue_calls.
    replace (Z.to_nat (1 + conf_num_request_queues conf))
      with (S (Z.to_nat (conf_num_request_queues conf))) by lia.
    cbn [replicate]. rewrite <- !app_assoc. reflexivity. }
  destruct ((realize_host h1 RVhostUserInit).1 =? 0).
  - left. rewrite H1. reflexivity.
  - right. rewrite Hqc.
    destruct (_ <? 0).
    + right. rewrite <- app_assoc, H1, <- !app_assoc. reflexivity.
    + left. rewrite H1, <- !app_assoc. reflexivity.
Qed.

(** The bytes of the calls from the blank cache on. *)
Lemma realize_cache_shape conf mdvtfd mdvt_size h :
  0 <= conf_num_request_queues conf ->
  let ptr := (realize_host h (RMmapBlank (conf_cache_size conf))).1 in
  let pre :=
    (if negb (conf_cache_size conf =? 0)
     then [RMmapBlank (conf_cache_size conf);
           RInitRamPtr (conf_cache_size conf) ptr]
     else []) ++
    (if negb (mdvtfd =? 0)
     then table_region_calls mdvtfd mdvt_size else []) ++
    [RVhostUserInit] in
  (conf_cache_size conf <> 0 /\ ptr = UINT64_ALL_ONES /\
   cache conf mdvtfd mdvt_size h
   = (Some ErrMmapCache, h ++ [RMmapBlank (conf_cache_size conf)])) \/
  ((conf_cache_size conf = 0 \/ ptr <> UINT64_ALL_ONES) /\
   (cache conf mdvtfd mdvt_size h = (Some ErrVhostUserInit, h ++ pre) \/
    cache conf mdvtfd mdvt_size h = (None, h ++ pre ++ queue_calls conf) \/
    cache conf mdvtfd mdvt_size h
    = (Some ErrVhostDevInit,
       h ++ pre ++ queue_calls conf ++
       [RVhostUserCleanup; RVirtioCleanup; RFreeVqs]))).
Proof.
  intros Hq ptr pre. unfold realize_cache.
  destruct (Z.eqb_spec (conf_cache_size conf) 0) as [Hz|Hz]; cbn [negb].
  - right. split; [left; exact Hz|].
    subst pre. rewrite Hz. cbn [Z.eqb negb app].
    apply realize_regions_shape. exact Hq.
  - cbv zeta. fold ptr.
    destruct (Z.eqb_spec ptr UINT64_ALL_ONES) as [Hm|Hm].
    + left. repeat split; assumption.
    + right. split; [right; exact Hm|].
      pose proof (realize_regions_shape conf mdvtfd mdvt_size
                    ((h ++ [RMmapBlank (conf_cache_size conf)]) ++
                     [RInitRamPtr (conf_cache_size conf) ptr]) Hq) as Hr.
      cbv zeta in Hr. subst pre.
      destruct (conf_cache_size conf =? 0) eqn:E;
        [apply Z.eqb_eq in E; contradiction|]. cbn [negb].
      destruct Hr as [Hr|[Hr|Hr]]; rewrite Hr;
        [left|right; left|right; right]; f_equal;
        rewrite <- !app_assoc; reflexivity.
Qed.

(** What the checks leave of realize for a configuration they accept. *)
Lemma realize_accepted conf h :
  accepted conf ->
  realize conf h =
  match conf_mdvtpath conf with
  | Some path =>
      let mdvtfd := (realize_host h (ROpen path)).1 in
      if mdvtfd <? 0 then (Some ErrOpenTable, h ++ [ROpen path])
      else
        let st := realize_host (h ++ [ROpen path]) (RFstat mdvtfd) in
        if st.1 =? -1
        then (Some ErrStatTable,
              ((h ++ [ROpen path]) ++ [RFstat mdvtfd]) ++ [RClose mdvtfd])
        else cache conf mdvtfd (to_uint64 st.2)
                   ((h ++ [ROpen path]) ++ [RFstat mdvtfd])
  | None => cache conf (-1) mdvt_size0 h
  end.
Proof.
  intros (Hc & (tag & Ht & Hlen) & Hn & Hp & Hm & Hcs).
  unfold vuf_device_realize. rewrite Hc, Ht. cbn [negb]. cbv zeta.
  destruct (Nat.eqb_spec (String.length tag) 0) as [|_]; [lia|].
  destruct (Nat.ltb_spec sizeof_tag (String.length tag)) as [|_]; [lia|].
  destruct (Z.eqb_spec (conf_num_request_queues conf) 0) as [|_];
    [contradiction|].
  rewrite Hp. cbn [negb].
  destruct (Z.ltb_spec VIRTQUEUE_MAX_SIZE (conf_queue_size conf)) as [|_];
    [lia|].
  assert (Hcache : negb (conf_cache_size conf =? 0) &&
                   (negb (is_power_of_2 (conf_cache_size conf)) ||
                    (conf_cache_size conf <? to_uint64 page_size)) = false).
  { destruct Hcs as [->|[Hp2 Hpg]]; [reflexivity|].
    rewrite Hp2. cbn [negb orb].
    destruct (Z.ltb_spec (conf_cache_size conf) (to_uint64 page_size));
      [lia|]. apply andb_false_r. }
  rewrite Hcache. reflexivity.
Qed.

(** X27: the region of the version table hangs on [if (mdvtfd)], and
    [mdvtfd] starts as -1.  For an accepted configuration that names no
    version table, realize still sets up the region, from file descriptor
    -1, once the blank cache is there; for one whose table opens as file
    descriptor 0 it sets up none. *)
Theorem vuf_device_realize_version_table conf h :
  accepted conf -> 0 <= conf_num_request_queues conf ->
  match conf_mdvtpath conf with
  | None =>
      conf_cache_size conf = 0 \/
      (realize_host h (RMmapBlank (conf_cache_size conf))).1
      <> UINT64_ALL_ONES ->
      exists t1 t2,
        (realize conf h).2
        = h ++ t1 ++ table_region_calls (-1) mdvt_size0 ++ t2
  | Some path =>
      (realize_host h (ROpen path)).1 = 0 ->
      exists t, (realize conf h).2 = h ++ t /\
                Forall (fun c => is_init_from_fd c = false) t
  end.
Proof.
  intros Hacc Hq. rewrite (realize_accepted conf h Hacc).
  destruct (conf_mdvtpath conf) as [path|].
  - intros Hfd. cbv zeta. rewrite Hfd. cbn [Z.ltb Z.compare].
    destruct (_ =? -1).
    + exists [ROpen path; RFstat 0; RClose 0].
      split; [rewrite <- !app_assoc; reflexivity|].
      repeat constructor.
    + set (h2 := (h ++ [ROpen path]) ++ [RFstat 0]).
      set (sz := to_uint64 _).
      assert (Hqc : Forall (fun c => is_init_from_fd c = false)
                           (queue_calls conf)).
      { unfold queue_calls. constructor; [reflexivity|].
        apply Forall_app. split; [|repeat constructor].
        apply Forall_replicate. reflexivity. }
      pose proof (realize_cache_shape conf 0 sz h2 Hq) as Hs.
      cbv zeta in Hs. revert Hs Hqc. generalize (queue_calls conf).
      intros qc Hs Hqc.
      destruct Hs
        as [(_ & _ & ->)|(_ & [->|[->| ->]])]; cbn [snd negb Z.eqb app];
        unfold h2; rewrite <- !app_assoc; cbn [app];
        eexists; (split; [reflexivity|]); calls_forall.
  - intros Hmm.
    destruct (realize_cache_shape conf (-1) mdvt_size0 h Hq)
      as [(Hz & Hp & _)|(_ & [->|[->| ->]])];
      [destruct Hmm; contradiction|..]; cbn [snd negb Z.eqb];
      rewrite <- ?app_assoc;
      match goal with |- context [?c ++ table_region_calls _ _ ++ ?rest] =>
        exists c, rest end;
      rewrite <- ?app_assoc; reflexivity.
Qed.

(** X28: the queues realize makes.  When realize succeeds its last calls
    are: the device with a configuration space of 44 bytes, one hiprio
    queue and [num-request-queues] request queues, each of [queue-size]
    entries, and [vhost_dev_init] with one more queue than configured; when
    [vhost_dev_init] fails, the same calls and then the three that undo
    them; with any other error the device has not been initialised. *)
Theorem vuf_device_realize_queues conf h :
  0 <= conf_num_request_queues conf ->
  match (realize conf h).1 with
  | None => exists t, (realize conf h).2 = h ++ t ++ queue_calls conf
  | Some ErrVhostDevInit =>
      exists t, (realize conf h).2
                = h ++ t ++ queue_calls conf ++
                  [RVhostUserCleanup; RVirtioCleanup; RFreeVqs]
  | Some _ =>
      exists t, (realize conf h).2 = h ++ t /\
                Forall (fun c => c <> RVirtioInit
                                       (Z.of_nat sizeof_virtio_fs_config)) t
  end.
Proof.
  intros Hq.
  assert (Hc : forall fd sz t0, Forall (fun c => c <> RVirtioInit
                                       (Z.of_nat sizeof_virtio_fs_config)) t0 ->
            match (cache conf fd sz (h ++ t0)).1 with
            | None => exists t, (cache conf fd sz (h ++ t0)).2
                                = h ++ t ++ queue_calls conf
            | Some ErrVhostDevInit =>
                exists t, (cache conf fd sz (h ++ t0)).2
                          = h ++ t ++ queue_calls conf ++
                            [RVhostUserCleanup; RVirtioCleanup; RFreeVqs]
            | Some _ =>
                exists t, (cache conf fd sz (h ++ t0)).2 = h ++ t /\
                  Forall (fun c => c <> RVirtioInit
                                       (Z.of_nat sizeof_virtio_fs_config)) t
            end).
  { intros fd sz t0 Ht0.
    pose proof (realize_cache_shape conf fd sz (h ++ t0) Hq) as Hs.
    cbv zeta in Hs.
    destruct Hs as [(_ & _ & ->)|(_ & [->|[->| ->]])]; cbn [fst snd].
    - eexists. rewrite <- app_assoc. split; [reflexivity|]. calls_forall.
    - eexists. rewrite <- app_assoc. split; [reflexivity|]. calls_forall.
    - match goal with |- context [(h ++ t0) ++ ?pre ++ queue_calls conf] =>
        exists (t0 ++ pre) end.
      rewrite <- !app_assoc. reflexivity.
    - match goal with |- context [(h ++ t0) ++ ?pre ++ queue_calls conf ++ _] =>
        exists (t0 ++ pre) end.
      rewrite <- !app_assoc. reflexivity. }
  assert (Hsame : forall e : realize_error,
            e <> ErrVhostDevInit ->
            match (Some e, h).1 with
            | None => exists t, (Some e, h).2 = h ++ t ++ queue_calls conf
            | Some ErrVhostDevInit =>
                exists t, (Some e, h).2
                          = h ++ t ++ queue_calls conf ++
                            [RVhostUserCleanup; RVirtioCleanup; RFreeVqs]
            | Some _ =>
                exists t, (Some e, h).2 = h ++ t /\
                  Forall (fun c => c <> RVirtioInit
                                       (Z.of_nat sizeof_virtio_fs_config)) t
            end).
  { intros e He. cbn [fst snd].
    destruct e; try contradiction; exists []; rewrite app_nil_r;
      (split; [reflexivity|constructor]). }
  unfold vuf_device_realize.
  destruct (negb (conf_chardev conf)); [apply Hsame; discriminate|].
  destruct (conf_tag conf) as [tag|]; [|apply Hsame; discriminate].
  cbv zeta.
  destruct (_ =? _)%nat; [apply Hsame; discriminate|].
  destruct (_ <? _)%nat; [apply Hsame; discriminate|].
  destruct (conf_num_request_queues conf =? 0); [apply Hsame; discriminate|].
  destruct (negb (is_power_of_2 (conf_queue_size conf)));
    [apply Hsame; discriminate|].
  destruct (VIRTQUEUE_MAX_SIZE <? conf_queue_size conf);
    [apply Hsame; discriminate|].
  destruct (_ && _); [apply Hsame; discriminate|].
  destruct (conf_mdvtpath conf) as [path|].
  - destruct (_ <? 0).
    { cbn [fst snd]. eexists. split; [reflexivity|]. calls_forall. }
    destruct (_ =? -1).
    { cbn [fst snd]. eexists. rewrite <- !app_assoc.
      split; [reflexivity|]. calls_forall. }
    rewrite <- app_assoc. apply Hc. calls_forall.
  - pose proof (Hc (-1) mdvt_size0 [] (Forall_nil_2 _)) as H0.
    rewrite app_nil_r in H0. exact H0.
Qed.

(** X29: realize closes the file of the version table on one path only,
    the failure of [fstat].  Whenever it ends otherwise, with success or
    with any other error (the blank cache that cannot be mapped, a failed
    [vhost_user_init] or [vhost_dev_init]), it has closed nothing: the
    file it opened stays open. *)
Theorem vuf_device_realize_leaves_table_open conf h :
  0 <= conf_num_request_queues conf ->
  (realize conf h).1 <> Some ErrStatTable ->
  exists t, (realize conf h).2 = h ++ t /\
            Forall (fun c => is_close c = false) t.
Proof.
  intros Hq Herr.
  assert (Hqc : Forall (fun c => is_close c = false) (queue_calls conf)).
  { unfold queue_calls. constructor; [reflexivity|].
    apply Forall_app. split; [|repeat constructor].
    apply Forall_replicate. reflexivity. }
  assert (Hc : forall fd sz t0, Forall (fun c => is_close c = false) t0 ->
            exists t, (cache conf fd sz (h ++ t0)).2 = h ++ t /\
                      Forall (fun c => is_close c = false) t).
  { intros fd sz t0 Ht0.
    pose proof (realize_cache_shape conf fd sz (h ++ t0) Hq) as Hs.
    cbv zeta in Hs. revert Hs Hqc. generalize (queue_calls conf).
    intros qc Hs Hqc.
    destruct Hs
      as [(_ & _ & ->)|(_ & [->|[->| ->]])]; cbn [snd];
      rewrite <- app_assoc; eexists; (split; [reflexivity|]); calls_forall. }
  assert (Hsame : forall e : realize_error,
            exists t, (Some e, h).2 = h ++ t /\
                      Forall (fun c => is_close c = false) t)
    by (intros e; exists []; rewrite app_nil_r;
        split; [reflexivity|constructor]).
  revert Herr. unfold vuf_device_realize.
  destruct (negb (conf_chardev conf)); [intros _; apply Hsame|].
  destruct (conf_tag conf) as [tag|]; [|intros _; apply Hsame].
  cbv zeta.
  destruct (_ =? _)%nat; [intros _; apply Hsame|].
  destruct (_ <? _)%nat; [intros _; apply Hsame|].
  destruct (conf_num_request_queues conf =? 0); [intros _; apply Hsame|].
  destruct (negb (is_power_of_2 (conf_queue_size conf)));
    [intros _; apply Hsame|].
  destruct (VIRTQUEUE_MAX_SIZE <? conf_queue_size conf);
    [intros _; apply Hsame|].
  destruct (_ && _); [intros _; apply Hsame|].
  destruct (conf_mdvtpath conf) as [path|].
  - destruct (_ <? 0).
    { intros _. eexists. split; [reflexivity|]. calls_forall. }
    destruct (_ =? -1); [intros Herr; exfalso; apply Herr; reflexivity|].
    intros _. rewrite <- app_assoc. apply Hc. calls_forall.
  - intros _. pose proof (Hc (-1) mdvt_size0 [] (Forall_nil_2 _)) as H0.
    rewrite app_nil_r in H0. exact H0.
Qed.

End RealizeExtras.

(** *** The configuration space *)

Lemma list_ascii_length (s : string) :
  length (String.list_ascii_of_string s) = String.length s.
Proof. induction s as [|c s IH]; cbn; [reflexivity|]. f_equal. exact IH. Qed.

Lemma until_nul_clean (l : list ascii) :
  NUL ∉ l -> until_nul l = l.
Proof.
  induction l as [|c l IH]; intros Hn; cbn [until_nul]; [reflexivity|].
  apply not_elem_of_cons in Hn as [Hc Hl].
  destruct (Ascii.eqb_spec c NUL) as [->|_]; [contradiction|].
  f_equal. apply IH. exact Hl.
Qed.

Lemma until_nul_stops (l r : list ascii) :
  NUL ∉ l -> until_nul (l ++ NUL :: r) = l.
Proof.
  induction l as [|c l IH]; intros Hn; cbn [until_nul app].
  - rewrite Ascii.eqb_refl. reflexivity.
  - apply not_elem_of_cons in Hn as [Hc Hl].
    destruct (Ascii.eqb_spec c NUL) as [->|_]; [contradiction|].
    f_equal. apply IH. exact Hl.
Qed.

(** X30: the tag survives the configuration space.  For a tag of at most
    36 bytes, which is what realize accepts, the [tag] field of the
    configuration [vuf_get_config] writes reads back as the tag, with or
    without room for a terminator; a longer tag would be cut to its first
    36 bytes.  The configuration is 44 bytes long. *)
Theorem vuf_get_config_tag_round_trip virtio_stl_p tag n :
  NUL ∉ String.list_ascii_of_string tag ->
  length (virtio_stl_p n) = 4%nat ->
  config_tag (vuf_get_config virtio_stl_p tag n)
  = take sizeof_tag (String.list_ascii_of_string tag) /\
  ((String.length tag <= sizeof_tag)%nat ->
   config_tag (vuf_get_config virtio_stl_p tag n)
   = String.list_ascii_of_string tag) /\
  length (vuf_get_config virtio_stl_p tag n) = sizeof_virtio_fs_config.
Proof.
  intros Hn Hstl.
  pose proof (list_ascii_length tag) as Hlen.
  set (chars := String.list_ascii_of_string tag) in *.
  unfold vuf_get_config. cbv zeta. fold chars. rewrite <- Hlen.
  set (k := Nat.min (length chars + 1) sizeof_tag).
  assert (Hfield : length (take k (chars ++ [NUL]) ++
                           replicate (sizeof_tag - k) NUL) = sizeof_tag).
  { rewrite length_app, length_take, length_replicate, length_app.
    cbn [length]. unfold k. lia. }
  assert (Htag : config_tag ((take k (chars ++ [NUL]) ++
                              replicate (sizeof_tag - k) NUL) ++
                             virtio_stl_p n ++ replicate 4 NUL)
                 = take sizeof_tag chars).
  { unfold config_tag. rewrite take_app_length' by (symmetry; exact Hfield).
    destruct (decide (length chars < sizeof_tag)%nat) as [Hlt|Hge].
    - replace k with (length chars + 1)%nat by (unfold k; lia).
      rewrite take_ge by (rewrite length_app; cbn [length]; lia).
      rewrite <- app_assoc. cbn [app].
      rewrite until_nul_stops by exact Hn.
      rewrite take_ge by lia. reflexivity.
    - replace k with sizeof_tag by (unfold k; lia).
      rewrite Nat.sub_diag. cbn [replicate]. rewrite app_nil_r.
      rewrite take_app_le by lia.
      apply until_nul_clean. intros Hin. apply Hn.
      exact (subseteq_take sizeof_tag chars _ Hin). }
  split; [exact Htag|]. split.
  - intros Hle. rewrite Htag. apply take_ge. lia.
  - rewrite length_app, Hfield, length_app, Hstl, length_replicate.
    reflexivity.
Qed.

(** ** The further statements at concrete inputs *)

Lemma fv_queue_worker_releases_locks_witness :
  exists w',
    fv_queue_worker (abi := linux_fuse_abi) (host := quiet_host)
      (example_session false) silent_session 2 example_request
      (example_world (fun _ => [])) = Ok tt w' /\
    w_held w' = [].
Proof.
  assert (Hr : exists w',
            fv_queue_worker (abi := linux_fuse_abi) (host := quiet_host)
              (example_session false) silent_session 2 example_request
              (example_world (fun _ => [])) = Ok tt w')
    by (vm_compute; eexists; reflexivity).
  destruct Hr as [w' Hr]. exists w'. split; [exact Hr|].
  exact (fv_queue_worker_releases_locks (abi := linux_fuse_abi)
           (host := quiet_host) (example_session false) silent_session 2
           example_request (example_world (fun _ => [])) w' eq_refl Hr).
Defined.

Lemma virtio_send_notify_msg_delivers_witness :
  let iov := [ {| iov_base := 512; iov_len := 24 |} ] in
  let w := example_world notify_buffer in
  exists m',
    virtio_send_notify_msg (abi := linux_fuse_abi) (example_session true)
      iov w
    = Ok 0 {| w_mem := m';
              w_avail := fun q' => if Nat.eqb q' 1 then [] else w_avail w q';
              w_held := [];
              w_trace := [EvRdLock; EvLock 1; EvPop 1 7; EvUnlock 1;
                          EvRwUnlock]
                         ++ locked_push 1 7 24 ++ [EvFree 7];
              w_heap := w_heap w |} /\
    Z_of_byte <$> (m' <$> seqZ 196608 24) = 24 :: replicate 23 0 /\
    (forall a, a ∉ seqZ 196608 24 ->
       m' a = out_header_set_len (FuseAbi := linux_fuse_abi) (w_mem w)
                512 24 a).
Proof.
  intros iov w.
  destruct (virtio_send_notify_msg_delivers (abi := linux_fuse_abi)
              (example_session true) iov w 1%nat
              {| elem_index := 7; out_sg := [];
                 in_sg := [ {| iov_base := 196608; iov_len := 64 |} ] |}
              0 0 []) as (m' & _ & Hrun & Hmem).
  - vm_compute. reflexivity.
  - reflexivity.
  - reflexivity.
  - apply not_elem_of_nil.
  - reflexivity.
  - repeat constructor; simpl; unfold UINT64_MOD; lia.
  - repeat constructor; simpl; unfold UINT64_MOD; lia.
  - vm_compute. discriminate.
  - vm_compute. discriminate.
  - exists m'. split; [exact Hrun|].
    destruct Hmem as (_ & Hout & Hback).
    + apply disjoint_addrs_Forall. apply (bool_decide_unpack _).
      vm_compute. exact I.
    + split; [|exact Hout].
      assert (Hnd : NoDup (take (Z.to_nat (iov_size iov))
                             (iov_addrs
                                [ {| iov_base := 196608; iov_len := 64 |} ])))
        by (apply (bool_decide_unpack _); vm_compute; exact I).
      specialize (Hback Hnd). unfold iov_bytes in Hback.
      transitivity
        (Z_of_byte <$>
           (out_header_set_len (FuseAbi := linux_fuse_abi) (w_mem w) 512 24
              <$> seqZ 512 24)).
      * f_equal. exact Hback.
      * vm_compute. reflexivity.
Defined.


Lemma fresh_vud_wf : vud_wf fresh_vud.
Proof.
  split; [reflexivity|]. split; [simpl; lia|].
  intros i ourqi Hi. destruct i; discriminate Hi.
Qed.

Lemma fv_queue_set_started_keeps_wf_witness :
  exists vud' t,
    fv_queue_set_started fresh_vud 7 8 0 1 true = Started vud' t /\
    vud_wf vud'.
Proof.
  eexists. eexists. split; [reflexivity|].
  eapply (fv_queue_set_started_keeps_wf fresh_vud 7 8 0 1 true).
  - exact fresh_vud_wf.
  - reflexivity.
Defined.

Lemma fv_queue_set_started_then_stopped_witness :
  exists vud1 t1,
    fv_queue_set_started fresh_vud 7 8 0 1 true = Started vud1 t1 /\
    fv_queue_set_started vud1 7 9 0 1 false
    = Started (set_qi vud1 (vud_nqueues vud1)
                 (<[1%nat := None]> (vud_qi vud1)))
              [QKill 8; QJoin 1; QClose 8] /\
    fv_queue_set_started vud1 7 9 0 1 true = StartedAbort ChkNotStarted.
Proof.
  eexists. eexists. split; [reflexivity|].
  destruct (fv_queue_set_started_then_stopped fresh_vud 7 8 0 1 _ _ eq_refl)
    as [Hstop Hagain].
  split; [apply Hstop|apply Hagain; discriminate].
Defined.

Lemma fv_queue_thread_kick_drains_witness :
  exists w',
    fv_queue_thread true 0 2 [(kick_alone, 0)] (example_world two_requests)
    = Ok (requests_of 0 (two_requests 2), ThreadWaiting) w' /\
    w_avail w' 2%nat = [] /\
    w_trace w' = [EvRdLock; EvLock 2; EvPop 2 0; EvPop 2 1; EvUnlock 2;
                  EvRwUnlock].
Proof.
  destruct (fv_queue_thread_kick_drains 0 2 kick_alone
              (example_world two_requests))
    as (w' & Hrun & Havail & _ & _ & _ & Htrace).
  - reflexivity.
  - apply not_elem_of_nil.
  - exists w'. split; [exact Hrun|]. split; [apply Havail|exact Htrace].
Defined.

Lemma fv_queue_thread_killed_witness :
  exists how,
    fv_queue_thread true 0 2 [(kick_and_kill, 0); (kick_and_kill, 0)]
      (example_world two_requests)
    = Ok ([], how) (example_world two_requests) /\
    how <> ThreadWaiting.
Proof.
  apply (fv_queue_thread_killed 0 2 kick_and_kill 0 [(kick_and_kill, 0)]
           (example_world two_requests)); discriminate.
Defined.

Lemma quiet_host_preadv : preadv_sets_errno quiet_host.
Proof. intros fd iov pos. right. simpl. lia. Qed.

Lemma quiet_host_io_request : io_request_errno quiet_host.
Proof. intros sm fd. simpl. lia. Qed.

Lemma fv_queue_thread_kick_workers_witness :
  exists w' lens,
    (do reqs <- fv_queue_thread_kick 2 2;
     run_workers (abi := linux_fuse_abi) (host := quiet_host)
       (example_session false) silent_session 2 reqs)
      (example_world two_requests) = Ok tt w' /\
    length lens = 2%nat /\
    pushes_on 2 (w_trace w') = zip [0; 1] lens.
Proof.
  assert (Hr : exists w',
            (do reqs <- fv_queue_thread_kick 2 2;
             run_workers (abi := linux_fuse_abi) (host := quiet_host)
               (example_session false) silent_session 2 reqs)
              (example_world two_requests) = Ok tt w')
    by (vm_compute; eexists; reflexivity).
  destruct Hr as [w' Hr].
  destruct (fv_queue_thread_kick_workers (abi := linux_fuse_abi)
              (host := quiet_host) (example_session false) silent_session
              2 2 (example_world two_requests) w'
              quiet_host_preadv quiet_host_io_request)
    as (lens & Hlen & Hpush).
  - discriminate.
  - apply not_elem_of_nil.
  - exact Hr.
  - exists w', lens. split; [exact Hr|]. split; [exact Hlen|exact Hpush].
Defined.

Lemma fv_socket_lock_ignores_mkdir_witness :
  let se := unmounted_session "/tmp/vfs.sock" in
  (fv_socket_lock socket_host "/var/run/virtiofsd" se []).1.1 = 0 /\
  (fv_socket_lock socket_host "/var/run/virtiofsd" se []).2
  = [CMkdir "/var/run/virtiofsd";
     CWritePidfile "/var/run/virtiofsd/.tmp.vfs.sock.pid"].
Proof.
  intros se.
  destruct (fv_socket_lock_ignores_mkdir socket_host "/var/run/virtiofsd"
              se []) as (Hret & Hcalls & _).
  - right. reflexivity.
  - split; [exact Hret|exact Hcalls].
Defined.

Lemma fv_create_listen_socket_path_witness :
  fv_create_listen_socket socket_host "/var/run/virtiofsd"
    (unmounted_session "") [] = (-1, unmounted_session "", []) /\
  exists se' h',
    fv_create_listen_socket socket_host "/var/run/virtiofsd"
      (unmounted_session "/tmp/vfs.sock") [] = (0, se', h') /\
    vu_listen_fd se' = 5 /\
    exists h0, h' = h0 ++ [CSocket; CBind 5 "/tmp/vfs.sock" 15; CListen 5].
Proof.
  split.
  - destruct (fv_create_listen_socket_path socket_host "/var/run/virtiofsd"
                (unmounted_session "") []) as [Hbad _].
    + simpl. lia.
    + apply Hbad. left. reflexivity.
  - eexists. eexists. split; [reflexivity|].
    destruct (fv_create_listen_socket_path socket_host "/var/run/virtiofsd"
                (unmounted_session "/tmp/vfs.sock") []) as [_ Hok].
    + simpl. lia.
    + destruct (Hok _ _ eq_refl) as (_ & _ & h0 & Hh & _).
      split; [reflexivity|]. exists h0. exact Hh.
Defined.

Lemma virtio_session_mount_retry_witness :
  exists se1 h1 r se2 cs,
    virtio_session_mount no_accept_host "/var/run/virtiofsd"
      (unmounted_session "/tmp/vfs.sock") [] = (-1, se1, h1) /\
    vu_listen_fd se1 = 5 /\
    virtio_session_mount no_accept_host "/var/run/virtiofsd" se1 h1
    = (r, se2, h1 ++ CAccept 5 :: CClose 5 :: cs) /\
    Forall (fun c => creates c = false) cs.
Proof.
  destruct (virtio_session_mount_retry no_accept_host "/var/run/virtiofsd"
              (unmounted_session "/tmp/vfs.sock") [] _ _
              ltac:(simpl; lia) eq_refl ltac:(simpl; lia) eq_refl)
    as (se1 & Hm & Hfd & r & se2 & cs & Hm2 & Hcs).
  exists se1. eexists. exists r, se2, cs.
  split; [exact Hm|]. split; [exact Hfd|]. split; [exact Hm2|exact Hcs].
Defined.

Lemma virtio_session_mount_close_witness :
  exists se1 h1,
    virtio_session_mount socket_host "/var/run/virtiofsd"
      (unmounted_session "/tmp/vfs.sock") [] = (0, se1, h1) /\
    vu_socketfd se1 = 6 /\
    (virtio_session_close se1 h1).2 = h1 ++ [CClose 6; CClose 6].
Proof.
  eexists. eexists. split; [reflexivity|].
  destruct (virtio_session_mount_close socket_host "/var/run/virtiofsd"
              (unmounted_session "/tmp/vfs.sock") [] _ _ eq_refl)
    as (_ & _ & _ & Hclose & _).
  split; [reflexivity|exact Hclose].
Defined.

Lemma daemon_io_messages_on_device_witness :
  let fs := {| cache_size := 65536; cache_host := 1048576 |} in
  (exists r ios,
     vhost_user_fs_slave_io 8 obliging_host (flat_ram 0) 513 (Some fs)
       (fuse_virtio_write_msg 8 8192 4294967296 512 512) 3 []
     = IoRet r ([] ++ ios ++ [SysClose 3]) /\
     Forall (is_pwrite 3) ios) /\
  (exists r ios,
     vhost_user_fs_slave_io 8 obliging_host (flat_ram 0) 513 (Some fs)
       (single_entry_msg 8 VHOST_USER_FS_FLAG_MAP_R 8192 4294967296 512) 3 []
     = IoRet r ([] ++ ios ++ [SysClose 3]) /\
     Forall (is_pread 3) ios).
Proof.
  intros fs.
  destruct (daemon_io_messages_on_device 8 obliging_host (flat_ram 0) 513
              fs 3 [] 8192 4294967296 512 512 8192 4294967296 512)
    as [_ Hret].
  - lia.
  - destruct Hret as [Hw Hr].
    + intros h fd p size off. simpl. lia.
    + intros gpa len. simpl. lia.
    + split; [apply Hw|apply Hr]; try (unfold UINT64_MOD; lia);
        apply Nat.ltb_lt; vm_compute; reflexivity.
Defined.

Lemma vuf_device_unrealize_stops_witness :
  vuf_device_unrealize clinging_vhost 4 (example_vuf_dev true true) []
  = [VhostDevStop; SetGuestNotifiers 2 false;
     VhostDevCleanup; VhostUserCleanup; VirtioCleanup; FreeVqs] /\
  exists t,
    vuf_device_unrealize willing_vhost 4 (example_vuf_dev true true) []
    = [] ++ t ++ [VhostDevCleanup; VhostUserCleanup; VirtioCleanup; FreeVqs] /\
    vhost_replay willing_vhost [] t
      {| host_notifiers := 1; guest_notifiers := 1; vhost_started := 1 |}
    = {| host_notifiers := 0; guest_notifiers := 0; vhost_started := 0 |}.
Proof.
  split; [reflexivity|].
  destruct (vuf_device_unrealize_stops willing_vhost 4
              (example_vuf_dev true true) []
              {| host_notifiers := 1; guest_notifiers := 1;
                 vhost_started := 1 |} eq_refl) as (t & Ht & Hs).
  exists t. split; [exact Ht|exact Hs].
Defined.

Lemma vuf_set_status_stopped_machine_witness :
  exists t,
    vuf_set_status willing_vhost 4 (example_vuf_dev false true) 15 []
    = [] ++ t /\
    VhostDevStart ∉ t.
Proof.
  destruct (vuf_set_status_stopped_machine willing_vhost 4
              (example_vuf_dev false true) 15 [] (or_introl eq_refl))
    as (t & Ht & Hns & _).
  exists t. split; [exact Ht|exact Hns].
Defined.

Lemma example_conf_accepted cache table :
  cache = 0 \/ cache = 1073741824 ->
  conf_accepted pow2 1024 4096 (example_conf cache table).
Proof.
  intros Hc. split; [reflexivity|]. split.
  { exists "myfs"%string. split; [reflexivity|]. unfold sizeof_tag.
    simpl. lia. }
  split; [discriminate|]. split; [reflexivity|]. split; [simpl; lia|].
  destruct Hc as [->| ->]; [left; reflexivity|right].
  split; [reflexivity|]. vm_compute. discriminate.
Qed.

Lemma vuf_device_realize_version_table_witness :
  (exists t1 t2,
     (vuf_device_realize (realize_host_ok 9 4096) pow2 1024 4096 0
        (example_conf 1073741824 None) []).2
     = [] ++ t1 ++ table_region_calls (-1) 0 ++ t2) /\
  (exists t,
     (vuf_device_realize (realize_host_ok 0 4096) pow2 1024 4096 0
        (example_conf 1073741824 (Some "/dev/shm/table"%string)) []).2
     = [] ++ t /\
     Forall (fun c => is_init_from_fd c = false) t).
Proof.
  split.
  - apply (vuf_device_realize_version_table (realize_host_ok 9 4096) pow2
             1024 4096 0 (example_conf 1073741824 None) []).
    + apply example_conf_accepted. right. reflexivity.
    + simpl. lia.
    + right. vm_compute. discriminate.
  - apply (vuf_device_realize_version_table (realize_host_ok 0 4096) pow2
             1024 4096 0
             (example_conf 1073741824 (Some "/dev/shm/table"%string)) []).
    + apply example_conf_accepted. right. reflexivity.
    + simpl. lia.
    + reflexivity.
Defined.

Lemma vuf_device_realize_queues_witness :
  (vuf_device_realize (realize_host_ok 9 4096) pow2 1024 4096 0
     (example_conf 0 (Some "/dev/shm/table"%string)) []).1 = None /\
  exists t,
    (vuf_device_realize (realize_host_ok 9 4096) pow2 1024 4096 0
       (example_conf 0 (Some "/dev/shm/table"%string)) []).2
    = [] ++ t ++ [RVirtioInit 44; RAddQueue 128; RAddQueue 128;
                  RVhostDevInit 2].
Proof.
  split; [reflexivity|].
  exact (vuf_device_realize_queues (realize_host_ok 9 4096) pow2 1024 4096 0
           (example_conf 0 (Some "/dev/shm/table"%string)) []
           ltac:(simpl; lia)).
Defined.

Lemma vuf_device_realize_leaves_table_open_witness :
  (vuf_device_realize (realize_host_no_cache 9 4096) pow2 1024 4096 0
     (example_conf 1073741824 (Some "/dev/shm/table"%string)) []).1
  = Some ErrMmapCache /\
  exists t,
    (vuf_device_realize (realize_host_no_cache 9 4096) pow2 1024 4096 0
       (example_conf 1073741824 (Some "/dev/shm/table"%string)) []).2
    = [ROpen "/dev/shm/table"] ++ t /\
    Forall (fun c => is_close c = false) t.
Proof.
  split; [reflexivity|].
  destruct (vuf_device_realize_leaves_table_open
              (realize_host_no_cache 9 4096) pow2 1024 4096 0
              (example_conf 1073741824 (Some "/dev/shm/table"%string)) [])
    as (t & Ht & Hall).
  - simpl. lia.
  - discriminate.
  - destruct t as [|c t]; [discriminate Ht|].
    exists t. split.
    + rewrite Ht. simpl in Ht |- *. injection Ht as <- _. reflexivity.
    + apply Forall_cons in Hall as [_ Hall]. exact Hall.
Defined.

(** [virtio_stl_p] on a little-endian device. *)
Lemma vuf_get_config_tag_round_trip_witness :
  let stl (v : Z) :=
    (fun i => ascii_of_N (Z.to_N ((v / 2 ^ (8 * i)) mod 256)))
      <$> [0; 1; 2; 3] in
  config_tag (vuf_get_config stl "myfs" 1)
  = String.list_ascii_of_string "myfs" /\
  length (vuf_get_config stl "myfs" 1) = 44%nat.
Proof.
  intros stl.
  destruct (vuf_get_config_tag_round_trip stl "myfs" 1) as (_ & Htag & Hlen).
  - vm_compute. intros Hin.
    repeat (apply elem_of_cons in Hin as [Hin|Hin]; [discriminate Hin|]).
    apply elem_of_nil in Hin. exact Hin.
  - reflexivity.
  - split; [|exact Hlen]. apply Htag. unfold sizeof_tag. simpl. lia.
Defined.

